(** * osgEarth CacheBin: scene-graph caching pipeline

    A shallow embedding of [src/osgEarth/CacheBin.cpp]:

    - [PrepareForCaching]: the visitor that strips user data containers and
      substitutes shallow clones of the textures found in texture slots;
    - [WriteExternalReferencesToCache]: the visitor that writes externally
      referenced images to the cache bin and renames them;
    - [CacheBin::writeNode]: the driver of the two visitors and the final write;
    - [osgEarthReadImageFromCachePseudoLoader]: the read-side plugin.

    Objects that C++ reaches through pointers (state sets, state attributes,
    images) live in an explicit store, so that sharing is visible; visitors are
    written in a state-and-failure monad over that store. *)

From Stdlib Require Import String Ascii NArith.
From Stdlib Require Import Hexadecimal HexadecimalPos HexadecimalN.
From Stdlib Require Import HexadecimalString.
From stdpp Require Import gmap strings list.

Local Open Scope string_scope.

#[local] Set Warnings "-register-all".

(** ** Strings *)

Module Str.

(** [std::string::find_last_of]: the index of the last character of [s]
    that satisfies [P], if there is one. *)
Fixpoint find_last_of (P : ascii -> bool) (s : string) : option nat :=
  match s with
  | EmptyString => None
  | String c s' =>
      match find_last_of P s' with
      | Some i => Some (S i)
      | None => if P c then Some 0 else None
      end
  end.

(** [std::string(s.begin() + n, s.end())]. *)
Fixpoint drop (n : nat) (s : string) : string :=
  match n, s with
  | O, _ => s
  | S n', String _ s' => drop n' s'
  | S _, EmptyString => EmptyString
  end.

(** [std::string(s.begin(), s.begin() + n)]. *)
Fixpoint take (n : nat) (s : string) : string :=
  match n, s with
  | S n', String c s' => String c (take n' s')
  | _, _ => EmptyString
  end.

Fixpoint forallb (P : ascii -> bool) (s : string) : bool :=
  match s with
  | EmptyString => true
  | String c s' => P c && forallb P s'
  end.

(** C's [tolower] in the "C" locale. *)
Definition tolower (c : ascii) : ascii :=
  let n := N_of_ascii c in
  if ((65 <=? n) && (n <=? 90))%N then ascii_of_N (n + 32) else c.

Fixpoint map (f : ascii -> ascii) (s : string) : string :=
  match s with
  | EmptyString => EmptyString
  | String c s' => String (f c) (map f s')
  end.

Definition is_dot (c : ascii) : bool := Ascii.eqb c ".".

(** osgDB's [PATH_SEPARATORS], the two characters slash and backslash. *)
Definition is_path_separator (c : ascii) : bool :=
  Ascii.eqb c "/" || Ascii.eqb c "\".

Definition is_lower_hex_digit (c : ascii) : bool :=
  let n := N_of_ascii c in
  (((48 <=? n) && (n <=? 57)) || ((97 <=? n) && (n <=? 102)))%N.

(** The double quote, as a string of one character. *)
Definition dquote : string := String (ascii_of_N 34) EmptyString.

(** The line feed, as a string of one character. *)
Definition newline : string := String (ascii_of_N 10) EmptyString.

End Str.

(** Modelled from the spec: [osgEarth::startsWith(ref, pattern)] lives in
    osgEarth's StringUtils, which is not part of the sources at hand; "carries
    the namespace prefix" is read as the case-sensitive test that [pattern] is
    an initial segment of [ref]. *)
Fixpoint startsWith (ref pattern : string) {struct pattern} : bool :=
  match pattern, ref with
  | EmptyString, _ => true
  | String _ _, EmptyString => false
  | String p pattern', String r ref' => Ascii.eqb r p && startsWith ref' pattern'
  end.

(** [Stringify() << std::hex << n] for an unsigned [n]: lowercase hexadecimal
    digits, no base prefix, no leading zeros, ["0"] for zero. *)
Definition hex (n : N) : string :=
  HexadecimalString.NilZero.string_of_uint (N.to_hex_uint n).

(** Modelled from the spec: [osgDB::getFileExtension] is OpenSceneGraph
    library code, absent from the sources at hand; "the target carries the
    extension" is read as osgDB does: the text after the last dot, and the
    empty string when there is no dot or a path separator follows it. *)
Definition getFileExtension (fileName : string) : string :=
  match Str.find_last_of Str.is_dot fileName with
  | None => EmptyString
  | Some dot =>
      match Str.find_last_of Str.is_path_separator fileName with
      | Some slash => if Nat.ltb dot slash then EmptyString
                      else Str.drop (S dot) fileName
      | None => Str.drop (S dot) fileName
      end
  end.

(** Modelled from the spec: [osgDB::convertToLowerCase] (OpenSceneGraph),
    [tolower] applied to every character. *)
Definition convertToLowerCase (s : string) : string := Str.map Str.tolower s.

(** Modelled from the spec: [osgDB::getLowerCaseFileExtension]
    (OpenSceneGraph): "the URL's extension is lowercased before comparison". *)
Definition getLowerCaseFileExtension (fileName : string) : string :=
  convertToLowerCase (getFileExtension fileName).

(** Modelled from the spec: [osgDB::getNameLessExtension] (OpenSceneGraph):
    "strip the indirection-marker extension"; the name up to the last dot, the
    whole name where [getFileExtension] finds no extension. *)
Definition getNameLessExtension (fileName : string) : string :=
  match Str.find_last_of Str.is_dot fileName with
  | None => fileName
  | Some dot =>
      match Str.find_last_of Str.is_path_separator fileName with
      | Some slash => if Nat.ltb dot slash then fileName else Str.take dot fileName
      | None => Str.take dot fileName
      end
  end.

(** [#define IMAGE_PREFIX "i_"] and the extension the plugin registers. *)
Definition IMAGE_PREFIX : string := "i_".
Definition CACHEBIN_EXTENSION : string := "osgearth_cachebin".

(** ** Scene-graph data *)

(** Pointers into the object store. *)
Abbreviation ptr := positive.

(** [osg::UserDataContainer]: the user data object proper (what
    [getUserData] returns), and the description strings. *)
Record UserDataContainer : Type := mkUDC {
  udc_userData : option N;
  udc_descriptions : list string
}.

Inductive WriteHint : Type := NO_PREFERENCE | STORE_INLINE | EXTERNAL_FILE.

(** [osg::Image]. *)
Record Image : Type := mkImage {
  img_udc : option UserDataContainer;
  img_fileName : string;
  img_writeHint : WriteHint;
  img_data : list N
}.

(** The part of an [osg::Texture] on top of [osg::StateAttribute].
    [tex_clonable] stands for the virtual [clone] of the texture's dynamic
    type: [osg::clone<osg::Texture>] returns NULL when it is [false]. *)
Record Texture : Type := mkTexture {
  tex_unRefImageDataAfterApply : bool;
  tex_images : list (option ptr);
  tex_clonable : bool
}.

(** [osg::StateAttribute]; [sa_texture] is what
    [dynamic_cast<osg::Texture*>] finds. *)
Record StateAttribute : Type := mkSA {
  sa_udc : option UserDataContainer;
  sa_texture : option Texture
}.

(** [osg::StateSet::AttributeList]: a [std::map] from (type, member) to
    (attribute pointer, override value), kept as its in-order entry list. *)
Definition TypeMemberPair : Type := N * N.
Definition RefAttributePair : Type := option ptr * N.
Definition AttributeList : Type := list (TypeMemberPair * RefAttributePair).

Record StateSet : Type := mkStateSet {
  ss_udc : option UserDataContainer;
  ss_attributeList : AttributeList;
  ss_textureAttributeList : list AttributeList
}.

Record Drawable : Type := mkDrawable {
  dr_udc : option UserDataContainer;
  dr_stateSet : option ptr
}.

(** Nodes: a group with children, or a geode with its drawables (a drawable
    slot may hold NULL). A geode has no node children to traverse. Nodes
    and drawables are values here, with their user data inline, while state
    sets, attributes and images are objects of the store: a node that has
    several parents in the scene graph is given once under each of them, so
    the visit of its second occurrence finds the user data again, where the
    program finds the one object already without it. The theorems about
    nodes are therefore about graphs that are trees of nodes, and none of
    them is about the value of [_userDataClears]. *)
Inductive Node : Type :=
| Group (udc : option UserDataContainer) (stateSet : option ptr)
        (children : list Node)
| Geode (udc : option UserDataContainer) (stateSet : option ptr)
        (drawables : list (option Drawable)).

Definition node_stateSet (n : Node) : option ptr :=
  match n with Group _ ss _ | Geode _ ss _ => ss end.

Definition node_udc (n : Node) : option UserDataContainer :=
  match n with Group u _ _ | Geode u _ _ => u end.

(** The object store. *)
Record Heap : Type := mkHeap {
  h_stateSets : gmap ptr StateSet;
  h_attrs : gmap ptr StateAttribute;
  h_images : gmap ptr Image
}.

(** [osgDB::Options], as far as this file uses it: the plugin string data,
    and the cache bin that [CacheBin::get] retrieves from it. *)
Record Options (B : Type) : Type := mkOptions {
  opt_pluginStringData : gmap string string;
  opt_cacheBin : option B
}.
Arguments mkOptions {B} _ _.
Arguments opt_pluginStringData {B} _.
Arguments opt_cacheBin {B} _.

(** [osgEarth::Config], the metadata written along with an object. *)
Definition Config : Type := list (string * string).

(** What is handed to the cache bin: an image, or a graph (its root and the
    objects it points to). *)
Inductive Object : Type :=
| ObjImage (img : Image)
| ObjNode (root : Node) (h : Heap).

(** ** The cache bin interface *)

(** [CacheBin::RecordStatus]. *)
Inductive RecordStatus : Type := STATUS_NOT_FOUND | STATUS_OK | STATUS_EXPIRED.

#[global] Instance RecordStatus_eq_dec : EqDecision RecordStatus.
Proof. solve_decision. Defined.

(** [osgEarth::ReadResult]: a result code, and the object read if any. *)
Inductive ResultCode : Type :=
| RESULT_OK | RESULT_CANCELED | RESULT_NOT_FOUND | RESULT_EXPIRED
| RESULT_SERVER_ERROR | RESULT_TIMEOUT | RESULT_NO_READER
| RESULT_READER_ERROR | RESULT_UNKNOWN_ERROR | RESULT_NOT_IMPLEMENTED
| RESULT_NOT_MODIFIED.

Record ReadResult : Type := mkReadResult {
  rr_code : ResultCode;
  rr_result : option Object
}.

Definition succeeded (rr : ReadResult) : bool :=
  match rr_code rr with RESULT_OK => true | _ => false end.

Definition getObject (rr : ReadResult) : option Object := rr_result rr.

(** [getImage] is [dynamic_cast<osg::Image*>] of the result. *)
Definition getImage (rr : ReadResult) : option Object :=
  match rr_result rr with
  | Some (ObjImage img) => Some (ObjImage img)
  | _ => None
  end.

(** The virtual methods of [CacheBin] that this file calls, over a bin
    state [B]; [write] returns the bin after the call. *)
Class CacheBin (B : Type) : Type := mkCacheBin {
  getRecordStatus : B -> string -> RecordStatus;
  write : B -> string -> Object -> Config -> option (Options B) -> bool * B;
  readObject : B -> string -> option (Options B) -> ReadResult;
  readImage : B -> string -> option (Options B) -> ReadResult
}.

(** [CacheBin::get(options)]: the bin stored in the options, NULL when the
    options are NULL or hold none. *)
Definition CacheBin_get {B} (o : option (Options B)) : option B :=
  match o with
  | Some opts => opt_cacheBin opts
  | None => None
  end.

(** [Registry::cloneOrCreateOptions]. *)
Definition cloneOrCreateOptions {B} (o : option (Options B)) : Options B :=
  match o with
  | Some opts => opts
  | None => mkOptions ∅ None
  end.

Definition setPluginStringData {B} (k v : string) (o : Options B) : Options B :=
  mkOptions (<[k := v]> (opt_pluginStringData o)) (opt_cacheBin o).

(** What a run leaves behind besides the store: log lines, the calls made on
    the cache bin, and the taking and releasing of the global mutex. *)
Inductive Event (B : Type) : Type :=
| EvWarn (msg : string)
| EvInfo (msg : string)
| EvDebug (msg : string)
| EvLock
| EvUnlock
| EvGetRecordStatus (key : string) (rs : RecordStatus)
| EvWrite (key : string) (obj : Object) (meta : Config)
          (dbo : option (Options B)) (ok : bool)
| EvReadObject (key : string)
| EvReadImage (key : string).
Arguments EvWarn {B} _.
Arguments EvInfo {B} _.
Arguments EvDebug {B} _.
Arguments EvLock {B}.
Arguments EvUnlock {B}.
Arguments EvGetRecordStatus {B} _ _.
Arguments EvWrite {B} _ _ _ _ _.
Arguments EvReadObject {B} _.
Arguments EvReadImage {B} _.

Definition is_write {B} (e : Event B) : bool :=
  match e with EvWrite _ _ _ _ _ => true | _ => false end.

Definition is_bin_call {B} (e : Event B) : bool :=
  match e with
  | EvWrite _ _ _ _ _ | EvGetRecordStatus _ _
  | EvReadObject _ | EvReadImage _ => true
  | _ => false
  end.

(** ** A state-and-failure monad

    A computation reads and updates a state and may fail; failure stands for
    the dereference of a NULL or dangling pointer. *)
Module Monad.

Definition M (S A : Type) : Type := S -> option (A * S).

Definition ret {S A} (a : A) : M S A := fun s => Some (a, s).

Definition bind {S A C} (c : M S A) (k : A -> M S C) : M S C :=
  fun s => match c s with
           | Some (a, s') => k a s'
           | None => None
           end.

Definition fail {S A} : M S A := fun _ => None.

Definition get {S} : M S S := fun s => Some (s, s).

Definition put {S} (s : S) : M S unit := fun _ => Some (tt, s).

Definition modify {S} (f : S -> S) : M S unit := fun s => Some (tt, f s).

Definition lift_option {S A} (o : option A) : M S A :=
  match o with Some a => ret a | None => fail end.

Definition when {S} (b : bool) (c : M S unit) : M S unit :=
  if b then c else ret tt.

(** A loop that rewrites the elements of a list in order. *)
Fixpoint mapM {S A C} (f : A -> M S C) (l : list A) : M S (list C) :=
  match l with
  | [] => ret []
  | x :: l' => bind (f x) (fun y => bind (mapM f l') (fun ys => ret (y :: ys)))
  end.

(** A loop over a list for its effects. *)
Fixpoint forM_ {S A} (l : list A) (f : A -> M S unit) : M S unit :=
  match l with
  | [] => ret tt
  | x :: l' => bind (f x) (fun _ => forM_ l' f)
  end.

End Monad.
Import Monad.

Notation "x <- c ;; k" := (bind c (fun x => k))
  (at level 100, c at next level, right associativity).
Notation "c ;;; k" := (bind c (fun _ => k))
  (at level 100, right associativity).

(** ** The world a write or read runs in *)

Record World (B : Type) : Type := mkWorld {
  w_heap : Heap;
  w_bin : B;
  w_trace : list (Event B)
}.
Arguments mkWorld {B} _ _ _.
Arguments w_heap {B} _.
Arguments w_bin {B} _.
Arguments w_trace {B} _.

Definition set_heap {B} (h : Heap) (w : World B) : World B :=
  mkWorld h (w_bin w) (w_trace w).

Definition emit {B} (e : Event B) (w : World B) : World B :=
  mkWorld (w_heap w) (w_bin w) (w_trace w ++ [e]).

Definition set_stateSet (p : ptr) (ss : StateSet) (h : Heap) : Heap :=
  mkHeap (<[p := ss]> (h_stateSets h)) (h_attrs h) (h_images h).

Definition set_attr (p : ptr) (a : StateAttribute) (h : Heap) : Heap :=
  mkHeap (h_stateSets h) (<[p := a]> (h_attrs h)) (h_images h).

Definition set_image (p : ptr) (i : Image) (h : Heap) : Heap :=
  mkHeap (h_stateSets h) (h_attrs h) (<[p := i]> (h_images h)).

(** [getUserData()]: the user data of the container, NULL without one. *)
Definition getUserData (u : option UserDataContainer) : option N :=
  match u with
  | Some c => udc_userData c
  | None => None
  end.

(** ** PrepareForCaching *)

Module PrepareForCaching.

(** The visitor's own fields, two unsigned profiling counters. *)
Record Visitor : Type := mkVisitor {
  _textures : N;
  _userDataClears : N
}.

Record State (B : Type) : Type := mkState {
  this : Visitor;
  world : World B
}.
Arguments mkState {B} _ _.
Arguments this {B} _.
Arguments world {B} _.

(** The constructor. *)
Definition new : Visitor := mkVisitor 0 0.

Section Visitor.
Context {B : Type}.

Abbreviation PM := (M (State B)).

Definition heap : PM Heap := fun s => Some (w_heap (world s), s).

Definition update_heap (f : Heap -> Heap) : PM unit :=
  modify (fun s => mkState (this s) (set_heap (f (w_heap (world s))) (world s))).

Definition log (e : Event B) : PM unit :=
  modify (fun s => mkState (this s) (emit e (world s))).

Definition uint_incr (n : N) : N := ((n + 1) mod 2 ^ 32)%N.

(** [applyUserData], on the user data container slot of any [osg::Object]:
    count the object if it has user data, and detach its container. *)
Definition applyUserData (u : option UserDataContainer)
  : PM (option UserDataContainer) :=
  when (bool_decide (is_Some (getUserData u)))
       (modify (fun s =>
          mkState (mkVisitor (_textures (this s))
                             (uint_incr (_userDataClears (this s))))
                  (world s))) ;;;
  ret None.

Definition applyUserData_attr (p : ptr) : PM unit :=
  h <- heap ;;
  a <- lift_option (h_attrs h !! p) ;;
  u <- applyUserData (sa_udc a) ;;
  update_heap (set_attr p (mkSA u (sa_texture a))).

Definition applyUserData_image (p : ptr) : PM unit :=
  h <- heap ;;
  i <- lift_option (h_images h !! p) ;;
  u <- applyUserData (img_udc i) ;;
  update_heap (set_image p (mkImage u (img_fileName i) (img_writeHint i)
                                    (img_data i))).

Definition applyUserData_stateSet (p : ptr) : PM unit :=
  h <- heap ;;
  ss <- lift_option (h_stateSets h !! p) ;;
  u <- applyUserData (ss_udc ss) ;;
  update_heap (set_stateSet p (mkStateSet u (ss_attributeList ss)
                                          (ss_textureAttributeList ss))).

Definition setUnRefImageDataAfterApply (b : bool) (t : Texture) : Texture :=
  mkTexture b (tex_images t) (tex_clonable t).

(** [osg::clone(tex, SHALLOW_COPY)]: a new object with the fields of the
    texture (same image pointers, same user data container), or NULL. *)
Definition clone (p : ptr) : PM (option ptr) :=
  h <- heap ;;
  a <- lift_option (h_attrs h !! p) ;;
  match sa_texture a with
  | Some t =>
      if tex_clonable t then
        let q := fresh (dom (h_attrs h)) in
        update_heap (set_attr q a) ;;;
        ret (Some q)
      else ret None
  | None => ret None
  end.

Definition getImages (p : ptr) : PM (list (option ptr)) :=
  h <- heap ;;
  a <- lift_option (h_attrs h !! p) ;;
  ret (match sa_texture a with Some t => tex_images t | None => [] end).

(** The body of the inner loop of [apply(osg::StateSet* ss)] over one entry [j]
    of a texture unit's attribute list; returns the entry as the loop leaves
    it. *)
Definition apply_textureSlot (j : TypeMemberPair * RefAttributePair)
  : PM (TypeMemberPair * RefAttributePair) :=
  match fst (snd j) with
  | None => ret j
  | Some sa =>
      h <- heap ;;
      a <- lift_option (h_attrs h !! sa) ;;
      match sa_texture a with
      | Some tex =>
          update_heap (set_attr sa
            (mkSA (sa_udc a) (Some (setUnRefImageDataAfterApply false tex)))) ;;;
          texClone <- clone sa ;;
          match texClone with
          | Some q =>
              imgs <- getImages q ;;
              forM_ imgs (fun image =>
                match image with
                | Some ip => applyUserData_image ip
                | None => ret tt
                end) ;;;
              applyUserData_attr q ;;;
              ret (fst j, (Some q, snd (snd j)))
          | None =>
              log (EvWarn "[PrepareForCaching] Texture clone failed.
") ;;;
              ret j
          end
      | None =>
          applyUserData_attr sa ;;;
          ret j
      end
  end.

(** [apply(osg::StateSet* ss)]. The first loop dereferences every entry
    of the plain attribute list without a NULL test, so a NULL entry there
    is a failure; the second loop skips NULL entries. The state set itself
    is written back once both loops are done, which is when its texture
    units have all been visited. *)
Definition apply_StateSet (ssp : option ptr) : PM unit :=
  match ssp with
  | None => ret tt
  | Some p =>
      h <- heap ;;
      ss <- lift_option (h_stateSets h !! p) ;;
      forM_ (ss_attributeList ss) (fun i =>
        match fst (snd i) with
        | Some sa => applyUserData_attr sa
        | None => fail
        end) ;;;
      a <- mapM (mapM apply_textureSlot) (ss_textureAttributeList ss) ;;
      update_heap (set_stateSet p
        (mkStateSet (ss_udc ss) (ss_attributeList ss) a)) ;;;
      applyUserData_stateSet p
  end.

(** [apply(osg::Drawable* drawable)]. *)
Definition apply_Drawable (drawable : option Drawable)
  : PM (option Drawable) :=
  match drawable with
  | None => ret None
  | Some d =>
      apply_StateSet (dr_stateSet d) ;;;
      u <- applyUserData (dr_udc d) ;;
      ret (Some (mkDrawable u (dr_stateSet d)))
  end.

(** [node.accept(prep)]: [apply(osg::Geode&)] on a geode, [apply(osg::Node&)]
    on any other node, whose [traverse] visits the children in order. The
    node is returned as the visit leaves it. *)
Fixpoint accept (node : Node) : PM Node :=
  match node with
  | Group udc ss children =>
      apply_StateSet ss ;;;
      u <- applyUserData udc ;;
      cs <- (fix traverse (l : list Node) : PM (list Node) :=
               match l with
               | [] => ret []
               | c :: l' =>
                   c' <- accept c ;;
                   cs' <- traverse l' ;;
                   ret (c' :: cs')
               end) children ;;
      ret (Group u ss cs)
  | Geode udc ss drawables =>
      ds <- mapM apply_Drawable drawables ;;
      apply_StateSet ss ;;;
      u <- applyUserData udc ;;
      ret (Geode u ss ds)
  end.

End Visitor.
End PrepareForCaching.

(** ** WriteExternalReferencesToCache *)

Module WriteExternalReferencesToCache.

Section Visitor.
Context {B : Type} `{CacheBin B}.

(** [osgEarth::hashString] (StringUtils, not among the sources at hand) is
    taken as given: any function from strings to unsigned integers. *)
Variable hashString : string -> N.

(** The visitor's fields [_bin] and [_writeOptions]; the bin is the one of
    the world the visitor runs in. *)
Variable _writeOptions : option (Options B).

Abbreviation WM := (M (World B)).

Definition heap : WM Heap := fun w => Some (w_heap w, w).

Definition update_heap (f : Heap -> Heap) : WM unit :=
  modify (fun w => set_heap (f (w_heap w)) w).

Definition log (e : Event B) : WM unit := modify (emit e).

(** [_bin->getRecordStatus(key)]. *)
Definition bin_getRecordStatus (key : string) : WM RecordStatus :=
  fun w =>
    let rs := getRecordStatus (w_bin w) key in
    Some (rs, emit (EvGetRecordStatus key rs) w).

(** [_bin->write(key, object, dbo)], the overload without metadata, which
    passes an empty [Config]. *)
Definition bin_write (key : string) (obj : Object) (meta : Config)
    (dbo : option (Options B)) : WM bool :=
  fun w =>
    let '(ok, b) := write (w_bin w) key obj meta dbo in
    Some (ok, emit (EvWrite key obj meta dbo ok)
                   (mkWorld (w_heap w) b (w_trace w))).

Definition getFileName (p : ptr) : WM string :=
  h <- heap ;;
  i <- lift_option (h_images h !! p) ;;
  ret (img_fileName i).

Definition setFileName (p : ptr) (name : string) : WM unit :=
  h <- heap ;;
  i <- lift_option (h_images h !! p) ;;
  update_heap (set_image p (mkImage (img_udc i) name (img_writeHint i)
                                    (img_data i))).

Definition setWriteHint (p : ptr) (hint : WriteHint) : WM unit :=
  h <- heap ;;
  i <- lift_option (h_images h !! p) ;;
  update_heap (set_image p (mkImage (img_udc i) (img_fileName i) hint
                                    (img_data i))).

(** The cache key of line 215. *)
Definition cacheKeyOf (path : string) : string :=
  IMAGE_PREFIX ++ hex (hashString path).

(** [apply(osg::Image&)]. *)
Definition apply_Image (image : ptr) : WM unit :=
  path <- getFileName image ;;
  when (bool_decide (path = ""))
       (log (EvWarn "[WriteImagesToCache] ERROR image with blank filename.
")) ;;;
  if negb (startsWith path IMAGE_PREFIX) then
    log EvLock ;;;
    (if negb (startsWith path IMAGE_PREFIX) then
       let cacheKey := cacheKeyOf path in
       setFileName image (cacheKey ++ ".osgearth_cachebin") ;;;
       setWriteHint image EXTERNAL_FILE ;;;
       rs <- bin_getRecordStatus cacheKey ;;
       if negb (bool_decide (rs = STATUS_OK)) then
         let dbo := setPluginStringData "WriteImageHint" "IncludeData"
                      (cloneOrCreateOptions _writeOptions) in
         log (EvInfo ("[WriteImagesToCache] Writing image " ++ Str.dquote
                      ++ path ++ Str.dquote ++ " to the cache as "
                      ++ Str.dquote ++ cacheKey ++ Str.dquote
                      ++ Str.newline)) ;;;
         h <- heap ;;
         img <- lift_option (h_images h !! image) ;;
         ok <- bin_write cacheKey (ObjImage img) [] (Some dbo) ;;
         when (negb ok)
              (log (EvWarn "[WriteImagesToCache] ...error, write failed!
"))
       else ret tt
     else ret tt) ;;;
    log EvUnlock
  else ret tt.

(** Modelled from the spec: [osgEarth::TextureAndImageVisitor] (ImageUtils,
    not among the sources at hand), the base class that walks the graph and
    hands "every Image Resource reachable from any Texture Attribute in the
    graph" to [apply_Image]: the images of the textures in the texture slots
    of the state sets of nodes and drawables, children in order. *)
Definition apply_Texture (sa : option ptr) : WM unit :=
  match sa with
  | None => ret tt
  | Some p =>
      h <- heap ;;
      a <- lift_option (h_attrs h !! p) ;;
      match sa_texture a with
      | Some tex =>
          forM_ (tex_images tex) (fun image =>
            match image with
            | Some ip => apply_Image ip
            | None => ret tt
            end)
      | None => ret tt
      end
  end.

(** Modelled from the spec: [TextureAndImageVisitor::apply] on a state set
    (see [apply_Texture]). *)
Definition apply_StateSet (ssp : option ptr) : WM unit :=
  match ssp with
  | None => ret tt
  | Some p =>
      h <- heap ;;
      ss <- lift_option (h_stateSets h !! p) ;;
      forM_ (ss_textureAttributeList ss) (fun b =>
        forM_ b (fun j => apply_Texture (fst (snd j))))
  end.

(** Modelled from the spec: [TextureAndImageVisitor::apply] on nodes and
    geodes (see [apply_Texture]). *)
Fixpoint accept (node : Node) : WM unit :=
  match node with
  | Group _ ss children =>
      apply_StateSet ss ;;;
      (fix traverse (l : list Node) : WM unit :=
         match l with
         | [] => ret tt
         | c :: l' => accept c ;;; traverse l'
         end) children
  | Geode _ ss drawables =>
      apply_StateSet ss ;;;
      forM_ drawables (fun d =>
        match d with
        | Some dr => apply_StateSet (dr_stateSet dr)
        | None => ret tt
        end)
  end.

End Visitor.
End WriteExternalReferencesToCache.

(** ** CacheBin::writeNode *)

Section WriteNode.
Context {B : Type} `{CacheBin B}.
Variable hashString : string -> N.

(** [CacheBin::writeNode(key, node, metadata, writeOptions)] with [this] the
    bin of the world; returns the boolean result and the graph as the call
    leaves it. *)
Definition writeNode (key : string) (node : Node) (metadata : Config)
    (writeOptions : option (Options B)) : M (World B) (bool * Node) :=
  fun w =>
    match PrepareForCaching.accept node
            (PrepareForCaching.mkState PrepareForCaching.new w) with
    | None => None
    | Some (node', prep) =>
        (WriteExternalReferencesToCache.accept hashString writeOptions node' ;;;
         h <- WriteExternalReferencesToCache.heap ;;
         WriteExternalReferencesToCache.bin_write key (ObjNode node' h)
           metadata writeOptions ;;;
         ret (true, node')) (PrepareForCaching.world prep)
    end.

End WriteNode.

(** ** The pseudoloader *)

Module osgEarthReadImageFromCachePseudoLoader.

(** [bin->readObject] and [bin->readImage], the methods of the cache bin,
    under names that the loader's own entry points do not hide. *)
Local Abbreviation bin_readObject := readObject.
Local Abbreviation bin_readImage := readImage.

(** [osgDB::ReaderWriter::ReadResult]: a status and the object loaded. *)
Inductive ReadStatus : Type :=
| NOT_IMPLEMENTED | FILE_NOT_HANDLED | FILE_NOT_FOUND
| ERROR_IN_READING_FILE | FILE_LOADED | FILE_LOADED_FROM_CACHE
| FILE_REQUESTED | INSUFFICIENT_MEMORY_TO_LOAD.

Record ReadResult : Type := mkResult {
  status : ReadStatus;
  object : option Object
}.

(** [ReadResult(ReadStatus)] and [ReadResult(osg::Object* )]. *)
Definition of_status (s : ReadStatus) : ReadResult := mkResult s None.
Definition of_object (o : option Object) : ReadResult := mkResult FILE_LOADED o.

Section Loader.
Context {B : Type} `{CacheBin B}.

(** [readObject(url, readOptions)]: the result, and the calls made. *)
Definition readObject (url : string) (readOptions : option (Options B))
  : ReadResult * list (Event B) :=
  if negb (bool_decide (getLowerCaseFileExtension url = "osgearth_cachebin"))
  then (of_status FILE_NOT_HANDLED, [])
  else
    match CacheBin_get readOptions with
    | None => (of_status FILE_NOT_FOUND, [])
    | Some bin =>
        let key := getNameLessExtension url in
        let rr := bin_readObject bin key readOptions in
        (if succeeded rr then of_object (getObject rr)
         else of_status FILE_NOT_FOUND,
         [EvDebug ("[ReadImageFromCachePseudoLoader] Reading " ++ Str.dquote
                   ++ key ++ Str.dquote ++ Str.newline);
          EvReadObject key])
    end.

(** [readImage(url, readOptions)]. *)
Definition readImage (url : string) (readOptions : option (Options B))
  : ReadResult * list (Event B) :=
  if negb (bool_decide (getLowerCaseFileExtension url = "osgearth_cachebin"))
  then (of_status FILE_NOT_HANDLED, [])
  else
    match CacheBin_get readOptions with
    | None => (of_status FILE_NOT_FOUND, [])
    | Some bin =>
        let key := getNameLessExtension url in
        let rr := bin_readImage bin key readOptions in
        (if succeeded rr then of_object (getImage rr)
         else of_status FILE_NOT_FOUND,
         [EvDebug ("[ReadImageFromCachePseudoLoader] Reading " ++ Str.dquote
                   ++ key ++ Str.dquote ++ Str.newline);
          EvReadImage key])
    end.

End Loader.
End osgEarthReadImageFromCachePseudoLoader.

(** ** Two cache bins to run the code on *)

(** A bin kept in memory: a record is present once written. *)
Abbreviation MemBin := (gmap string (Object * Config)).

#[global] Instance MemBin_CacheBin : CacheBin MemBin := {|
  getRecordStatus b key :=
    match b !! key with Some _ => STATUS_OK | None => STATUS_NOT_FOUND end;
  write b key obj meta _ := (true, <[key := (obj, meta)]> b);
  readObject b key _ :=
    match b !! key with
    | Some (obj, _) => mkReadResult RESULT_OK (Some obj)
    | None => mkReadResult RESULT_NOT_FOUND None
    end;
  readImage b key _ :=
    match b !! key with
    | Some (ObjImage img, _) => mkReadResult RESULT_OK (Some (ObjImage img))
    | Some _ => mkReadResult RESULT_READER_ERROR None
    | None => mkReadResult RESULT_NOT_FOUND None
    end
|}.

(** A bin that refuses every write and holds nothing. *)
Inductive ReadOnlyBin : Type := read_only_bin.

#[global] Instance ReadOnlyBin_CacheBin : CacheBin ReadOnlyBin := {|
  getRecordStatus _ _ := STATUS_NOT_FOUND;
  write b _ _ _ _ := (false, b);
  readObject _ _ _ := mkReadResult RESULT_NOT_FOUND None;
  readImage _ _ _ := mkReadResult RESULT_NOT_FOUND None
|}.

(** A stand-in for [hashString] to run examples with. *)
Definition sample_hash (s : string) : N :=
  (N.of_nat (String.length s) * 2654435761 mod 2 ^ 32)%N.

(** * Vocabulary of the properties

    Short names for the three modules, the predicates the statements are
    written with, and sample data to run the code on. *)

Module PL := osgEarthReadImageFromCachePseudoLoader.
Module WR := WriteExternalReferencesToCache.
Module PC := PrepareForCaching.

(** ** What the visit of an image leaves *)

Section ExternalizedImage.
Context {B : Type} `{CacheBin B}.
Variable hashString : string -> N.
Variable writeOptions : option (Options B).

(** The image as the visitor renames it. *)
Definition renamed (img : Image) : Image :=
  mkImage (img_udc img)
          (WR.cacheKeyOf hashString (img_fileName img) ++ ".osgearth_cachebin")
          EXTERNAL_FILE (img_data img).

(** The options of the image write. *)
Definition image_dbo : Options B :=
  setPluginStringData "WriteImageHint" "IncludeData"
    (cloneOrCreateOptions writeOptions).

(** The warning for an image without a name. *)
Definition blank_warning (path : string) : list (Event B) :=
  if bool_decide (path = "")
  then [EvWarn "[WriteImagesToCache] ERROR image with blank filename.
"]
  else [].

(** The events of the locked region, and the bin it leaves. *)
Definition locked_region (img : Image) (b : B) : list (Event B) * B :=
  let path := img_fileName img in
  let key := WR.cacheKeyOf hashString path in
  match getRecordStatus b key with
  | STATUS_OK => ([EvLock; EvGetRecordStatus key STATUS_OK; EvUnlock], b)
  | rs =>
      let r := write b key (ObjImage (renamed img)) [] (Some image_dbo) in
      (([EvLock; EvGetRecordStatus key rs;
         EvInfo ("[WriteImagesToCache] Writing image " ++ Str.dquote
                 ++ path ++ Str.dquote ++ " to the cache as "
                 ++ Str.dquote ++ key ++ Str.dquote ++ Str.newline);
         EvWrite key (ObjImage (renamed img)) [] (Some image_dbo) (fst r)]
        ++ (if fst r then []
            else [EvWarn "[WriteImagesToCache] ...error, write failed!
"])
        ++ [EvUnlock])%list, snd r)
  end.

(** The world after the visit of an image whose name lacks the prefix. *)
Definition externalized (ip : ptr) (img : Image) (w : World B) : World B :=
  let r := locked_region img (w_bin w) in
  mkWorld (set_image ip (renamed img) (w_heap w)) (snd r)
          (w_trace w ++ blank_warning (img_fileName img) ++ fst r)%list.

End ExternalizedImage.

(** The events a run adds to the trace. *)
Definition events_since {B} (w w' : World B) : list (Event B) :=
  drop (length (w_trace w)) (w_trace w').

Definition writes_since {B} (w w' : World B) : list (Event B) :=
  filter (fun e => is_write e = true) (events_since w w').

Definition bin_calls_since {B} (w w' : World B) : list (Event B) :=
  filter (fun e => is_bin_call e = true) (events_since w w').

(** The key a bin call is made with. *)
Definition event_key {B} (e : Event B) : option string :=
  match e with
  | EvGetRecordStatus key _ | EvWrite key _ _ _ _
  | EvReadObject key | EvReadImage key => Some key
  | _ => None
  end.

(** ** Well-formed stores and graphs

    The visitors dereference the pointers they find; a store is well formed
    when those pointers lead somewhere: the plain attribute list of a state
    set holds non-NULL pointers to attributes that are not textures (textures
    go to the texture units), the texture units hold NULL or pointers to
    attributes, and the images of a texture are NULL or in the store. That
    a plain attribute list holds no texture is a restriction of these
    stores, not of the program, whose first loop detaches the user data of
    whatever attribute it finds: [stateSet_reads_ok] lifts it, and the
    theorems about the textures of a visited state set are stated with
    it. *)

Definition is_plain_attr (h : Heap) (e : TypeMemberPair * RefAttributePair)
  : bool :=
  match fst (snd e) with
  | Some q =>
      match h_attrs h !! q with
      | Some a => match sa_texture a with None => true | Some _ => false end
      | None => false
      end
  | None => false
  end.

Definition slot_ok (h : Heap) (e : TypeMemberPair * RefAttributePair) : bool :=
  match fst (snd e) with
  | Some q => match h_attrs h !! q with Some _ => true | None => false end
  | None => true
  end.

Definition stateSet_ok (h : Heap) (ss : StateSet) : bool :=
  forallb (is_plain_attr h) (ss_attributeList ss)
  && forallb (forallb (slot_ok h)) (ss_textureAttributeList ss).

Definition image_ok (h : Heap) (image : option ptr) : bool :=
  match image with
  | Some ip => match h_images h !! ip with Some _ => true | None => false end
  | None => true
  end.

Definition attr_ok (h : Heap) (a : StateAttribute) : bool :=
  match sa_texture a with
  | Some tex => forallb (image_ok h) (tex_images tex)
  | None => true
  end.

Definition wf_heap (h : Heap) : Prop :=
  map_Forall (fun _ ss => stateSet_ok h ss = true) (h_stateSets h)
  /\ map_Forall (fun _ a => attr_ok h a = true) (h_attrs h).

Definition stateSet_ptr_ok (h : Heap) (ssp : option ptr) : bool :=
  match ssp with
  | Some p => match h_stateSets h !! p with Some _ => true | None => false end
  | None => true
  end.

Definition drawable_ok (h : Heap) (d : option Drawable) : bool :=
  match d with
  | Some dr => stateSet_ptr_ok h (dr_stateSet dr)
  | None => true
  end.

Fixpoint node_ok (h : Heap) (n : Node) : bool :=
  match n with
  | Group _ ss children =>
      stateSet_ptr_ok h ss && forallb (node_ok h) children
  | Geode _ ss drawables =>
      stateSet_ptr_ok h ss && forallb (drawable_ok h) drawables
  end.

(** How a store may change while the pointers found before stay good: state
    sets and images stay, attributes stay and keep their kind. *)
Definition heap_grows (h h' : Heap) : Prop :=
  (forall p, is_Some (h_stateSets h !! p) -> is_Some (h_stateSets h' !! p))
  /\ (forall p a, h_attrs h !! p = Some a ->
        exists a', h_attrs h' !! p = Some a'
                   /\ (sa_texture a = None <-> sa_texture a' = None))
  /\ (forall p, is_Some (h_images h !! p) -> is_Some (h_images h' !! p)).

(** ** What PrepareForCaching does to the store *)

(** A texture keeps its user data, its images and its way of cloning; its
    "unref after apply" flag stays or is cleared. Other attributes stay
    other attributes. *)
Definition texture_kept (a a' : StateAttribute) : Prop :=
  match sa_texture a with
  | Some t =>
      sa_udc a' = sa_udc a
      /\ exists t', sa_texture a' = Some t'
                    /\ tex_images t' = tex_images t
                    /\ tex_clonable t' = tex_clonable t
                    /\ (tex_unRefImageDataAfterApply t'
                        = tex_unRefImageDataAfterApply t
                        \/ tex_unRefImageDataAfterApply t' = false)
  | None => sa_texture a' = None
  end.

(** How the store may change under the visitor. *)
Definition sanitized_from (h h' : Heap) : Prop :=
  (forall p, is_Some (h_stateSets h !! p) -> is_Some (h_stateSets h' !! p))
  /\ (forall p a, h_attrs h !! p = Some a ->
        exists a', h_attrs h' !! p = Some a' /\ texture_kept a a')
  /\ (forall p, is_Some (h_images h !! p) -> is_Some (h_images h' !! p)).

(** The store of a visitor state. *)
Definition hp {B : Type} (s : PC.State B) : Heap := w_heap (PC.world s).

(** The texture with its "unref after apply" flag cleared. *)
Definition cleared (tex : Texture) : Texture :=
  PC.setUnRefImageDataAfterApply false tex.

(** What the visit of one entry [e] of a texture unit leaves, with respect
    to the store [h0] of some earlier moment: key and override value stay;
    a NULL entry and an entry of an attribute that is not a texture stay as
    they are; for a texture, the object itself has its flag cleared and its
    user data as before, and the entry holds a new object, the texture with
    the flag cleared and no user data, unless the texture cannot be cloned,
    in which case the entry stays. *)
Definition slot_post (h0 : Heap) (e e' : TypeMemberPair * RefAttributePair)
    (h' : Heap) : Prop :=
  fst e' = fst e /\ snd (snd e') = snd (snd e)
  /\ match fst (snd e) with
     | None => e' = e
     | Some p =>
         forall a, h_attrs h0 !! p = Some a ->
           match sa_texture a with
           | None => e' = e
           | Some tex =>
               h_attrs h' !! p = Some (mkSA (sa_udc a) (Some (cleared tex)))
               /\ if tex_clonable tex
                  then exists q,
                         fst (snd e') = Some q
                         /\ h_attrs h0 !! q = None
                         /\ h_attrs h' !! q
                            = Some (mkSA None (Some (cleared tex)))
                  else e' = e
           end
     end.

(** A step of the visitor, and what holds between its steps. *)
Definition prep_step {B : Type} (s s' : PC.State B) : Prop :=
  sanitized_from (hp s) (hp s').

Definition prep_inv {B : Type} (s0 s : PC.State B) : Prop :=
  wf_heap (hp s) /\ sanitized_from (hp s0) (hp s).

Definition slot_done {B : Type} (s0 : PC.State B)
    (e e' : TypeMemberPair * RefAttributePair) (s' : PC.State B) : Prop :=
  slot_post (hp s0) e e' (hp s') /\ slot_ok (hp s') e' = true.

Definition strip_drawable (d : option Drawable) : option Drawable :=
  match d with
  | Some dr => Some (mkDrawable None (dr_stateSet dr))
  | None => None
  end.

(** The graph without the user data of its nodes and drawables. *)
Fixpoint strip_node (n : Node) : Node :=
  match n with
  | Group _ ss children => Group None ss (map strip_node children)
  | Geode _ ss drawables => Geode None ss (map strip_drawable drawables)
  end.

(** ** What WriteExternalReferencesToCache does to the store *)

(** What the visitor may change: nothing but images, each of which is as
    it was or, if its name lacked the prefix, renamed. *)
Definition externalized_from (hashString : string -> N) {B}
    (w w' : World B) : Prop :=
  h_stateSets (w_heap w') = h_stateSets (w_heap w)
  /\ h_attrs (w_heap w') = h_attrs (w_heap w)
  /\ forall ip img,
       h_images (w_heap w) !! ip = Some img ->
       exists img', h_images (w_heap w') !! ip = Some img'
                    /\ (img' = img
                        \/ (startsWith (img_fileName img) IMAGE_PREFIX = false
                            /\ img' = renamed hashString img)).

(** A computation is settled in a world when running it there, or in any
    world the visitor may later turn that world into, changes nothing and
    logs nothing. *)
Definition settled (hashString : string -> N) {B}
    (c : M (World B) unit) (w : World B) : Prop :=
  forall w', externalized_from hashString w w' -> c w' = Some (tt, w').

(** What it is for a computation to run and settle from any world the
    visitor may have made of [w0]. *)
Definition settles (hashString : string -> N) {B}
    (w0 : World B) (c : M (World B) unit) : Prop :=
  forall w, externalized_from hashString w0 w ->
    exists w', c w = Some (tt, w')
               /\ externalized_from hashString w w'
               /\ settled hashString c w'.

(** ** Sample data *)

(** Sample data for the examples: a one-pixel image and a bin holding it. *)
Definition sample_image : Image :=
  mkImage None "i_abc123.osgearth_cachebin" EXTERNAL_FILE [255%N].

Definition sample_bin : MemBin :=
  <["i_abc123" := (ObjImage sample_image, [])]> ∅.

Definition sample_readOptions : option (Options MemBin) :=
  Some (mkOptions ∅ (Some sample_bin)).

(** Sample data: two images without a name, one with a path. *)
Definition blank_image_1 : Image := mkImage None "" NO_PREFERENCE [1%N].
Definition blank_image_2 : Image := mkImage None "" NO_PREFERENCE [2%N].
Definition tex_png : Image := mkImage None "/data/tex.png" NO_PREFERENCE [7%N].

Definition sample_images : gmap ptr Image :=
  <[1%positive := blank_image_1]>
    (<[2%positive := blank_image_2]> (<[3%positive := tex_png]> ∅)).

Definition sample_world : World MemBin :=
  mkWorld (mkHeap ∅ ∅ sample_images) ∅ [].

Definition sample_world_read_only : World ReadOnlyBin :=
  mkWorld (mkHeap ∅ ∅ sample_images) read_only_bin [].

(** The hash of the spec's scenario: every path hashes to [0xa1b2c3]. *)
Definition scenario_hash (_ : string) : N := 10597059%N.

(** Sample data: a state set whose texture unit holds a texture with user
    data and the "unref after apply" flag set, and one that cannot be
    cloned; both share an image. *)
Definition sample_udc : UserDataContainer := mkUDC (Some 42%N) ["marker"].

Definition shared_texture : StateAttribute :=
  mkSA (Some sample_udc) (Some (mkTexture true [Some 3%positive] true)).

Definition unclonable_texture : StateAttribute :=
  mkSA (Some sample_udc) (Some (mkTexture true [Some 3%positive] false)).

Definition sample_stateSet : StateSet :=
  mkStateSet None []
    [[((0%N, 0%N), (Some 10%positive, 0%N));
      ((0%N, 1%N), (Some 11%positive, 0%N))]].

Definition sample_heap : Heap :=
  mkHeap (<[5%positive := sample_stateSet]> ∅)
         (<[10%positive := shared_texture]>
            (<[11%positive := unclonable_texture]> ∅))
         sample_images.

Definition sample_root : Node := Geode None (Some 5%positive) [].

Definition sample_state : PC.State MemBin :=
  PC.mkState PC.new (mkWorld sample_heap ∅ []).

Definition sample_graph_world : World MemBin := mkWorld sample_heap ∅ [].

Definition sample_graph_world_read_only : World ReadOnlyBin :=
  mkWorld sample_heap read_only_bin [].

(** ** Two claims as the specification words them *)

(** The claim as the specification words it: the visit leaves the flag and
    the user data of the texture an entry points to as they were. *)
Definition originals_untouched : Prop :=
  forall (B : Type) (s s' : PC.State B) (p : ptr) (ss : StateSet)
         (i j : nat) (unit : AttributeList)
         (e : TypeMemberPair * RefAttributePair) (t : ptr)
         (a : StateAttribute) (tex : Texture),
    wf_heap (hp s) ->
    h_stateSets (hp s) !! p = Some ss ->
    ss_textureAttributeList ss !! i = Some unit ->
    unit !! j = Some e ->
    fst (snd e) = Some t ->
    h_attrs (hp s) !! t = Some a ->
    sa_texture a = Some tex ->
    PC.apply_StateSet (Some p) s = Some (tt, s') ->
    exists a' tex',
      h_attrs (hp s') !! t = Some a'
      /\ sa_texture a' = Some tex'
      /\ sa_udc a' = sa_udc a
      /\ tex_unRefImageDataAfterApply tex' = tex_unRefImageDataAfterApply tex.

(** The claim as the specification words it: the result of [writeNode] is
    the result of the final write, the last call of the run. *)
Definition writeNode_reports_final_write : Prop :=
  forall (B : Type) (HB : CacheBin B) (hashString : string -> N)
         (key : string) (node node' : Node) (metadata : Config)
         (writeOptions : option (Options B)) (w w' : World B) (r : bool)
         (k : string) (obj : Object) (m : Config)
         (o : option (Options B)) (ok : bool),
    writeNode hashString key node metadata writeOptions w
    = Some ((r, node'), w') ->
    last (w_trace w') = Some (EvWrite k obj m o ok) ->
    r = ok.

(** ** More sample data *)

(** The sample bin after the write of the renamed [tex_png], and read
    options that carry it. *)
Definition sample_bin_after_write : MemBin :=
  snd (write (∅ : MemBin) "i_a1b2c3"
         (ObjImage (renamed scenario_hash tex_png)) []
         (Some (image_dbo None))).

Definition sample_readOptions_after_write : option (Options MemBin) :=
  Some (mkOptions ∅ (Some sample_bin_after_write)).

(** ** What a run may do, whatever the store *)

(** Every run of [c] that returns relates the state before to the state
    after by [R]. *)
Definition steps {S A : Type} (R : S -> S -> Prop) (c : M S A) : Prop :=
  forall s a s', c s = Some (a, s') -> R s s'.

(** An image with the same name, write hint and data, whose user data is
    as before or gone. *)
Definition image_stripped (i i' : Image) : Prop :=
  img_fileName i' = img_fileName i
  /\ img_writeHint i' = img_writeHint i
  /\ img_data i' = img_data i
  /\ (img_udc i' = img_udc i \/ img_udc i' = None).

(** An attribute of the same kind, with the same images if it is a
    texture, whose user data is as before or gone. *)
Definition attr_stripped (a a' : StateAttribute) : Prop :=
  (sa_udc a' = sa_udc a \/ sa_udc a' = None)
  /\ option_Forall2
       (fun t t' => tex_images t' = tex_images t
                    /\ tex_clonable t' = tex_clonable t)
       (sa_texture a) (sa_texture a').

(** Two entries with the same key and override value. *)
Definition same_slot (e e' : TypeMemberPair * RefAttributePair) : Prop :=
  fst e' = fst e /\ snd (snd e') = snd (snd e).

(** A state set with the same plain attribute list, texture units of the
    same shape, keys and override values, and user data as before or
    gone. *)
Definition stateSet_stripped (ss ss' : StateSet) : Prop :=
  ss_attributeList ss' = ss_attributeList ss
  /\ (ss_udc ss' = ss_udc ss \/ ss_udc ss' = None)
  /\ Forall2 (Forall2 same_slot)
             (ss_textureAttributeList ss) (ss_textureAttributeList ss').

(** The store after PrepareForCaching, against the store before: no state
    set and no image is added or removed, no attribute is removed, and each
    object is as the three relations above say. *)
Definition only_stripped (h h' : Heap) : Prop :=
  (forall p, option_Forall2 stateSet_stripped
               (h_stateSets h !! p) (h_stateSets h' !! p))
  /\ (forall p a, h_attrs h !! p = Some a ->
        exists a', h_attrs h' !! p = Some a' /\ attr_stripped a a')
  /\ (forall p, option_Forall2 image_stripped
                  (h_images h !! p) (h_images h' !! p)).

(** The one line PrepareForCaching logs. *)
Definition clone_warning {B : Type} : Event B :=
  EvWarn "[PrepareForCaching] Texture clone failed.
".

(** The effects of PrepareForCaching on its state: the store is only
    stripped, the cache bin is the same, the trace has gained clone warnings
    and nothing else, and the [_textures] counter has not moved. *)
Definition prep_frame {B : Type} (s s' : PC.State B) : Prop :=
  only_stripped (hp s) (hp s')
  /\ w_bin (PC.world s') = w_bin (PC.world s)
  /\ (exists evs, w_trace (PC.world s') = (w_trace (PC.world s) ++ evs)%list
                  /\ Forall (fun e => e = clone_warning) evs)
  /\ PC._textures (PC.this s') = PC._textures (PC.this s).

(** The visitor's fields after [applyUserData] on an object. *)
Definition counted (u : option UserDataContainer) (v : PC.Visitor)
  : PC.Visitor :=
  if bool_decide (is_Some (getUserData u))
  then PC.mkVisitor (PC._textures v) (PC.uint_incr (PC._userDataClears v))
  else v.

(** A graph with user data on a group, on a geode and on a drawable, over
    the sample store; and a visitor state to run it in. *)
Definition sample_root_with_user_data : Node :=
  Group (Some sample_udc) None
    [Geode (Some sample_udc) (Some 5%positive)
       [Some (mkDrawable (Some sample_udc) (Some 5%positive)); None]].

Definition sample_state_with_user_data : PC.State MemBin :=
  PC.mkState PC.new (mkWorld sample_heap sample_bin []).

(** ** What PrepareForCaching leaves without user data *)

(** The attribute at [q] is there and has no user data. *)
Definition attr_clean (h : Heap) (q : ptr) : Prop :=
  exists a, h_attrs h !! q = Some a /\ sa_udc a = None.

(** The image, unless the slot is NULL, is there and has no user data. *)
Definition image_clean (h : Heap) (image : option ptr) : Prop :=
  forall ip, image = Some ip ->
    exists i, h_images h !! ip = Some i /\ img_udc i = None.

(** An entry of a texture unit, unless it is NULL, holds an attribute
    without user data, all of whose images, if it is a texture, are without
    user data too; or it holds a texture that cannot be cloned. *)
Definition slot_clean (h : Heap) (e : TypeMemberPair * RefAttributePair)
  : Prop :=
  forall q, fst (snd e) = Some q ->
    exists a, h_attrs h !! q = Some a
      /\ match sa_texture a with
         | None => sa_udc a = None
         | Some tex =>
             tex_clonable tex = false
             \/ (sa_udc a = None /\ Forall (image_clean h) (tex_images tex))
         end.

(** The state set at [p] has no user data, nor has anything it holds,
    textures that cannot be cloned apart. *)
Definition stateSet_clean (h : Heap) (p : ptr) : Prop :=
  exists ss, h_stateSets h !! p = Some ss
    /\ ss_udc ss = None
    /\ Forall (fun e => exists q, fst (snd e) = Some q /\ attr_clean h q)
              (ss_attributeList ss)
    /\ Forall (Forall (slot_clean h)) (ss_textureAttributeList ss).

Definition drawable_stateSets (d : option Drawable) : list ptr :=
  match d with
  | Some dr => option_list (dr_stateSet dr)
  | None => []
  end.

(** The state sets of a graph: those of its nodes and of their drawables. *)
Fixpoint node_stateSets (n : Node) : list ptr :=
  match n with
  | Group _ ss children =>
      (option_list ss ++ flat_map node_stateSets children)%list
  | Geode _ ss drawables =>
      (option_list ss ++ flat_map drawable_stateSets drawables)%list
  end.

(** Between two visitor states: the state sets of the store are the same. *)
Definition stateSets_kept {B : Type} (s s' : PC.State B) : Prop :=
  h_stateSets (hp s') = h_stateSets (hp s).

(** Between two visitor states: a state set that was clean is clean. *)
Definition keeps_clean {B : Type} (s s' : PC.State B) : Prop :=
  forall p, stateSet_clean (hp s) p -> stateSet_clean (hp s') p.

(** The sample store with user data on the image that the two textures
    share. *)
Definition tagged_image : Image :=
  mkImage (Some sample_udc) "/data/tex.png" NO_PREFERENCE [7%N].

Definition sample_heap_tagged : Heap :=
  mkHeap (h_stateSets sample_heap) (h_attrs sample_heap)
         (<[3%positive := tagged_image]> ∅).

Definition sample_state_tagged : PC.State MemBin :=
  PC.mkState PC.new (mkWorld sample_heap_tagged sample_bin []).

(** Between two visitor states: the state sets other than the one at [p]
    are the same. *)
Definition others_kept {B : Type} (p : ptr) (s s' : PC.State B) : Prop :=
  forall p', p' <> p -> h_stateSets (hp s') !! p' = h_stateSets (hp s) !! p'.

(** ** The effects of a run of WriteExternalReferencesToCache *)

Section ExternalizerEffects.
Context {B : Type} `{CacheBin B}.
Variable hashString : string -> N.
Variable writeOptions : option (Options B).

(** The events of the visits of the images [imgs], one after the other,
    from the bin [b], and the bin they leave. *)
Fixpoint visits (imgs : list Image) (b : B) : list (Event B) * B :=
  match imgs with
  | [] => ([], b)
  | img :: rest =>
      let r := locked_region hashString writeOptions img b in
      let r' := visits rest (snd r) in
      ((blank_warning (img_fileName img) ++ fst r ++ fst r')%list, snd r')
  end.

(** Between two worlds: the store has changed as the visitor changes it,
    and bin and trace are those of the visits of some images whose names
    lacked the prefix. *)
Definition ext_frame (w w' : World B) : Prop :=
  externalized_from hashString w w'
  /\ exists imgs,
       Forall (fun img => startsWith (img_fileName img) IMAGE_PREFIX = false)
              imgs
       /\ w_bin w' = snd (visits imgs (w_bin w))
       /\ w_trace w' = (w_trace w ++ fst (visits imgs (w_bin w)))%list.

(** What an event of a run may be: a log line, the taking or the releasing
    of the mutex, a status query, or the write, without metadata and with
    the options of the image write, of an image that lacked the prefix,
    renamed, under its cache key. Never a read, never the write of a
    graph. *)
Definition visit_event (e : Event B) : Prop :=
  match e with
  | EvReadObject _ | EvReadImage _ | EvDebug _ => False
  | EvWrite key obj meta dbo _ =>
      exists img,
        startsWith (img_fileName img) IMAGE_PREFIX = false
        /\ key = WR.cacheKeyOf hashString (img_fileName img)
        /\ obj = ObjImage (renamed hashString img)
        /\ meta = [] /\ dbo = Some (image_dbo writeOptions)
  | _ => True
  end.

End ExternalizerEffects.

(** The mutex along a trace, from whether it is held at the start to
    whether it is held at the end; nothing when the trace takes the mutex
    while it is held, releases it while it is free, or calls the bin while
    it is free. *)
Fixpoint mutex_after {B} (locked : bool) (evs : list (Event B))
  : option bool :=
  match evs with
  | [] => Some locked
  | e :: rest =>
      match e with
      | EvLock => if locked then None else mutex_after true rest
      | EvUnlock => if locked then mutex_after false rest else None
      | _ =>
          if is_bin_call e && negb locked then None
          else mutex_after locked rest
      end
  end.

(** The keys of the writes of a trace that the bin accepted. *)
Definition written_keys {B} (evs : list (Event B)) : list string :=
  omap (fun e => match e with
                 | EvWrite key _ _ _ true => Some key
                 | _ => None
                 end) evs.

(** The image, unless the slot is NULL, is there under a name with the
    prefix. *)
Definition image_external (h : Heap) (image : option ptr) : Prop :=
  forall ip, image = Some ip ->
    exists img, h_images h !! ip = Some img
                /\ startsWith (img_fileName img) IMAGE_PREFIX = true.

(** The attribute, unless the slot is NULL, is there, and if it is a
    texture all its images are under names with the prefix. *)
Definition texture_external (h : Heap) (sa : option ptr) : Prop :=
  forall q, sa = Some q ->
    exists a, h_attrs h !! q = Some a
      /\ forall tex, sa_texture a = Some tex ->
           Forall (image_external h) (tex_images tex).

(** The state set at [p] is there, and the images of the textures of its
    texture units are all under names with the prefix. *)
Definition stateSet_external (h : Heap) (p : ptr) : Prop :=
  exists ss, h_stateSets h !! p = Some ss
    /\ Forall (Forall (fun e : TypeMemberPair * RefAttributePair =>
                         texture_external h (fst (snd e))))
              (ss_textureAttributeList ss).

(** A store in which two image objects carry the same path: the texture at
    10 holds both. *)
Definition sample_heap_twins : Heap :=
  mkHeap (h_stateSets sample_heap)
         (<[10%positive :=
              mkSA None (Some (mkTexture true [Some 3%positive; Some 4%positive]
                                         true))]>
            (<[11%positive := unclonable_texture]> ∅))
         (<[3%positive := tex_png]> (<[4%positive := tex_png]> ∅)).

Definition sample_world_twins : World MemBin := mkWorld sample_heap_twins ∅ [].

Definition sample_world_tagged : World MemBin :=
  mkWorld sample_heap_tagged sample_bin [].

(** A state set whose plain attribute list holds a NULL entry, alone in a
    store. *)
Definition null_attribute_stateSet : StateSet :=
  mkStateSet None [((0%N, 0%N), (None, 0%N))] [].

Definition null_attribute_state : PC.State MemBin :=
  PC.mkState PC.new
    (mkWorld (mkHeap (<[5%positive := null_attribute_stateSet]> ∅) ∅ ∅) ∅ []).

Section ExternalizerVisited.
Context {B : Type} `{CacheBin B}.
Variable hashString : string -> N.
Variable writeOptions : option (Options B).

(** Between two worlds: bin and trace are those of the visits of some
    images, which lacked the prefix and were in the store; no image is
    added or removed; and an image of the store is as it was, or it is one
    of the images visited and is renamed. *)
Definition visited_frame (w w' : World B) : Prop :=
  exists imgs,
    w_bin w' = snd (visits hashString writeOptions imgs (w_bin w))
    /\ w_trace w'
       = (w_trace w ++ fst (visits hashString writeOptions imgs (w_bin w)))%list
    /\ (forall ip,
          option_Forall2
            (fun img img' =>
               img' = img
               \/ (img' = renamed hashString img
                   /\ In img imgs
                   /\ startsWith (img_fileName img) IMAGE_PREFIX = false))
            (h_images (w_heap w) !! ip) (h_images (w_heap w') !! ip))
    /\ forall x, In x imgs ->
         startsWith (img_fileName x) IMAGE_PREFIX = false
         /\ exists q, h_images (w_heap w) !! q = Some x.

End ExternalizerVisited.

(** The keys of the writes of a trace that the bin refused. *)
Definition refused_keys {B} (evs : list (Event B)) : list string :=
  omap (fun e => match e with
                 | EvWrite key _ _ _ false => Some key
                 | _ => None
                 end) evs.

(** An image with the user data and the pixel data of another, which it
    equals unless that one lacked the prefix, in which case it is named by
    the cache key and the extension and marked as an external file. *)
Definition image_renamed_or_same (hashString : string -> N) (i i' : Image)
  : Prop :=
  img_udc i' = img_udc i
  /\ img_data i' = img_data i
  /\ (i' = i
      \/ (startsWith (img_fileName i) IMAGE_PREFIX = false
          /\ img_fileName i'
             = (WR.cacheKeyOf hashString (img_fileName i)
                ++ ".osgearth_cachebin")%string
          /\ img_writeHint i' = EXTERNAL_FILE)).

(** Between two worlds: state sets and attributes are the same, no image is
    added or removed, and each image is as the relation above says. *)
Definition only_renamed (hashString : string -> N) {B : Type}
    (w w' : World B) : Prop :=
  h_stateSets (w_heap w') = h_stateSets (w_heap w)
  /\ h_attrs (w_heap w') = h_attrs (w_heap w)
  /\ forall ip, option_Forall2 (image_renamed_or_same hashString)
                  (h_images (w_heap w) !! ip) (h_images (w_heap w') !! ip).

(** ** Stores whose plain attribute lists hold textures

    The first loop of [apply(osg::StateSet* ss)] detaches the user data of
    whatever the plain attribute list holds, a texture as well as any other
    attribute. [wf_heap] leaves such stores out; the predicates below take
    them in. *)

(** An entry of a plain attribute list that the first loop can use: a
    pointer, not NULL, to an attribute of the store, of any kind. *)
Definition plain_slot_ok (h : Heap) (e : TypeMemberPair * RefAttributePair)
  : bool :=
  match fst (snd e) with
  | Some q => match h_attrs h !! q with Some _ => true | None => false end
  | None => false
  end.

(** A state set whose visit dereferences no NULL and no dangling pointer. *)
Definition stateSet_reads_ok (h : Heap) (ss : StateSet) : bool :=
  forallb (plain_slot_ok h) (ss_attributeList ss)
  && forallb (forallb (slot_ok h)) (ss_textureAttributeList ss).

(** The images of every texture of the store are NULL or in the store. *)
Definition attrs_ok (h : Heap) : Prop :=
  map_Forall (fun _ a => attr_ok h a = true) (h_attrs h).

(** The state set holds the attribute at [t] in its plain attribute list. *)
Definition in_plain_list (ss : StateSet) (t : ptr) : Prop :=
  exists e, In e (ss_attributeList ss) /\ fst (snd e) = Some t.

(** A texture with the images and the way of cloning of another, whose flag
    is that of the other or cleared. *)
Definition texture_flagged (t t' : Texture) : Prop :=
  tex_images t' = tex_images t
  /\ tex_clonable t' = tex_clonable t
  /\ (tex_unRefImageDataAfterApply t' = tex_unRefImageDataAfterApply t
      \/ tex_unRefImageDataAfterApply t' = false).

(** What may become of the attribute at [p], where [X] says which pointers
    the first loop is given: its kind stays, a texture stays as
    [texture_flagged] says, its user data stays or goes, and the user data
    of a texture that the first loop is not given stays. *)
Definition attr_kept_outside (X : ptr -> Prop) (p : ptr)
    (a a' : StateAttribute) : Prop :=
  (sa_udc a' = sa_udc a \/ sa_udc a' = None)
  /\ option_Forall2 texture_flagged (sa_texture a) (sa_texture a')
  /\ (is_Some (sa_texture a) -> ~ X p -> sa_udc a' = sa_udc a).

Definition kept_outside (X : ptr -> Prop) (h h' : Heap) : Prop :=
  forall p a, h_attrs h !! p = Some a ->
    exists a', h_attrs h' !! p = Some a' /\ attr_kept_outside X p a a'.

(** Between two visitor states: the attributes of the store are the
    same. *)
Definition attrs_kept {B : Type} (s s' : PC.State B) : Prop :=
  h_attrs (hp s') = h_attrs (hp s).

(** What the visit of one entry [e] of a texture unit leaves, with respect
    to the store [h0] of the start of the visit of the state set: as
    [slot_post], but of the texture itself only the flag is said, cleared,
    and the images; its user data is the business of the first loop. *)
Definition slot_post_any (h0 : Heap) (e e' : TypeMemberPair * RefAttributePair)
    (h' : Heap) : Prop :=
  fst e' = fst e /\ snd (snd e') = snd (snd e)
  /\ match fst (snd e) with
     | None => e' = e
     | Some p =>
         forall a, h_attrs h0 !! p = Some a ->
           match sa_texture a with
           | None => e' = e
           | Some tex =>
               (exists a', h_attrs h' !! p = Some a'
                           /\ sa_texture a' = Some (cleared tex))
               /\ if tex_clonable tex
                  then exists q,
                         fst (snd e') = Some q
                         /\ h_attrs h0 !! q = None
                         /\ h_attrs h' !! q
                            = Some (mkSA None (Some (cleared tex)))
                  else e' = e
           end
     end.

(** A texture unit can be visited in a state: its entries are NULL or
    lead to attributes, and the images of those that are textures are NULL
    or in the store. *)
Definition slot_runs_ok {B : Type} (e : TypeMemberPair * RefAttributePair)
    (s : PC.State B) : Prop :=
  slot_ok (hp s) e = true
  /\ forall p a, fst (snd e) = Some p -> h_attrs (hp s) !! p = Some a ->
       attr_ok (hp s) a = true.

(** The sample store with the clonable texture held in the plain attribute
    list of the state set as well as in its texture unit, and with user
    data on the image. *)
Definition sample_stateSet_both : StateSet :=
  mkStateSet None [((7%N, 0%N), (Some 10%positive, 0%N))]
    [[((0%N, 0%N), (Some 10%positive, 0%N))]].

Definition sample_state_both : PC.State MemBin :=
  PC.mkState PC.new
    (mkWorld (mkHeap (<[5%positive := sample_stateSet_both]> ∅)
                     (<[10%positive := shared_texture]> ∅)
                     (<[3%positive := tagged_image]> ∅)) ∅ []).

(** * Properties *)

(** ** Strings *)

Lemma append_nil (s : string) : "" ++ s = s.
Proof. reflexivity. Qed.

Lemma append_cons (c : ascii) (a b : string) :
  String c a ++ b = String c (a ++ b).
Proof. reflexivity. Qed.

Lemma startsWith_app (p s : string) : startsWith (p ++ s) p = true.
Proof.
  induction p as [|c p IH]; [reflexivity|].
  rewrite append_cons. simpl. rewrite Ascii.eqb_refl. exact IH.
Qed.

Lemma string_app_assoc (a b c : string) : (a ++ b) ++ c = a ++ (b ++ c).
Proof.
  induction a as [|x a IH]; [reflexivity|].
  rewrite !append_cons. now rewrite IH.
Qed.

Lemma NilEmpty_lower_hex (d : Hexadecimal.uint) :
  Str.forallb Str.is_lower_hex_digit
    (HexadecimalString.NilEmpty.string_of_uint d) = true.
Proof. induction d; simpl; auto. Qed.

Lemma hex_lowercase (n : N) :
  Str.forallb Str.is_lower_hex_digit (hex n) = true.
Proof.
  unfold hex, HexadecimalString.NilZero.string_of_uint.
  destruct (N.to_hex_uint n); try apply NilEmpty_lower_hex; reflexivity.
Qed.

Lemma to_hex_uint_not_Nil (n : N) : N.to_hex_uint n <> Hexadecimal.Nil.
Proof.
  destruct n as [|p]; [discriminate|].
  apply HexadecimalPos.Unsigned.to_uint_nonnil.
Qed.

(** The rendering reads back as the number it was made from. *)
Lemma hex_read_back (n : N) :
  option_map N.of_hex_uint (HexadecimalString.NilZero.uint_of_string (hex n))
  = Some n.
Proof.
  unfold hex. rewrite HexadecimalString.NilZero.usu by apply to_hex_uint_not_Nil.
  simpl. now rewrite HexadecimalN.Unsigned.of_to.
Qed.

Lemma hex_inj (n m : N) : hex n = hex m -> n = m.
Proof.
  intros E. pose proof (hex_read_back n) as Hn. rewrite E, hex_read_back in Hn.
  congruence.
Qed.

(** ** File names and extensions *)

Lemma find_last_of_split (P : ascii -> bool) (s : string) (i : nat) :
  Str.find_last_of P s = Some i ->
  exists c, s = Str.take i s ++ String c (Str.drop (S i) s)
            /\ P c = true
            /\ Str.find_last_of P (Str.drop (S i) s) = None.
Proof.
  revert i. induction s as [|x s IH]; intros i Hf; [discriminate|].
  simpl in Hf. destruct (Str.find_last_of P s) as [k|] eqn:Ek.
  - injection Hf as <-. destruct (IH k eq_refl) as (c & Hs & Hc & Hn).
    exists c. split; [|split]; try assumption.
    change (Str.take (S k) (String x s)) with (String x (Str.take k s)).
    rewrite append_cons. f_equal. exact Hs.
  - destruct (P x) eqn:Ex; [|discriminate]. injection Hf as <-.
    exists x. simpl. split; [reflexivity|]. split; [assumption|].
    destruct s; assumption.
Qed.

Lemma find_last_of_lt (P : ascii -> bool) (s : string) (i : nat) :
  Str.find_last_of P s = Some i -> i < String.length s.
Proof.
  revert i. induction s as [|x s IH]; intros i Hf; [discriminate|].
  simpl in *. destruct (Str.find_last_of P s) as [k|].
  - injection Hf as <-. specialize (IH k eq_refl). lia.
  - destruct (P x); [|discriminate]. injection Hf as <-. lia.
Qed.

Lemma find_last_of_app_hit (P : ascii -> bool) (a : string) (c : ascii)
    (b : string) :
  P c = true -> Str.find_last_of P b = None ->
  Str.find_last_of P (a ++ String c b) = Some (String.length a).
Proof.
  intros Hc Hb. induction a as [|x a IH].
  - rewrite append_nil. simpl. now rewrite Hb, Hc.
  - rewrite append_cons. simpl. now rewrite IH.
Qed.

Lemma find_last_of_app_miss (P : ascii -> bool) (a b : string) :
  Str.find_last_of P b = None ->
  Str.find_last_of P (a ++ b) = Str.find_last_of P a.
Proof.
  intros Hb. induction a as [|x a IH].
  - now rewrite append_nil.
  - rewrite append_cons. simpl. now rewrite IH.
Qed.

Lemma string_take_app_length (a b : string) : Str.take (String.length a) (a ++ b) = a.
Proof.
  induction a as [|x a IH].
  - rewrite append_nil. now destruct b.
  - rewrite append_cons. simpl. now rewrite IH.
Qed.

Lemma string_drop_app_length (a : string) (c : ascii) (b : string) :
  Str.drop (S (String.length a)) (a ++ String c b) = b.
Proof.
  induction a as [|x a IH].
  - rewrite append_nil. now destruct b.
  - rewrite append_cons. exact IH.
Qed.

Lemma is_dot_true (c : ascii) : Str.is_dot c = true -> c = "."%char.
Proof. unfold Str.is_dot. apply Ascii.eqb_eq. Qed.

(** A name made of a stem, a dot and an extension free of dots and path
    separators has that extension, and loses exactly it. *)
Lemma extension_of_app (name ext : string) :
  Str.find_last_of Str.is_dot ext = None ->
  Str.find_last_of Str.is_path_separator ext = None ->
  getFileExtension (name ++ String "." ext) = ext
  /\ getNameLessExtension (name ++ String "." ext) = name.
Proof.
  intros Hd Hs. unfold getFileExtension, getNameLessExtension.
  rewrite (find_last_of_app_hit Str.is_dot name "." ext eq_refl Hd).
  rewrite (find_last_of_app_miss Str.is_path_separator name (String "." ext))
    by (simpl; now rewrite Hs).
  rewrite string_take_app_length, string_drop_app_length.
  destruct (Str.find_last_of Str.is_path_separator name) as [slash|] eqn:E;
    [|easy].
  apply find_last_of_lt in E.
  destruct (Nat.ltb_spec (String.length name) slash); [lia | easy].
Qed.

(** A name with a non-empty extension is its stem, a dot, and the extension;
    the extension holds no further dot. *)
Lemma extension_split (url : string) :
  getFileExtension url <> "" ->
  url = getNameLessExtension url ++ String "." (getFileExtension url)
  /\ Str.find_last_of Str.is_dot (getFileExtension url) = None.
Proof.
  unfold getFileExtension, getNameLessExtension. intros Hne.
  destruct (Str.find_last_of Str.is_dot url) as [dot|] eqn:Ed; [|easy].
  destruct (find_last_of_split _ _ _ Ed) as (c & Hs & Hc & Hn).
  apply is_dot_true in Hc. subst c.
  destruct (Str.find_last_of Str.is_path_separator url) as [slash|];
    [destruct (Nat.ltb dot slash); [easy|] |]; split; assumption.
Qed.

Lemma lower_extension_nonempty (url : string) :
  getLowerCaseFileExtension url = CACHEBIN_EXTENSION ->
  getFileExtension url <> "".
Proof.
  unfold getLowerCaseFileExtension, convertToLowerCase. intros E Hn.
  rewrite Hn in E. discriminate.
Qed.

(** ** The pseudoloader *)

Lemma not_handled_extension_dec (url : string) :
  negb (bool_decide (getLowerCaseFileExtension url = "osgearth_cachebin"))
  = false <-> getLowerCaseFileExtension url = CACHEBIN_EXTENSION.
Proof.
  unfold CACHEBIN_EXTENSION. rewrite negb_false_iff, bool_decide_eq_true.
  reflexivity.
Qed.

(** With the extension recognised, the status of either entry point is
    FILE_NOT_FOUND or FILE_LOADED. *)
Lemma pseudoloader_status_cases {B : Type} `{CacheBin B}
    (url : string) (readOptions : option (Options B)) :
  getLowerCaseFileExtension url = CACHEBIN_EXTENSION ->
  (PL.status (fst (PL.readObject url readOptions)) = PL.FILE_NOT_FOUND
   \/ PL.status (fst (PL.readObject url readOptions)) = PL.FILE_LOADED)
  /\ (PL.status (fst (PL.readImage url readOptions)) = PL.FILE_NOT_FOUND
      \/ PL.status (fst (PL.readImage url readOptions)) = PL.FILE_LOADED).
Proof.
  intros Hext. apply not_handled_extension_dec in Hext.
  unfold PL.readObject, PL.readImage. rewrite Hext.
  destruct (CacheBin_get readOptions) as [bin|]; simpl; [|auto].
  destruct (succeeded (readObject bin _ readOptions));
    destruct (succeeded (readImage bin _ readOptions)); simpl; auto.
Qed.

(** C7. For a target with the [osgearth_cachebin] extension each entry point
    of the pseudoloader answers FILE_NOT_FOUND or FILE_LOADED and nothing
    else: FILE_NOT_FOUND when the options hold no cache bin and when the bin's
    read does not succeed, and FILE_LOADED, carrying what the bin read,
    exactly when a bin is present and its read succeeds. *)
Theorem pseudoloader_found_or_not_found {B : Type} `{CacheBin B}
    (url : string) (readOptions : option (Options B)) :
  getLowerCaseFileExtension url = CACHEBIN_EXTENSION ->
  let key := getNameLessExtension url in
  let ro := fst (PL.readObject url readOptions) in
  let ri := fst (PL.readImage url readOptions) in
  (CacheBin_get readOptions = None ->
     ro = PL.of_status PL.FILE_NOT_FOUND /\ ri = PL.of_status PL.FILE_NOT_FOUND)
  /\ (forall bin, CacheBin_get readOptions = Some bin ->
        (succeeded (readObject bin key readOptions) = false ->
           ro = PL.of_status PL.FILE_NOT_FOUND)
        /\ (succeeded (readObject bin key readOptions) = true ->
           ro = PL.mkResult PL.FILE_LOADED
                  (getObject (readObject bin key readOptions)))
        /\ (succeeded (readImage bin key readOptions) = false ->
           ri = PL.of_status PL.FILE_NOT_FOUND)
        /\ (succeeded (readImage bin key readOptions) = true ->
           ri = PL.mkResult PL.FILE_LOADED
                  (getImage (readImage bin key readOptions))))
  /\ (PL.status ro = PL.FILE_NOT_FOUND \/ PL.status ro = PL.FILE_LOADED)
  /\ (PL.status ri = PL.FILE_NOT_FOUND \/ PL.status ri = PL.FILE_LOADED)
  /\ (PL.status ro = PL.FILE_LOADED <->
      exists bin, CacheBin_get readOptions = Some bin
                  /\ succeeded (readObject bin key readOptions) = true)
  /\ (PL.status ri = PL.FILE_LOADED <->
      exists bin, CacheBin_get readOptions = Some bin
                  /\ succeeded (readImage bin key readOptions) = true).
Proof.
  intros Hext key ro ri. subst key ro ri.
  apply not_handled_extension_dec in Hext.
  unfold PL.readObject, PL.readImage. rewrite Hext.
  destruct (CacheBin_get readOptions) as [bin|]; simpl.
  - split; [discriminate|].
    split.
    { intros b [= <-]. repeat split; intros ->; reflexivity. }
    destruct (succeeded (readObject bin _ readOptions)) eqn:Eo;
    destruct (succeeded (readImage bin _ readOptions)) eqn:Ei; simpl;
      (split; [auto|]); (split; [auto|]);
      split; split; try discriminate; eauto;
      intros (b & [= <-] & Hs); congruence.
  - split; [auto|]. split; [discriminate|].
    split; [auto|]. split; [auto|].
    split; split; try discriminate; intros (b & Hb & _); discriminate.
Qed.

Lemma pseudoloader_found_or_not_found_witness :
  getLowerCaseFileExtension "i_abc123.osgearth_cachebin" = CACHEBIN_EXTENSION
  /\ fst (PL.readImage "i_abc123.osgearth_cachebin" sample_readOptions)
     = PL.mkResult PL.FILE_LOADED (Some (ObjImage sample_image))
  /\ fst (PL.readImage "i_missing.osgearth_cachebin" sample_readOptions)
     = PL.of_status PL.FILE_NOT_FOUND
  /\ fst (PL.readObject (B := MemBin) "i_abc123.osgearth_cachebin" None)
     = PL.of_status PL.FILE_NOT_FOUND.
Proof.
  pose proof (pseudoloader_found_or_not_found
                "i_abc123.osgearth_cachebin" sample_readOptions eq_refl)
    as (_ & Hhit & _).
  pose proof (pseudoloader_found_or_not_found
                "i_missing.osgearth_cachebin" sample_readOptions eq_refl)
    as (_ & Hmiss & _).
  pose proof (pseudoloader_found_or_not_found (B := MemBin)
                "i_abc123.osgearth_cachebin" None eq_refl)
    as (Hnone & _).
  split; [reflexivity|].
  split; [apply (Hhit sample_bin eq_refl); reflexivity|].
  split; [apply (Hmiss sample_bin eq_refl); reflexivity|].
  apply Hnone. reflexivity.
Defined.

(** C8. With the [osgearth_cachebin] extension on the URL and a cache bin in
    the options, the key handed to the bin is the URL without its last
    extension (the URL is the key, a dot, and a dot-free extension that
    lowercases to the marker); the image entry point calls the bin's
    [readImage] with that key and no other bin method, the object entry point
    calls [readObject] with it and no other bin method. *)
Theorem pseudoloader_dispatch {B : Type} `{CacheBin B}
    (url : string) (readOptions : option (Options B)) (bin : B) :
  getLowerCaseFileExtension url = CACHEBIN_EXTENSION ->
  CacheBin_get readOptions = Some bin ->
  let key := getNameLessExtension url in
  (exists ext, url = key ++ String "." ext
               /\ Str.find_last_of Str.is_dot ext = None
               /\ convertToLowerCase ext = CACHEBIN_EXTENSION)
  /\ filter (fun e => is_bin_call e = true) (snd (PL.readImage url readOptions))
     = [EvReadImage key]
  /\ filter (fun e => is_bin_call e = true) (snd (PL.readObject url readOptions))
     = [EvReadObject key]
  /\ fst (PL.readImage url readOptions)
     = (if succeeded (readImage bin key readOptions)
        then PL.of_object (getImage (readImage bin key readOptions))
        else PL.of_status PL.FILE_NOT_FOUND)
  /\ fst (PL.readObject url readOptions)
     = (if succeeded (readObject bin key readOptions)
        then PL.of_object (getObject (readObject bin key readOptions))
        else PL.of_status PL.FILE_NOT_FOUND).
Proof.
  intros Hext Hbin key. subst key. split.
  - exists (getFileExtension url).
    destruct (extension_split url (lower_extension_nonempty url Hext))
      as [Hurl Hdot].
    split; [exact Hurl|]. split; [exact Hdot|]. exact Hext.
  - apply not_handled_extension_dec in Hext.
    unfold PL.readObject, PL.readImage. rewrite Hext, Hbin. simpl.
    repeat split; reflexivity.
Qed.

Lemma pseudoloader_dispatch_witness :
  getLowerCaseFileExtension "dir.v1/i_abc123.OsgEarth_CacheBin"
    = CACHEBIN_EXTENSION
  /\ CacheBin_get sample_readOptions = Some sample_bin
  /\ filter (fun e => is_bin_call e = true)
       (snd (PL.readImage "dir.v1/i_abc123.OsgEarth_CacheBin"
                          sample_readOptions))
     = [EvReadImage "dir.v1/i_abc123"].
Proof.
  split; [reflexivity|]. split; [reflexivity|].
  apply (pseudoloader_dispatch "dir.v1/i_abc123.OsgEarth_CacheBin"
           sample_readOptions sample_bin eq_refl eq_refl).
Defined.

(** C10. The extension test ignores case: a URL made of a stem, a dot and an
    extension that lowercases to [osgearth_cachebin] is never answered with
    FILE_NOT_HANDLED, ["KEY.OSGEARTH_CACHEBIN"] being one; and for a URL
    whose lowercased extension is anything else both entry points answer
    FILE_NOT_HANDLED without touching a cache bin. *)
Theorem pseudoloader_extension_test {B : Type} `{CacheBin B}
    (url : string) (readOptions : option (Options B)) :
  (getLowerCaseFileExtension url <> CACHEBIN_EXTENSION ->
     PL.readObject url readOptions = (PL.of_status PL.FILE_NOT_HANDLED, [])
     /\ PL.readImage url readOptions = (PL.of_status PL.FILE_NOT_HANDLED, []))
  /\ (forall name ext,
        url = name ++ String "." ext ->
        Str.find_last_of Str.is_dot ext = None ->
        Str.find_last_of Str.is_path_separator ext = None ->
        convertToLowerCase ext = CACHEBIN_EXTENSION ->
        getLowerCaseFileExtension url = CACHEBIN_EXTENSION
        /\ PL.status (fst (PL.readObject url readOptions)) <> PL.FILE_NOT_HANDLED
        /\ PL.status (fst (PL.readImage url readOptions)) <> PL.FILE_NOT_HANDLED)
  /\ getLowerCaseFileExtension "KEY.OSGEARTH_CACHEBIN" = CACHEBIN_EXTENSION.
Proof.
  split; [|split; [|reflexivity]].
  - intros Hne. unfold PL.readObject, PL.readImage.
    destruct (negb (bool_decide _)) eqn:E; [split; reflexivity|].
    apply not_handled_extension_dec in E. contradiction.
  - intros name ext -> Hd Hs Hl.
    assert (Hext : getLowerCaseFileExtension (name ++ String "." ext)
                   = CACHEBIN_EXTENSION).
    { unfold getLowerCaseFileExtension.
      destruct (extension_of_app name ext Hd Hs) as [-> _]. exact Hl. }
    split; [exact Hext|].
    destruct (pseudoloader_status_cases _ readOptions Hext)
      as [Ho Hi].
    split; [destruct Ho as [-> | ->] | destruct Hi as [-> | ->]]; discriminate.
Qed.

Lemma pseudoloader_extension_test_witness :
  getLowerCaseFileExtension "data/tex.png" <> CACHEBIN_EXTENSION
  /\ PL.readImage "data/tex.png" sample_readOptions
     = (PL.of_status PL.FILE_NOT_HANDLED, [])
  /\ PL.status (fst (PL.readImage "KEY.OSGEARTH_CACHEBIN" sample_readOptions))
     <> PL.FILE_NOT_HANDLED.
Proof.
  assert (Hne : getLowerCaseFileExtension "data/tex.png" <> CACHEBIN_EXTENSION)
    by discriminate.
  split; [exact Hne|]. split.
  - apply (pseudoloader_extension_test "data/tex.png" sample_readOptions).
    exact Hne.
  - pose proof (pseudoloader_extension_test "KEY.OSGEARTH_CACHEBIN"
                  sample_readOptions) as (_ & Hmatch & _).
    apply (Hmatch "KEY" "OSGEARTH_CACHEBIN" eq_refl eq_refl eq_refl eq_refl).
Defined.

(** ** WriteExternalReferencesToCache on one image *)

Section ApplyImage.
Context {B : Type} `{CacheBin B}.
Variable hashString : string -> N.
Variable writeOptions : option (Options B).

Lemma prefixed_not_blank (path : string) :
  startsWith path IMAGE_PREFIX = true -> path <> "".
Proof. intros Hp ->. discriminate. Qed.

(** An image whose name carries the prefix is left alone: no event, no
    change. *)
Lemma apply_Image_prefixed (ip : ptr) (img : Image) (w : World B) :
  h_images (w_heap w) !! ip = Some img ->
  startsWith (img_fileName img) IMAGE_PREFIX = true ->
  WR.apply_Image hashString writeOptions ip w = Some (tt, w).
Proof.
  intros Hi Hp.
  unfold WR.apply_Image, WR.getFileName, WR.heap, bind, lift_option, ret.
  rewrite Hi, Hp.
  rewrite (bool_decide_eq_false_2 _ (prefixed_not_blank _ Hp)).
  reflexivity.
Qed.

(** An image whose name lacks the prefix is renamed, and written unless the
    bin reports its key as STATUS_OK. *)
Lemma apply_Image_unprefixed (ip : ptr) (img : Image) (w : World B) :
  h_images (w_heap w) !! ip = Some img ->
  startsWith (img_fileName img) IMAGE_PREFIX = false ->
  WR.apply_Image hashString writeOptions ip w
  = Some (tt, externalized hashString writeOptions ip img w).
Proof.
  intros Hi Hp. destruct w as [h b t]. simpl in Hi.
  unfold WR.apply_Image, WR.getFileName, WR.setFileName, WR.setWriteHint,
    WR.bin_getRecordStatus, WR.bin_write, WR.log, WR.update_heap, WR.heap,
    when, bind, lift_option, ret, modify, externalized, locked_region,
    blank_warning.
  cbn [w_heap w_bin w_trace]. rewrite Hi, Hp.
  unfold renamed, image_dbo.
  destruct (bool_decide (img_fileName img = "")); simpl;
    rewrite Hi; simpl; rewrite !lookup_insert_eq; simpl;
    destruct (getRecordStatus b _) eqn:Ers; simpl;
    unfold emit, set_heap, set_image; simpl;
    rewrite ?lookup_insert_eq; simpl;
    try (destruct (write b _ _ _ _) as [ok b'] eqn:Ew; simpl;
         destruct ok; simpl);
    rewrite ?insert_insert_eq, <- ?app_assoc; simpl; reflexivity.
Qed.

End ApplyImage.

Lemma events_since_app {B} (w : World B) (h : Heap) (b : B)
    (evs : list (Event B)) :
  events_since w (mkWorld h b (w_trace w ++ evs)) = evs.
Proof. unfold events_since. simpl. now rewrite drop_app_length. Qed.

Section ApplyImageFacts.
Context {B : Type} `{CacheBin B}.
Variable hashString : string -> N.
Variable writeOptions : option (Options B).

Lemma events_since_externalized (ip : ptr) (img : Image) (w : World B) :
  events_since w (externalized hashString writeOptions ip img w)
  = (blank_warning (img_fileName img)
     ++ fst (locked_region hashString writeOptions img (w_bin w)))%list.
Proof. unfold externalized. apply events_since_app. Qed.

Lemma filter_blank_warning (P : Event B -> bool) (path : string) :
  P (EvWarn "[WriteImagesToCache] ERROR image with blank filename.
") = false ->
  filter (fun e => P e = true) (blank_warning path) = [].
Proof.
  intros HP. unfold blank_warning. destruct (bool_decide _); [|reflexivity].
  cbn. rewrite decide_False; [reflexivity|]. rewrite HP. discriminate.
Qed.

(** The writes of the visit of an unprefixed image: none when its key is
    STATUS_OK in the bin, the one write of the renamed image otherwise. *)
Lemma writes_since_externalized (ip : ptr) (img : Image) (w : World B) :
  let key := WR.cacheKeyOf hashString (img_fileName img) in
  writes_since w (externalized hashString writeOptions ip img w)
  = match getRecordStatus (w_bin w) key with
    | STATUS_OK => []
    | _ => [EvWrite key (ObjImage (renamed hashString img)) []
              (Some (image_dbo writeOptions))
              (fst (write (w_bin w) key (ObjImage (renamed hashString img)) []
                          (Some (image_dbo writeOptions))))]
    end.
Proof.
  intros key. unfold writes_since. rewrite events_since_externalized.
  rewrite filter_app, filter_blank_warning by reflexivity.
  unfold locked_region. fold key.
  destruct (getRecordStatus (w_bin w) key); [|reflexivity|];
    destruct (fst (write _ _ _ _ _)); reflexivity.
Qed.

Lemma bin_calls_since_externalized (ip : ptr) (img : Image) (w : World B) :
  let key := WR.cacheKeyOf hashString (img_fileName img) in
  bin_calls_since w (externalized hashString writeOptions ip img w)
  = EvGetRecordStatus key (getRecordStatus (w_bin w) key)
    :: writes_since w (externalized hashString writeOptions ip img w).
Proof.
  intros key. rewrite writes_since_externalized. fold key.
  unfold bin_calls_since. rewrite events_since_externalized.
  rewrite filter_app, filter_blank_warning by reflexivity.
  unfold locked_region. fold key.
  destruct (getRecordStatus (w_bin w) key); [|reflexivity|];
    destruct (fst (write _ _ _ _ _)); reflexivity.
Qed.

Lemma lookup_externalized (ip : ptr) (img : Image) (w : World B) :
  h_images (w_heap (externalized hashString writeOptions ip img w)) !! ip
  = Some (renamed hashString img).
Proof. unfold externalized, set_image. simpl. apply lookup_insert_eq. Qed.

End ApplyImageFacts.

(** C4. For an image whose name lacks the prefix, the visit writes the image
    to the bin exactly when the bin's record status for its cache key is not
    STATUS_OK (one write, none otherwise), and whatever the status and
    whatever the write returns, the image ends up named by the cache key and
    the extension, with the EXTERNAL_FILE write hint. *)
Theorem externalizer_writes_unless_ok {B : Type} `{CacheBin B}
    (hashString : string -> N) (writeOptions : option (Options B))
    (w : World B) (ip : ptr) (img : Image) :
  h_images (w_heap w) !! ip = Some img ->
  startsWith (img_fileName img) IMAGE_PREFIX = false ->
  let key := WR.cacheKeyOf hashString (img_fileName img) in
  let rs := getRecordStatus (w_bin w) key in
  let written := ObjImage (renamed hashString img) in
  let dbo := Some (image_dbo writeOptions) in
  exists w',
    WR.apply_Image hashString writeOptions ip w = Some (tt, w')
    /\ (rs = STATUS_OK -> writes_since w w' = [] /\ w_bin w' = w_bin w)
    /\ (rs <> STATUS_OK ->
        writes_since w w'
        = [EvWrite key written [] dbo
             (fst (write (w_bin w) key written [] dbo))]
        /\ w_bin w' = snd (write (w_bin w) key written [] dbo))
    /\ bin_calls_since w w' = EvGetRecordStatus key rs :: writes_since w w'
    /\ exists img',
         h_images (w_heap w') !! ip = Some img'
         /\ img_fileName img' = key ++ ".osgearth_cachebin"
         /\ img_writeHint img' = EXTERNAL_FILE
         /\ img_data img' = img_data img.
Proof.
  intros Hi Hp key rs written dbo.
  exists (externalized hashString writeOptions ip img w).
  split; [now apply apply_Image_unprefixed|].
  pose proof (writes_since_externalized hashString writeOptions ip img w)
    as Hw. cbv zeta in Hw. fold key rs written dbo in Hw.
  split; [|split; [|split]].
  - intros Hrs. rewrite Hw, Hrs. split; [reflexivity|].
    unfold externalized, locked_region. simpl. fold key rs. now rewrite Hrs.
  - intros Hrs. rewrite Hw. unfold externalized, locked_region. simpl.
    fold key rs. destruct rs; [| contradiction |]; split; reflexivity.
  - apply bin_calls_since_externalized.
  - exists (renamed hashString img).
    split; [apply lookup_externalized|]. repeat split; reflexivity.
Qed.

Lemma externalizer_writes_unless_ok_witness :
  h_images (w_heap sample_world_read_only) !! 3%positive = Some tex_png
  /\ startsWith (img_fileName tex_png) IMAGE_PREFIX = false
  /\ exists w',
       WR.apply_Image scenario_hash None 3%positive sample_world_read_only
       = Some (tt, w')
       /\ writes_since sample_world_read_only w'
          = [EvWrite "i_a1b2c3" (ObjImage (renamed scenario_hash tex_png)) []
               (Some (image_dbo None)) false]
       /\ exists img',
            h_images (w_heap w') !! 3%positive = Some img'
            /\ img_fileName img' = "i_a1b2c3.osgearth_cachebin"
            /\ img_writeHint img' = EXTERNAL_FILE.
Proof.
  split; [reflexivity|]. split; [reflexivity|].
  destruct (externalizer_writes_unless_ok scenario_hash None
              sample_world_read_only 3%positive tex_png eq_refl eq_refl)
    as (w' & Hrun & _ & Hwr & _ & img' & Himg & Hname & Hhint & _).
  exists w'. split; [exact Hrun|]. split.
  - apply Hwr. discriminate.
  - exists img'. split; [exact Himg|]. split; [exact Hname | exact Hhint].
Defined.

Lemma bin_calls_keys {B : Type} `{CacheBin B} (hashString : string -> N)
    (writeOptions : option (Options B)) (ip : ptr) (img : Image)
    (w : World B) :
  Forall (fun e => event_key e
                   = Some (WR.cacheKeyOf hashString (img_fileName img)))
         (bin_calls_since w (externalized hashString writeOptions ip img w)).
Proof.
  rewrite bin_calls_since_externalized, writes_since_externalized.
  constructor; [reflexivity|].
  destruct (getRecordStatus _ _); repeat constructor.
Qed.

(** C5. For an image whose path lacks the prefix, the cache key every bin
    call of the visit is made with is ["i_"] followed by the lowercase
    hexadecimal digits of [hashString path] (digits that read back as that
    number), the image is renamed to that key followed by
    [".osgearth_cachebin"], and two visits of images with the same path, in
    any two worlds with any bins and write options, produce the same name. *)
Theorem cache_key_format {B1 B2 : Type} `{CacheBin B1} `{CacheBin B2}
    (hashString : string -> N)
    (opts1 : option (Options B1)) (opts2 : option (Options B2))
    (w1 : World B1) (w2 : World B2) (ip1 ip2 : ptr) (img1 img2 : Image) :
  h_images (w_heap w1) !! ip1 = Some img1 ->
  h_images (w_heap w2) !! ip2 = Some img2 ->
  img_fileName img2 = img_fileName img1 ->
  startsWith (img_fileName img1) IMAGE_PREFIX = false ->
  let path := img_fileName img1 in
  let key := "i_" ++ hex (hashString path) in
  exists w1' w2' img1' img2',
    WR.apply_Image hashString opts1 ip1 w1 = Some (tt, w1')
    /\ WR.apply_Image hashString opts2 ip2 w2 = Some (tt, w2')
    /\ h_images (w_heap w1') !! ip1 = Some img1'
    /\ h_images (w_heap w2') !! ip2 = Some img2'
    /\ img_fileName img1' = key ++ ".osgearth_cachebin"
    /\ img_fileName img2' = img_fileName img1'
    /\ Forall (fun e => event_key e = Some key) (bin_calls_since w1 w1')
    /\ Forall (fun e => event_key e = Some key) (bin_calls_since w2 w2')
    /\ Str.forallb Str.is_lower_hex_digit (hex (hashString path)) = true
    /\ option_map N.of_hex_uint
         (HexadecimalString.NilZero.uint_of_string (hex (hashString path)))
       = Some (hashString path).
Proof.
  intros Hi1 Hi2 Hsame Hp path key.
  assert (Hp2 : startsWith (img_fileName img2) IMAGE_PREFIX = false)
    by now rewrite Hsame.
  exists (externalized hashString opts1 ip1 img1 w1),
         (externalized hashString opts2 ip2 img2 w2),
         (renamed hashString img1), (renamed hashString img2).
  split; [now apply apply_Image_unprefixed|].
  split; [now apply apply_Image_unprefixed|].
  split; [apply lookup_externalized|].
  split; [apply lookup_externalized|].
  split; [reflexivity|].
  split; [unfold renamed; simpl; now rewrite Hsame|].
  split; [apply bin_calls_keys|].
  split.
  { pose proof (bin_calls_keys hashString opts2 ip2 img2 w2) as Hk.
    rewrite Hsame in Hk. exact Hk. }
  split; [apply hex_lowercase | apply hex_read_back].
Qed.

Lemma cache_key_format_witness :
  h_images (w_heap sample_world) !! 3%positive = Some tex_png
  /\ h_images (w_heap sample_world_read_only) !! 3%positive = Some tex_png
  /\ startsWith (img_fileName tex_png) IMAGE_PREFIX = false
  /\ exists w1' w2' img1' img2',
       WR.apply_Image scenario_hash None 3%positive sample_world
       = Some (tt, w1')
       /\ WR.apply_Image scenario_hash None 3%positive sample_world_read_only
          = Some (tt, w2')
       /\ h_images (w_heap w1') !! 3%positive = Some img1'
       /\ h_images (w_heap w2') !! 3%positive = Some img2'
       /\ img_fileName img1' = "i_a1b2c3.osgearth_cachebin"
       /\ img_fileName img2' = img_fileName img1'.
Proof.
  split; [reflexivity|]. split; [reflexivity|]. split; [reflexivity|].
  destruct (cache_key_format scenario_hash None None sample_world
              sample_world_read_only 3%positive 3%positive tex_png tex_png
              eq_refl eq_refl eq_refl eq_refl)
    as (w1' & w2' & img1' & img2' & H1 & H2 & H3 & H4 & H5 & H6 & _).
  exists w1', w2', img1', img2'. repeat split; assumption.
Defined.

(** C3, the code at an image without a name: the visit warns, and then goes
    on as for any other name: it asks the bin for the record status of the
    key of the empty path, writes the image under that key, and renames the
    image. *)
Lemma blank_image_is_externalized :
  exists w',
    WR.apply_Image sample_hash None 1%positive sample_world = Some (tt, w')
    /\ events_since sample_world w'
       = [EvWarn "[WriteImagesToCache] ERROR image with blank filename.
";
          EvLock;
          EvGetRecordStatus "i_0" STATUS_NOT_FOUND;
          EvInfo ("[WriteImagesToCache] Writing image " ++ Str.dquote
                  ++ Str.dquote ++ " to the cache as "
                  ++ Str.dquote ++ "i_0" ++ Str.dquote ++ Str.newline);
          EvWrite "i_0"
            (ObjImage (mkImage None "i_0.osgearth_cachebin" EXTERNAL_FILE
                               [1%N]))
            [] (Some (image_dbo None)) true;
          EvUnlock]
    /\ h_images (w_heap w') !! 1%positive
       = Some (mkImage None "i_0.osgearth_cachebin" EXTERNAL_FILE [1%N])
    /\ getRecordStatus (w_bin w') "i_0" = STATUS_OK.
Proof.
  exists (externalized sample_hash None 1%positive blank_image_1 sample_world).
  split; [now apply apply_Image_unprefixed|].
  split; [rewrite events_since_externalized; reflexivity|].
  split; [apply lookup_externalized|].
  vm_compute. reflexivity.
Qed.

(** C9. Images without a name all get the cache key of the empty path,
    ["i_"] and the hexadecimal digits of [hashString ""]: two distinct such
    images, visited one after the other (with any write options), are both
    renamed to that key and the extension, every bin call of either visit is
    made with that key, and the second visit writes nothing when the key was
    already STATUS_OK or the write of the first visit succeeded, on a bin
    that reports STATUS_OK for a key once a write under it has succeeded.
    The first visit, when the key was not STATUS_OK, makes exactly one
    write: of the first image, renamed, under that key, with an empty
    [Config] and the image options, and it leaves the bin that this write
    returns; after the first visit the key is STATUS_OK when it was before or
    when that write succeeded, and this is why the second image, whatever its
    pixels, is not stored. *)
Theorem blank_images_share_one_key {B : Type} `{CacheBin B}
    (hashString : string -> N) (opts1 opts2 : option (Options B))
    (w : World B) (ip1 ip2 : ptr) (img1 img2 : Image) :
  ip1 <> ip2 ->
  h_images (w_heap w) !! ip1 = Some img1 ->
  h_images (w_heap w) !! ip2 = Some img2 ->
  img_fileName img1 = "" ->
  img_fileName img2 = "" ->
  (forall b key obj meta dbo,
     fst (write b key obj meta dbo) = true ->
     getRecordStatus (snd (write b key obj meta dbo)) key = STATUS_OK) ->
  let key := "i_" ++ hex (hashString "") in
  exists w1 w2 img1' img2',
    WR.apply_Image hashString opts1 ip1 w = Some (tt, w1)
    /\ WR.apply_Image hashString opts2 ip2 w1 = Some (tt, w2)
    /\ h_images (w_heap w2) !! ip1 = Some img1'
    /\ h_images (w_heap w2) !! ip2 = Some img2'
    /\ img_fileName img1' = key ++ ".osgearth_cachebin"
    /\ img_fileName img2' = key ++ ".osgearth_cachebin"
    /\ Forall (fun e => event_key e = Some key) (bin_calls_since w w1)
    /\ Forall (fun e => event_key e = Some key) (bin_calls_since w1 w2)
    /\ (getRecordStatus (w_bin w) key = STATUS_OK
        \/ fst (write (w_bin w) key (ObjImage (renamed hashString img1)) []
                      (Some (image_dbo opts1))) = true ->
        writes_since w1 w2 = [] /\ w_bin w2 = w_bin w1)
    /\ (getRecordStatus (w_bin w) key <> STATUS_OK ->
        writes_since w w1
        = [EvWrite key (ObjImage (renamed hashString img1)) []
             (Some (image_dbo opts1))
             (fst (write (w_bin w) key (ObjImage (renamed hashString img1))
                         [] (Some (image_dbo opts1))))]
        /\ w_bin w1
           = snd (write (w_bin w) key (ObjImage (renamed hashString img1)) []
                        (Some (image_dbo opts1))))
    /\ (getRecordStatus (w_bin w) key = STATUS_OK
        \/ fst (write (w_bin w) key (ObjImage (renamed hashString img1)) []
                      (Some (image_dbo opts1))) = true ->
        getRecordStatus (w_bin w1) key = STATUS_OK).
Proof.
  intros Hne Hi1 Hi2 Hb1 Hb2 Hlaw key.
  set (w1 := externalized hashString opts1 ip1 img1 w).
  assert (Hi2' : h_images (w_heap w1) !! ip2 = Some img2).
  { unfold w1, externalized, set_image. simpl.
    now rewrite lookup_insert_ne. }
  assert (Hk : forall img, img_fileName img = "" ->
                 WR.cacheKeyOf hashString (img_fileName img) = key).
  { intros img ->. reflexivity. }
  exists w1, (externalized hashString opts2 ip2 img2 w1),
         (renamed hashString img1), (renamed hashString img2).
  split; [apply apply_Image_unprefixed; [assumption | now rewrite Hb1]|].
  split; [apply apply_Image_unprefixed; [assumption | now rewrite Hb2]|].
  split.
  { unfold externalized at 1. unfold set_image. simpl.
    rewrite lookup_insert_ne by congruence.
    apply (lookup_externalized hashString opts1 ip1 img1 w). }
  split; [apply lookup_externalized|].
  split; [unfold renamed; simpl; now rewrite (Hk img1 Hb1)|].
  split; [unfold renamed; simpl; now rewrite (Hk img2 Hb2)|].
  split.
  { rewrite <- (Hk img1 Hb1).
    apply (bin_calls_keys hashString opts1 ip1 img1 w). }
  split.
  { rewrite <- (Hk img2 Hb2).
    apply (bin_calls_keys hashString opts2 ip2 img2 w1). }
  assert (Hok : getRecordStatus (w_bin w) key = STATUS_OK
                \/ fst (write (w_bin w) key
                          (ObjImage (renamed hashString img1)) []
                          (Some (image_dbo opts1))) = true ->
                getRecordStatus (w_bin w1) key = STATUS_OK).
  { intros Hcached.
    unfold w1, externalized, locked_region. simpl. rewrite (Hk img1 Hb1).
    destruct (getRecordStatus (w_bin w) key) eqn:Ers; simpl;
      try exact Ers;
      (destruct Hcached as [Hc | Hc]; [discriminate|]);
      apply Hlaw; exact Hc. }
  split; [|split; [|exact Hok]].
  - intros Hcached. specialize (Hok Hcached). split.
    + rewrite writes_since_externalized, (Hk img2 Hb2), Hok. reflexivity.
    + unfold externalized at 1. cbn [w_bin]. unfold locked_region.
      cbv zeta. rewrite (Hk img2 Hb2), Hok. reflexivity.
  - intros Hnot. split.
    + unfold w1. rewrite writes_since_externalized, (Hk img1 Hb1).
      destruct (getRecordStatus (w_bin w) key); [reflexivity | | reflexivity].
      now destruct Hnot.
    + unfold w1, externalized. cbn [w_bin]. unfold locked_region.
      cbv zeta. rewrite (Hk img1 Hb1).
      destruct (getRecordStatus (w_bin w) key); [reflexivity | | reflexivity].
      now destruct Hnot.
Qed.

Lemma MemBin_write_then_ok (b : MemBin) (key : string) (obj : Object)
    (meta : Config) (dbo : option (Options MemBin)) :
  fst (write b key obj meta dbo) = true ->
  getRecordStatus (snd (write b key obj meta dbo)) key = STATUS_OK.
Proof.
  intros _. unfold write, getRecordStatus, MemBin_CacheBin. cbn [fst snd].
  now rewrite lookup_insert_eq.
Qed.

Lemma blank_images_share_one_key_witness :
  1%positive <> 2%positive
  /\ h_images (w_heap sample_world) !! 1%positive = Some blank_image_1
  /\ h_images (w_heap sample_world) !! 2%positive = Some blank_image_2
  /\ img_fileName blank_image_1 = ""
  /\ img_fileName blank_image_2 = ""
  /\ exists w1 w2 img1' img2',
       WR.apply_Image sample_hash None 1%positive sample_world = Some (tt, w1)
       /\ WR.apply_Image sample_hash None 2%positive w1 = Some (tt, w2)
       /\ h_images (w_heap w2) !! 1%positive = Some img1'
       /\ h_images (w_heap w2) !! 2%positive = Some img2'
       /\ img_fileName img1' = "i_0.osgearth_cachebin"
       /\ img_fileName img2' = "i_0.osgearth_cachebin"
       /\ writes_since w1 w2 = []
       /\ writes_since sample_world w1
          = [EvWrite "i_0"
               (ObjImage (mkImage None "i_0.osgearth_cachebin" EXTERNAL_FILE
                                  [1%N]))
               [] (Some (image_dbo None)) true]
       /\ getRecordStatus (w_bin w1) "i_0" = STATUS_OK.
Proof.
  split; [discriminate|]. split; [reflexivity|]. split; [reflexivity|].
  split; [reflexivity|]. split; [reflexivity|].
  destruct (blank_images_share_one_key sample_hash None None sample_world
              1%positive 2%positive blank_image_1 blank_image_2
              ltac:(discriminate) eq_refl eq_refl eq_refl eq_refl
              MemBin_write_then_ok)
    as (w1 & w2 & i1 & i2 & H1 & H2 & H3 & H4 & H5 & H6 & _ & _ & H9 & H10
        & H11).
  exists w1, w2, i1, i2. repeat (split; [assumption|]).
  split; [apply H9; right; reflexivity|].
  split; [|apply H11; right; reflexivity].
  apply H10. intros Hs. vm_compute in Hs. discriminate Hs.
Defined.

(** ** Well-formed stores and graphs *)

(** Induction on nodes, with the hypothesis for every child. *)
Lemma Node_induction (P : Node -> Prop) :
  (forall udc ss children, Forall P children -> P (Group udc ss children)) ->
  (forall udc ss drawables, P (Geode udc ss drawables)) ->
  forall n, P n.
Proof.
  intros HG HD. fix IH 1. intros [udc ss children | udc ss drawables].
  - apply HG. induction children as [|c cs IHcs]; constructor.
    + apply IH.
    + exact IHcs.
  - apply HD.
Qed.

Lemma heap_grows_refl (h : Heap) : heap_grows h h.
Proof. repeat split; eauto. Qed.

Lemma heap_grows_trans (h1 h2 h3 : Heap) :
  heap_grows h1 h2 -> heap_grows h2 h3 -> heap_grows h1 h3.
Proof.
  intros (S1 & A1 & I1) (S2 & A2 & I2). split; [|split].
  - eauto.
  - intros p a Ha. destruct (A1 _ _ Ha) as (a2 & H2 & E2).
    destruct (A2 _ _ H2) as (a3 & H3 & E3).
    exists a3. split; [exact H3|]. now rewrite E2.
  - eauto.
Qed.

Lemma is_plain_attr_grows (h h' : Heap) e :
  heap_grows h h' -> is_plain_attr h e = true -> is_plain_attr h' e = true.
Proof.
  intros (_ & HA & _). unfold is_plain_attr.
  destruct (fst (snd e)) as [q|]; [|easy].
  destruct (h_attrs h !! q) as [a|] eqn:Ea; [|easy].
  destruct (HA _ _ Ea) as (a' & -> & Hk).
  destruct (sa_texture a); [easy|]. intros _.
  now rewrite (proj1 Hk eq_refl).
Qed.

Lemma slot_ok_grows (h h' : Heap) e :
  heap_grows h h' -> slot_ok h e = true -> slot_ok h' e = true.
Proof.
  intros (_ & HA & _). unfold slot_ok.
  destruct (fst (snd e)) as [q|]; [|easy].
  destruct (h_attrs h !! q) as [a|] eqn:Ea; [|easy].
  now destruct (HA _ _ Ea) as (a' & -> & _).
Qed.

Lemma forallb_impl {A} (f g : A -> bool) (l : list A) :
  (forall x, f x = true -> g x = true) ->
  forallb f l = true -> forallb g l = true.
Proof.
  intros Hfg. induction l as [|x l IH]; simpl; [easy|].
  rewrite !andb_true_iff. intros [Hx Hl]. auto.
Qed.

Lemma stateSet_ok_grows (h h' : Heap) (ss : StateSet) :
  heap_grows h h' -> stateSet_ok h ss = true -> stateSet_ok h' ss = true.
Proof.
  intros Hg. unfold stateSet_ok. rewrite !andb_true_iff. intros [H1 H2].
  split.
  - revert H1. apply forallb_impl. intros e. now apply is_plain_attr_grows.
  - revert H2. apply forallb_impl. intros b. apply forallb_impl.
    intros e. now apply slot_ok_grows.
Qed.

Lemma image_ok_grows (h h' : Heap) (image : option ptr) :
  heap_grows h h' -> image_ok h image = true -> image_ok h' image = true.
Proof.
  intros (_ & _ & HI). unfold image_ok. destruct image as [ip|]; [|easy].
  destruct (h_images h !! ip) as [i|] eqn:Ei; [|easy].
  destruct (HI ip) as [i' ->]; [rewrite Ei; eauto | easy].
Qed.

Lemma attr_ok_grows (h h' : Heap) (a : StateAttribute) :
  heap_grows h h' -> attr_ok h a = true -> attr_ok h' a = true.
Proof.
  intros Hg. unfold attr_ok. destruct (sa_texture a); [|easy].
  apply forallb_impl. intros i. now apply image_ok_grows.
Qed.

Lemma stateSet_ptr_ok_grows (h h' : Heap) (ssp : option ptr) :
  heap_grows h h' -> stateSet_ptr_ok h ssp = true ->
  stateSet_ptr_ok h' ssp = true.
Proof.
  intros (HS & _ & _). unfold stateSet_ptr_ok. destruct ssp as [p|]; [|easy].
  destruct (h_stateSets h !! p) as [ss|] eqn:E; [|easy].
  destruct (HS p) as [ss' ->]; [rewrite E; eauto | easy].
Qed.

Lemma node_ok_grows (h h' : Heap) (n : Node) :
  heap_grows h h' -> node_ok h n = true -> node_ok h' n = true.
Proof.
  intros Hg. induction n as [udc ss children IH | udc ss drawables]
    using Node_induction; simpl; rewrite !andb_true_iff; intros [Hs Hc];
    (split; [now apply (stateSet_ptr_ok_grows h)|]).
  - rewrite forallb_forall in *. rewrite Forall_forall in IH.
    intros c Hin. apply IH.
    + now apply list_elem_of_In.
    + now apply Hc.
  - revert Hc. apply forallb_impl. intros [d|]; [|easy].
    now apply stateSet_ptr_ok_grows.
Qed.

(** Updates that keep a store well formed. *)
Lemma heap_grows_set_attr (h : Heap) (p : ptr) (a : StateAttribute) :
  (forall a0, h_attrs h !! p = Some a0 ->
     (sa_texture a0 = None <-> sa_texture a = None)) ->
  heap_grows h (set_attr p a h).
Proof.
  intros Hk. split; [|split]; simpl; [eauto | | eauto].
  intros q a0 Hq. destruct (decide (p = q)) as [<- | Hne].
  - exists a. rewrite lookup_insert_eq. eauto.
  - exists a0. rewrite lookup_insert_ne by assumption. easy.
Qed.

Lemma heap_grows_set_image (h : Heap) (p : ptr) (i : Image) :
  heap_grows h (set_image p i h).
Proof.
  split; [|split]; simpl; [eauto | eauto |].
  intros q Hq. destruct (decide (p = q)) as [<- | Hne].
  - rewrite lookup_insert_eq. eauto.
  - now rewrite lookup_insert_ne.
Qed.

Lemma heap_grows_set_stateSet (h : Heap) (p : ptr) (ss : StateSet) :
  heap_grows h (set_stateSet p ss h).
Proof.
  split; [|split]; simpl; [| eauto | eauto].
  intros q Hq. destruct (decide (p = q)) as [<- | Hne].
  - rewrite lookup_insert_eq. eauto.
  - now rewrite lookup_insert_ne.
Qed.

Lemma wf_heap_grows (h h' : Heap) :
  wf_heap h -> heap_grows h h' ->
  (forall p ss, h_stateSets h' !! p = Some ss ->
     h_stateSets h !! p = Some ss \/ stateSet_ok h' ss = true) ->
  (forall p a, h_attrs h' !! p = Some a ->
     h_attrs h !! p = Some a \/ attr_ok h' a = true) ->
  wf_heap h'.
Proof.
  intros [WS WA] Hg HS HA. split.
  - intros p ss Hp. destruct (HS _ _ Hp) as [Hold | Hnew]; [|exact Hnew].
    apply (stateSet_ok_grows h); [exact Hg|]. exact (WS _ _ Hold).
  - intros p a Hp. destruct (HA _ _ Hp) as [Hold | Hnew]; [|exact Hnew].
    apply (attr_ok_grows h); [exact Hg|]. exact (WA _ _ Hold).
Qed.

Lemma wf_set_attr (h : Heap) (p : ptr) (a : StateAttribute) :
  wf_heap h ->
  (forall a0, h_attrs h !! p = Some a0 ->
     (sa_texture a0 = None <-> sa_texture a = None)) ->
  attr_ok h a = true ->
  wf_heap (set_attr p a h).
Proof.
  intros Hwf Hk Ha.
  pose proof (heap_grows_set_attr h p a Hk) as Hg.
  apply (wf_heap_grows h); [assumption | assumption | simpl; eauto |].
  simpl. intros q a' Hq. destruct (decide (p = q)) as [<- | Hne].
  - rewrite lookup_insert_eq in Hq. injection Hq as <-. right.
    now apply (attr_ok_grows h).
  - rewrite lookup_insert_ne in Hq by assumption. now left.
Qed.

Lemma wf_set_image (h : Heap) (p : ptr) (i : Image) :
  wf_heap h -> wf_heap (set_image p i h).
Proof.
  intros Hwf.
  apply (wf_heap_grows h); [assumption | apply heap_grows_set_image | |];
    simpl; eauto.
Qed.

Lemma wf_set_stateSet (h : Heap) (p : ptr) (ss : StateSet) :
  wf_heap h -> stateSet_ok h ss = true -> wf_heap (set_stateSet p ss h).
Proof.
  intros Hwf Hss.
  pose proof (heap_grows_set_stateSet h p ss) as Hg.
  apply (wf_heap_grows h); [assumption | assumption | | simpl; eauto].
  simpl. intros q ss' Hq. destruct (decide (p = q)) as [<- | Hne].
  - rewrite lookup_insert_eq in Hq. injection Hq as <-. right.
    now apply (stateSet_ok_grows h).
  - rewrite lookup_insert_ne in Hq by assumption. now left.
Qed.

(** ** PrepareForCaching: what a run does to the store *)

Lemma texture_kept_refl (a : StateAttribute) : texture_kept a a.
Proof.
  unfold texture_kept. destruct (sa_texture a) as [t|] eqn:E; [|reflexivity].
  split; [reflexivity|]. exists t. auto.
Qed.

Lemma texture_kept_trans (a1 a2 a3 : StateAttribute) :
  texture_kept a1 a2 -> texture_kept a2 a3 -> texture_kept a1 a3.
Proof.
  unfold texture_kept. destruct (sa_texture a1) as [t1|].
  - intros (U1 & t2 & -> & I1 & C1 & F1) (U2 & t3 & E3 & I2 & C2 & F2).
    split; [congruence|]. exists t3. split; [exact E3|].
    split; [congruence|]. split; [congruence|].
    destruct F1 as [F1|F1], F2 as [F2|F2]; rewrite ?F2, ?F1; auto.
  - now intros ->.
Qed.

Lemma texture_kept_kind (a a' : StateAttribute) :
  texture_kept a a' -> (sa_texture a = None <-> sa_texture a' = None).
Proof.
  unfold texture_kept. destruct (sa_texture a) as [t|].
  - intros (_ & t' & -> & _). split; discriminate.
  - intros ->. easy.
Qed.

Lemma sanitized_from_refl (h : Heap) : sanitized_from h h.
Proof.
  split; [|split]; eauto. intros p a Ha. exists a. split; [exact Ha|].
  apply texture_kept_refl.
Qed.

Lemma sanitized_from_trans (h1 h2 h3 : Heap) :
  sanitized_from h1 h2 -> sanitized_from h2 h3 -> sanitized_from h1 h3.
Proof.
  intros (S1 & A1 & I1) (S2 & A2 & I2). split; [|split]; eauto.
  intros p a Ha. destruct (A1 _ _ Ha) as (a2 & H2 & K2).
  destruct (A2 _ _ H2) as (a3 & H3 & K3).
  exists a3. split; [exact H3|]. now apply (texture_kept_trans a a2).
Qed.

Lemma sanitized_from_grows (h h' : Heap) :
  sanitized_from h h' -> heap_grows h h'.
Proof.
  intros (HS & HA & HI). split; [|split]; eauto.
  intros p a Ha. destruct (HA _ _ Ha) as (a' & Ha' & K).
  exists a'. split; [exact Ha'|]. now apply texture_kept_kind.
Qed.

Lemma sanitized_from_set_attr (h : Heap) (p : ptr) (a : StateAttribute) :
  (forall a0, h_attrs h !! p = Some a0 -> texture_kept a0 a) ->
  sanitized_from h (set_attr p a h).
Proof.
  intros Hk. split; [|split]; simpl; [eauto | | eauto].
  intros q a0 Hq. destruct (decide (p = q)) as [<- | Hne].
  - exists a. rewrite lookup_insert_eq. eauto.
  - exists a0. rewrite lookup_insert_ne by assumption.
    split; [exact Hq | apply texture_kept_refl].
Qed.

Lemma sanitized_from_set_image (h : Heap) (p : ptr) (i : Image) :
  sanitized_from h (set_image p i h).
Proof.
  split; [|split]; simpl; [eauto | |].
  - intros q a Ha. exists a. split; [exact Ha | apply texture_kept_refl].
  - intros q Hq. destruct (decide (p = q)) as [<- | Hne].
    + rewrite lookup_insert_eq. eauto.
    + now rewrite lookup_insert_ne.
Qed.

Lemma sanitized_from_set_stateSet (h : Heap) (p : ptr) (ss : StateSet) :
  sanitized_from h (set_stateSet p ss h).
Proof.
  split; [|split]; simpl; [| | eauto].
  - intros q Hq. destruct (decide (p = q)) as [<- | Hne].
    + rewrite lookup_insert_eq. eauto.
    + now rewrite lookup_insert_ne.
  - intros q a Ha. exists a. split; [exact Ha | apply texture_kept_refl].
Qed.

Section PrepareForCachingRuns.
Context {B : Type}.

Lemma applyUserData_run (u : option UserDataContainer) (s : PC.State B) :
  exists s', PC.applyUserData u s = Some (None, s') /\ PC.world s' = PC.world s.
Proof.
  unfold PC.applyUserData, bind, when, modify, ret.
  destruct (bool_decide _); simpl; eauto.
Qed.

Lemma applyUserData_attr_run (p : ptr) (a : StateAttribute) (s : PC.State B) :
  h_attrs (hp s) !! p = Some a ->
  exists s', PC.applyUserData_attr p s = Some (tt, s')
             /\ PC.world s' = set_heap (set_attr p (mkSA None (sa_texture a))
                                              (hp s)) (PC.world s).
Proof.
  intros Ha. unfold PC.applyUserData_attr, PC.heap, bind, lift_option.
  fold (hp s). rewrite Ha. unfold ret at 1.
  destruct (applyUserData_run (sa_udc a) s) as (s1 & -> & Hw).
  unfold PC.update_heap, modify. rewrite Hw. eauto.
Qed.

Lemma applyUserData_image_run (p : ptr) (i : Image) (s : PC.State B) :
  h_images (hp s) !! p = Some i ->
  exists s', PC.applyUserData_image p s = Some (tt, s')
             /\ PC.world s' = set_heap (set_image p
                             (mkImage None (img_fileName i) (img_writeHint i)
                                      (img_data i)) (hp s)) (PC.world s).
Proof.
  intros Hi. unfold PC.applyUserData_image, PC.heap, bind, lift_option.
  fold (hp s). rewrite Hi. unfold ret at 1.
  destruct (applyUserData_run (img_udc i) s) as (s1 & -> & Hw).
  unfold PC.update_heap, modify. rewrite Hw. eauto.
Qed.

Lemma applyUserData_stateSet_run (p : ptr) (ss : StateSet) (s : PC.State B) :
  h_stateSets (hp s) !! p = Some ss ->
  exists s', PC.applyUserData_stateSet p s = Some (tt, s')
             /\ PC.world s' = set_heap (set_stateSet p
                             (mkStateSet None (ss_attributeList ss)
                                         (ss_textureAttributeList ss))
                             (hp s)) (PC.world s).
Proof.
  intros Hs. unfold PC.applyUserData_stateSet, PC.heap, bind, lift_option.
  fold (hp s). rewrite Hs. unfold ret at 1.
  destruct (applyUserData_run (ss_udc ss) s) as (s1 & -> & Hw).
  unfold PC.update_heap, modify. rewrite Hw. eauto.
Qed.

End PrepareForCachingRuns.

(** ** Loops: an invariant, a preorder on states, and a fact per element
    that later steps do not undo *)

Section Loops.
Context {S A C : Type}.
Variable I : S -> Prop.
Variable R : S -> S -> Prop.
Hypothesis R_refl : forall s, R s s.
Hypothesis R_trans : forall s1 s2 s3, R s1 s2 -> R s2 s3 -> R s1 s3.

Lemma mapM_run (P : A -> C -> S -> Prop) (f : A -> M S C) (l : list A) :
  (forall x y s s', P x y s -> R s s' -> P x y s') ->
  (forall x, x ∈ l -> forall s, I s ->
     exists y s', f x s = Some (y, s') /\ I s' /\ R s s' /\ P x y s') ->
  forall s, I s ->
    exists ys s', mapM f l s = Some (ys, s') /\ I s' /\ R s s'
                  /\ Forall2 (fun x y => P x y s') l ys.
Proof.
  intros Hstable. induction l as [|x l IH]; intros Hf s Hs.
  - exists [], s. simpl. unfold ret. auto.
  - destruct (Hf x ltac:(left) s Hs) as (y & s1 & Ex & I1 & R1 & P1).
    destruct (IH (fun z Hz => Hf z ltac:(right; exact Hz)) s1 I1)
      as (ys & s2 & El & I2 & R2 & P2).
    exists (y :: ys), s2. simpl. unfold bind. rewrite Ex, El. unfold ret.
    split; [reflexivity|]. split; [exact I2|]. split; [eauto|].
    constructor; [eauto | exact P2].
Qed.

Lemma forM__run (P : A -> S -> Prop) (f : A -> M S unit) (l : list A) :
  (forall x s s', P x s -> R s s' -> P x s') ->
  (forall x, x ∈ l -> forall s, I s ->
     exists s', f x s = Some (tt, s') /\ I s' /\ R s s' /\ P x s') ->
  forall s, I s ->
    exists s', forM_ l f s = Some (tt, s') /\ I s' /\ R s s'
               /\ Forall (fun x => P x s') l.
Proof.
  intros Hstable. induction l as [|x l IH]; intros Hf s Hs.
  - exists s. simpl. unfold ret. auto.
  - destruct (Hf x ltac:(left) s Hs) as (s1 & Ex & I1 & R1 & P1).
    destruct (IH (fun z Hz => Hf z ltac:(right; exact Hz)) s1 I1)
      as (s2 & El & I2 & R2 & P2).
    exists s2. simpl. unfold bind. rewrite Ex, El.
    split; [reflexivity|]. split; [exact I2|]. split; [eauto|].
    constructor; [eauto | exact P2].
Qed.

End Loops.

Section PrepareForCachingSlots.
Context {B : Type}.

Abbreviation strip_image := (fun image : option ptr =>
  match image with
  | Some ip => PC.applyUserData_image (B := B) ip
  | None => ret tt
  end).

(** The loop over the images of the clone strips user data from images and
    changes nothing else. *)
Lemma strip_images_run (imgs : list (option ptr)) (s : PC.State B) :
  forallb (image_ok (hp s)) imgs = true ->
  exists s', forM_ imgs strip_image s = Some (tt, s')
             /\ h_attrs (hp s') = h_attrs (hp s)
             /\ h_stateSets (hp s') = h_stateSets (hp s)
             /\ (forall p, is_Some (h_images (hp s) !! p) ->
                           is_Some (h_images (hp s') !! p)).
Proof.
  revert s. induction imgs as [|image imgs IH]; intros s Hok.
  - exists s. simpl. unfold ret. auto.
  - simpl in Hok. apply andb_true_iff in Hok as [Hi Hl].
    assert (Hstep : exists s1, strip_image image s = Some (tt, s1)
              /\ h_attrs (hp s1) = h_attrs (hp s)
              /\ h_stateSets (hp s1) = h_stateSets (hp s)
              /\ (forall p, is_Some (h_images (hp s) !! p) ->
                            is_Some (h_images (hp s1) !! p))).
    { destruct image as [ip|]; [|exists s; unfold ret; auto].
      unfold image_ok in Hi.
      destruct (h_images (hp s) !! ip) as [i|] eqn:Ei; [|discriminate].
      destruct (applyUserData_image_run ip i s Ei) as (s1 & E1 & W1).
      exists s1. split; [exact E1|]. unfold hp. rewrite W1. simpl.
      split; [reflexivity|]. split; [reflexivity|].
      apply (heap_grows_set_image (hp s)). }
    destruct Hstep as (s1 & E1 & A1 & S1 & I1).
    destruct (IH s1) as (s2 & E2 & A2 & S2 & I2).
    { revert Hl. apply forallb_impl. intros [ip|]; [|easy].
      unfold image_ok. destruct (h_images (hp s) !! ip) eqn:E; [|easy].
      intros _. destruct (I1 ip) as [i' ->]; [rewrite E; eauto | easy]. }
    exists s2. simpl. unfold bind. rewrite E1, E2.
    split; [reflexivity|]. split; [congruence|]. split; [congruence|]. eauto.
Qed.

Lemma sanitized_from_images (h h' : Heap) :
  h_attrs h' = h_attrs h -> h_stateSets h' = h_stateSets h ->
  (forall p, is_Some (h_images h !! p) -> is_Some (h_images h' !! p)) ->
  sanitized_from h h'.
Proof.
  intros HA HS HI. split; [|split].
  - now rewrite HS.
  - rewrite HA. intros p a Ha. exists a. split; [exact Ha|].
    apply texture_kept_refl.
  - exact HI.
Qed.

Lemma wf_heap_images (h h' : Heap) :
  wf_heap h -> h_attrs h' = h_attrs h -> h_stateSets h' = h_stateSets h ->
  (forall p, is_Some (h_images h !! p) -> is_Some (h_images h' !! p)) ->
  wf_heap h'.
Proof.
  intros Hwf HA HS HI.
  apply (wf_heap_grows h); [exact Hwf | | |].
  - apply sanitized_from_grows. now apply sanitized_from_images.
  - rewrite HS. eauto.
  - rewrite HA. eauto.
Qed.

End PrepareForCachingSlots.

(** ** PrepareForCaching on one texture slot *)

Section PrepareForCachingSlot.
Context {B : Type}.

Lemma attr_ok_same_images (h : Heap) (a a' : StateAttribute) :
  texture_kept a a' -> attr_ok h a = true -> attr_ok h a' = true.
Proof.
  unfold texture_kept, attr_ok. destruct (sa_texture a) as [t|].
  - intros (_ & t' & -> & -> & _). easy.
  - now intros ->.
Qed.

Lemma texture_kept_cleared (a : StateAttribute) (tex : Texture) :
  sa_texture a = Some tex ->
  texture_kept a (mkSA (sa_udc a) (Some (cleared tex))).
Proof.
  intros E. unfold texture_kept. rewrite E. split; [reflexivity|].
  exists (cleared tex). simpl. auto.
Qed.

Lemma clone_run (p : ptr) (a : StateAttribute) (tex : Texture)
    (s : PC.State B) :
  h_attrs (hp s) !! p = Some a -> sa_texture a = Some tex ->
  PC.clone p s
  = if tex_clonable tex
    then Some (Some (fresh (dom (h_attrs (hp s)))),
               PC.mkState (PC.this s)
                 (set_heap (set_attr (fresh (dom (h_attrs (hp s)))) a (hp s))
                           (PC.world s)))
    else Some (None, s).
Proof.
  intros Ea Et. unfold PC.clone, PC.heap, bind, lift_option.
  fold (hp s). rewrite Ea. unfold ret at 1. rewrite Et.
  destruct (tex_clonable tex); reflexivity.
Qed.

Lemma getImages_run (q : ptr) (a : StateAttribute) (s : PC.State B) :
  h_attrs (hp s) !! q = Some a ->
  PC.getImages q s
  = Some (match sa_texture a with Some t => tex_images t | None => [] end, s).
Proof.
  intros Ea. unfold PC.getImages, PC.heap, bind, lift_option.
  fold (hp s). now rewrite Ea.
Qed.

Lemma update_heap_run (f : Heap -> Heap) (s : PC.State B) :
  PC.update_heap f s
  = Some (tt, PC.mkState (PC.this s) (set_heap (f (hp s)) (PC.world s))).
Proof. reflexivity. Qed.

Lemma bind_run {S A C : Type} (c : M S A) (k : A -> M S C) (s s' : S) (a : A) :
  c s = Some (a, s') -> bind c k s = k a s'.
Proof. intros E. unfold bind. now rewrite E. Qed.

Lemma sanitized_from_clone (h h' : Heap) (p q : ptr)
    (a a1 c : StateAttribute) :
  h_attrs h !! p = Some a -> texture_kept a a1 -> h_attrs h !! q = None ->
  h_attrs h' = <[q := c]> (<[p := a1]> (h_attrs h)) ->
  h_stateSets h' = h_stateSets h ->
  (forall i, is_Some (h_images h !! i) -> is_Some (h_images h' !! i)) ->
  sanitized_from h h'.
Proof.
  intros Ea Hk Eq HA HS HI. split; [|split].
  - now rewrite HS.
  - rewrite HA. intros r b Hb.
    assert (q <> r) by congruence.
    rewrite lookup_insert_ne by assumption.
    destruct (decide (p = r)) as [<- | Hne].
    + rewrite lookup_insert_eq. exists a1. split; [reflexivity|]. congruence.
    + rewrite lookup_insert_ne by assumption. exists b.
      split; [exact Hb | apply texture_kept_refl].
  - exact HI.
Qed.

Lemma apply_textureSlot_run (e : TypeMemberPair * RefAttributePair)
    (s : PC.State B) :
  wf_heap (hp s) -> slot_ok (hp s) e = true ->
  exists e' s',
    PC.apply_textureSlot e s = Some (e', s')
    /\ wf_heap (hp s') /\ sanitized_from (hp s) (hp s')
    /\ slot_ok (hp s') e' = true
    /\ slot_post (hp s) e e' (hp s').
Proof.
  intros Hwf Hok. destruct e as [k [sa ov]]. unfold PC.apply_textureSlot.
  cbn [fst snd]. destruct sa as [p|].
  2:{ exists (k, (None, ov)), s. unfold ret.
      split; [reflexivity|]. split; [exact Hwf|].
      split; [apply sanitized_from_refl|]. split; [exact Hok|].
      repeat split. }
  unfold slot_ok in Hok. cbn [fst snd] in Hok.
  destruct (h_attrs (hp s) !! p) as [a|] eqn:Ea; [clear Hok|discriminate].
  pose proof (proj2 Hwf p a Ea) as Haok.
  unfold bind at 1. unfold PC.heap at 1. unfold bind at 1.
  fold (hp s). rewrite Ea. unfold lift_option, ret at 1.
  destruct (sa_texture a) as [tex|] eqn:Et.
  - set (a1 := mkSA (sa_udc a) (Some (cleared tex))).
    pose proof (texture_kept_cleared a tex Et) as Hk1. fold a1 in Hk1.
    rewrite (bind_run _ _ _ _ _ (update_heap_run _ s)).
    set (s1 := PC.mkState (PC.this s)
                 (set_heap (set_attr p a1 (hp s)) (PC.world s))).
    assert (E1 : h_attrs (hp s1) !! p = Some a1) by apply lookup_insert_eq.
    assert (W1 : wf_heap (hp s1)).
    { apply wf_set_attr; [exact Hwf | | now apply (attr_ok_same_images _ a)].
      intros a0 Ha0. rewrite Ea in Ha0. injection Ha0 as <-.
      now apply texture_kept_kind. }
    pose proof (clone_run p a1 (cleared tex) s1 E1 eq_refl) as Hclone.
    change (tex_clonable (cleared tex)) with (tex_clonable tex) in Hclone.
    change (PC.mkState (PC.this s) (set_heap (set_attr p
              (mkSA (sa_udc a) (Some (PC.setUnRefImageDataAfterApply false tex)))
              (hp s)) (PC.world s))) with s1.
    assert (Himgs : forallb (image_ok (hp s)) (tex_images tex) = true).
    { unfold attr_ok in Haok. now rewrite Et in Haok. }
    destruct (tex_clonable tex) eqn:Ec; rewrite (bind_run _ _ _ _ _ Hclone).
    + (* the clone is made *)
      set (q := fresh (dom (h_attrs (hp s1)))) in *.
      assert (Fq : h_attrs (hp s1) !! q = None).
      { apply not_elem_of_dom. apply is_fresh. }
      assert (Npq : p <> q) by congruence.
      assert (Fq0 : h_attrs (hp s) !! q = None).
      { unfold s1, hp in Fq. simpl in Fq.
        now rewrite lookup_insert_ne in Fq. }
      set (s2 := PC.mkState (PC.this s1)
                   (set_heap (set_attr q a1 (hp s1)) (PC.world s1))).
      assert (E2 : h_attrs (hp s2) !! q = Some a1) by apply lookup_insert_eq.
      rewrite (bind_run _ _ _ _ _ (getImages_run q a1 s2 E2)).
      cbn [sa_texture a1 cleared PC.setUnRefImageDataAfterApply tex_images].
      destruct (strip_images_run (tex_images tex) s2 Himgs)
        as (s3 & E3 & A3 & S3 & I3).
      rewrite (bind_run _ _ _ _ _ E3).
      assert (E3q : h_attrs (hp s3) !! q = Some a1) by now rewrite A3.
      destruct (applyUserData_attr_run q a1 s3 E3q) as (s4 & E4 & W4).
      rewrite (bind_run _ _ _ _ _ E4). unfold ret.
      exists (k, (Some q, ov)), s4. split; [reflexivity|].
      set (c := mkSA None (Some (cleared tex))).
      assert (H4 : hp s4 = set_attr q c (hp s3)) by (unfold hp; now rewrite W4).
      assert (HA4 : h_attrs (hp s4)
                    = <[q := c]> (<[p := a1]> (h_attrs (hp s)))).
      { rewrite H4. simpl. rewrite A3. unfold s2, s1, hp. simpl.
        apply insert_insert_eq. }
      assert (W2 : wf_heap (hp s2)).
      { apply (wf_set_attr (hp s1)); [exact W1 | congruence |].
        exact (proj2 W1 p a1 E1). }
      assert (W3 : wf_heap (hp s3)) by now apply (wf_heap_images (hp s2)).
      split; [|split; [|split]].
      * rewrite H4. apply wf_set_attr; [exact W3 | |].
        -- intros a0 Ha0. rewrite E3q in Ha0. injection Ha0 as <-. easy.
        -- exact (proj2 W3 q a1 E3q).
      * apply (sanitized_from_clone _ _ p q a a1 c); try assumption.
        -- rewrite H4. simpl. now rewrite S3.
        -- intros i Hi. rewrite H4. simpl. now apply I3.
      * unfold slot_ok. cbn [fst snd]. rewrite HA4.
        now rewrite lookup_insert_eq.
      * split; [reflexivity|]. split; [reflexivity|]. cbn [fst snd].
        intros a0 Ha0. rewrite Ea in Ha0. injection Ha0 as <-. rewrite Et.
        split.
        -- rewrite HA4. rewrite lookup_insert_ne by congruence.
           apply lookup_insert_eq.
        -- rewrite Ec. exists q. split; [reflexivity|].
           split; [exact Fq0|]. rewrite HA4. apply lookup_insert_eq.
    + (* the clone fails *)
      set (s1' := PC.mkState (PC.this s1)
                    (emit (EvWarn "[PrepareForCaching] Texture clone failed.
") (PC.world s1))).
      exists (k, (Some p, ov)), s1'. split; [reflexivity|].
      change (hp s1') with (hp s1).
      assert (G1 : sanitized_from (hp s) (hp s1)).
      { apply sanitized_from_set_attr. intros a0 Ha0. congruence. }
      split; [exact W1|]. split; [exact G1|].
      split.
      * unfold slot_ok. cbn [fst snd]. now rewrite E1.
      * split; [reflexivity|]. split; [reflexivity|]. cbn [fst snd].
        intros a0 Ha0. rewrite Ea in Ha0. injection Ha0 as <-. rewrite Et.
        split; [exact E1|]. now rewrite Ec.
  - (* not a texture *)
    destruct (applyUserData_attr_run p a s Ea) as (s1 & E1 & W1).
    rewrite (bind_run _ _ _ _ _ E1). unfold ret.
    exists (k, (Some p, ov)), s1. split; [reflexivity|].
    assert (H1 : hp s1 = set_attr p (mkSA None (sa_texture a)) (hp s))
      by (unfold hp; now rewrite W1).
    assert (K1 : texture_kept a (mkSA None (sa_texture a))).
    { unfold texture_kept. now rewrite Et. }
    rewrite H1. split; [|split; [|split]].
    + apply wf_set_attr; [exact Hwf | |].
      * intros a0 Ha0. rewrite Ea in Ha0. injection Ha0 as <-. easy.
      * unfold attr_ok. simpl. now rewrite Et.
    + apply sanitized_from_set_attr. intros a0 Ha0. congruence.
    + unfold slot_ok. cbn [fst snd]. simpl. now rewrite lookup_insert_eq.
    + split; [reflexivity|]. split; [reflexivity|]. cbn [fst snd].
      intros a0 Ha0. rewrite Ea in Ha0. injection Ha0 as <-. now rewrite Et.
Qed.
End PrepareForCachingSlot.

Lemma texture_kept_cleared_eq (u : option UserDataContainer) (tex : Texture)
    (a : StateAttribute) :
  texture_kept (mkSA u (Some (cleared tex))) a ->
  a = mkSA u (Some (cleared tex)).
Proof.
  destruct a as [u' t']. unfold texture_kept. simpl.
  intros (-> & t & -> & HI & HC & HF). destruct t as [f i c]. simpl in *.
  subst i c. destruct HF as [-> | ->]; reflexivity.
Qed.

Lemma cleared_kept (a0 a : StateAttribute) (tex0 tex : Texture) :
  texture_kept a0 a -> sa_texture a0 = Some tex0 -> sa_texture a = Some tex ->
  sa_udc a = sa_udc a0 /\ cleared tex = cleared tex0
  /\ tex_clonable tex = tex_clonable tex0.
Proof.
  unfold texture_kept. intros K E0 E. rewrite E0 in K.
  destruct K as (U & t' & E' & HI & HC & _). rewrite E in E'.
  injection E' as <-. split; [exact U|]. split; [|exact HC].
  unfold cleared, PC.setUnRefImageDataAfterApply. now rewrite HI, HC.
Qed.

Lemma sanitized_from_fresh (h0 h : Heap) (q : ptr) :
  sanitized_from h0 h -> h_attrs h !! q = None -> h_attrs h0 !! q = None.
Proof.
  intros (_ & HA & _) Hq. destruct (h_attrs h0 !! q) as [a|] eqn:E; [|easy].
  destruct (HA _ _ E) as (a' & Ha' & _). congruence.
Qed.

(** The facts of [slot_post] may be read against an earlier store. *)
Lemma slot_post_rebase (h0 h : Heap) e e' (h' : Heap) :
  sanitized_from h0 h -> slot_post h e e' h' -> slot_post h0 e e' h'.
Proof.
  intros Hs (Hk & Hov & Hp). split; [exact Hk|]. split; [exact Hov|].
  destruct (fst (snd e)) as [p|]; [|exact Hp].
  intros a0 Ha0. destruct (proj1 (proj2 Hs) _ _ Ha0) as (a & Ha & K).
  specialize (Hp a Ha).
  destruct (sa_texture a0) as [tex0|] eqn:E0.
  - pose proof K as K'. unfold texture_kept in K'. rewrite E0 in K'.
    destruct K' as (_ & tex & Et & _). rewrite Et in Hp.
    destruct (cleared_kept a0 a tex0 tex K E0 Et) as (U & C & Cl).
    rewrite U, C, Cl in Hp. destruct Hp as [Hp1 Hp2]. split; [exact Hp1|].
    destruct (tex_clonable tex0); [|exact Hp2].
    destruct Hp2 as (q & Hq1 & Hq2 & Hq3). exists q.
    split; [exact Hq1|]. split; [|exact Hq3].
    now apply (sanitized_from_fresh h0 h).
  - apply texture_kept_kind in K. rewrite (proj1 K E0) in Hp. exact Hp.
Qed.

(** Later steps of the visitor do not undo the facts of [slot_post]. *)
Lemma slot_post_stable (h0 : Heap) e e' (h' h'' : Heap) :
  slot_post h0 e e' h' -> sanitized_from h' h'' -> slot_post h0 e e' h''.
Proof.
  intros (Hk & Hov & Hp) Hs. split; [exact Hk|]. split; [exact Hov|].
  destruct (fst (snd e)) as [p|]; [|exact Hp].
  intros a0 Ha0. specialize (Hp a0 Ha0).
  destruct (sa_texture a0) as [tex0|]; [|exact Hp].
  assert (Hkeep : forall r u, h_attrs h' !! r = Some (mkSA u (Some (cleared tex0)))
                    -> h_attrs h'' !! r = Some (mkSA u (Some (cleared tex0)))).
  { intros r u Hr. destruct (proj1 (proj2 Hs) _ _ Hr) as (a'' & Ha'' & K).
    now rewrite (texture_kept_cleared_eq _ _ _ K) in Ha''. }
  destruct Hp as [Hp1 Hp2]. split; [now apply Hkeep|].
  destruct (tex_clonable tex0); [|exact Hp2].
  destruct Hp2 as (q & Hq1 & Hq2 & Hq3). exists q. auto.
Qed.

(** ** PrepareForCaching on a state set *)

Lemma Forall2_forallb_r {A C : Type} (P : A -> C -> Prop) (f : C -> bool)
    (l : list A) (k : list C) :
  Forall2 P l k -> (forall x y, P x y -> f y = true) -> forallb f k = true.
Proof.
  intros HF Hf. induction HF as [|x y l k Hxy _ IH]; simpl; [reflexivity|].
  now rewrite (Hf x y Hxy), IH.
Qed.

Section PrepareForCachingStateSet.
Context {B : Type}.

Lemma prep_step_refl (s : PC.State B) : prep_step s s.
Proof. apply sanitized_from_refl. Qed.

Lemma prep_step_trans (s1 s2 s3 : PC.State B) :
  prep_step s1 s2 -> prep_step s2 s3 -> prep_step s1 s3.
Proof. apply sanitized_from_trans. Qed.

(** The first loop: user data is stripped from the plain attributes. *)
Lemma plain_attrs_run (s0 : PC.State B) (l : AttributeList) :
  forallb (is_plain_attr (hp s0)) l = true ->
  forall s, prep_inv s0 s ->
    exists s',
      forM_ l (fun i => match fst (snd i) with
                        | Some sa => PC.applyUserData_attr sa
                        | None => fail
                        end) s = Some (tt, s')
      /\ prep_inv s0 s' /\ prep_step s s'.
Proof.
  intros Hl s Hs.
  destruct (forM__run (prep_inv s0) prep_step prep_step_refl prep_step_trans
              (fun _ _ => True)
              (fun i => match fst (snd i) with
                        | Some sa => PC.applyUserData_attr (B := B) sa
                        | None => fail
                        end) l) with (s := s)
    as (s' & E & I' & R' & _); [auto | | exact Hs | eauto].
  intros e He s1 [W1 G1].
  rewrite forallb_forall in Hl.
  pose proof (Hl e (proj1 (list_elem_of_In _ _) He)) as Hplain.
  apply (is_plain_attr_grows _ (hp s1)) in Hplain;
    [|now apply sanitized_from_grows].
  unfold is_plain_attr in Hplain. destruct e as [k [sa ov]].
  cbn [fst snd] in *. destruct sa as [q|]; [|discriminate].
  destruct (h_attrs (hp s1) !! q) as [a|] eqn:Ea; [|discriminate].
  destruct (sa_texture a) eqn:Et; [discriminate|].
  destruct (applyUserData_attr_run q a s1 Ea) as (s2 & E2 & W2).
  exists s2. split; [exact E2|].
  assert (H2 : hp s2 = set_attr q (mkSA None (sa_texture a)) (hp s1))
    by (unfold hp; now rewrite W2).
  assert (G2 : sanitized_from (hp s1) (hp s2)).
  { rewrite H2. apply sanitized_from_set_attr. intros a0 Ha0.
    rewrite Ea in Ha0. injection Ha0 as <-. unfold texture_kept.
    now rewrite Et. }
  split; [split|split; [exact G2 | exact Logic.I]].
  - rewrite H2. apply wf_set_attr; [exact W1 | |].
    + intros a0 Ha0. rewrite Ea in Ha0. injection Ha0 as <-. easy.
    + unfold attr_ok. simpl. now rewrite Et.
  - now apply (sanitized_from_trans _ (hp s1)).
Qed.

Lemma slot_done_stable (s0 : PC.State B) e e' (s s' : PC.State B) :
  slot_done s0 e e' s -> prep_step s s' -> slot_done s0 e e' s'.
Proof.
  intros [Hp Hok] Hs. split.
  - now apply (slot_post_stable _ _ _ (hp s)).
  - apply (slot_ok_grows (hp s)); [now apply sanitized_from_grows | exact Hok].
Qed.

(** The second loop: every texture unit, every entry. *)
Lemma texture_units_run (s0 : PC.State B) (units : list AttributeList) :
  forallb (forallb (slot_ok (hp s0))) units = true ->
  forall s, prep_inv s0 s ->
    exists a s',
      mapM (mapM PC.apply_textureSlot) units s = Some (a, s')
      /\ prep_inv s0 s' /\ prep_step s s'
      /\ Forall2 (Forall2 (fun e e' => slot_done s0 e e' s')) units a.
Proof.
  intros Hunits. rewrite forallb_forall in Hunits.
  apply (mapM_run (prep_inv s0) prep_step prep_step_refl prep_step_trans
           (fun b b' s' => Forall2 (fun e e' => slot_done s0 e e' s') b b')).
  { intros b b' s s' Hb Hs. eapply Forall2_impl; [exact Hb|].
    intros e e' He. now apply (slot_done_stable s0 e e' s). }
  intros b Hb. pose proof (Hunits b (proj1 (list_elem_of_In _ _) Hb)) as Hslots.
  rewrite forallb_forall in Hslots.
  apply (mapM_run (prep_inv s0) prep_step prep_step_refl prep_step_trans
           (fun e e' s' => slot_done s0 e e' s')).
  { intros e e' s s'. apply slot_done_stable. }
  intros e He s [W G].
  pose proof (Hslots e (proj1 (list_elem_of_In _ _) He)) as Hok.
  apply (slot_ok_grows _ (hp s)) in Hok; [|now apply sanitized_from_grows].
  destruct (apply_textureSlot_run e s W Hok) as (e' & s' & E & W' & G' & Ok' & P').
  exists e', s'. split; [exact E|].
  split; [split; [exact W' | now apply (sanitized_from_trans _ (hp s))]|].
  split; [exact G'|]. split; [|exact Ok'].
  now apply (slot_post_rebase _ (hp s)).
Qed.

(** [apply_StateSet] on a state set of a well-formed store runs to its end;
    the state set loses its user data, keeps its plain attribute list, and
    has each entry of its texture units as [slot_post] says. *)
Lemma apply_StateSet_run (p : ptr) (ss : StateSet) (s : PC.State B) :
  wf_heap (hp s) -> h_stateSets (hp s) !! p = Some ss ->
  exists a s',
    PC.apply_StateSet (Some p) s = Some (tt, s')
    /\ wf_heap (hp s') /\ sanitized_from (hp s) (hp s')
    /\ h_stateSets (hp s') !! p
       = Some (mkStateSet None (ss_attributeList ss) a)
    /\ Forall2 (Forall2 (fun e e' => slot_post (hp s) e e' (hp s')))
               (ss_textureAttributeList ss) a.
Proof.
  intros Hwf Hss. pose proof (proj1 Hwf p ss Hss) as Hok.
  unfold stateSet_ok in Hok. apply andb_true_iff in Hok as [Hplain Hunits].
  unfold PC.apply_StateSet, PC.heap. unfold bind at 1. unfold bind at 1.
  fold (hp s). rewrite Hss. unfold lift_option, ret at 1.
  destruct (plain_attrs_run s (ss_attributeList ss) Hplain s)
    as (s1 & E1 & I1 & R1).
  { split; [exact Hwf | apply sanitized_from_refl]. }
  rewrite (bind_run _ _ _ _ _ E1).
  destruct (texture_units_run s (ss_textureAttributeList ss) Hunits s1 I1)
    as (a & s2 & E2 & [W2 G2] & R2 & Hdone).
  rewrite (bind_run _ _ _ _ _ E2).
  rewrite (bind_run _ _ _ _ _ (update_heap_run _ s2)).
  set (ss3 := mkStateSet (ss_udc ss) (ss_attributeList ss) a).
  set (s3 := PC.mkState (PC.this s2)
               (set_heap (set_stateSet p ss3 (hp s2)) (PC.world s2))).
  assert (Hok3 : forall h, heap_grows (hp s2) h ->
            forall u, stateSet_ok h (mkStateSet u (ss_attributeList ss) a)
                      = true).
  { intros h Hg u. unfold stateSet_ok. simpl. apply andb_true_iff. split.
    - revert Hplain. apply forallb_impl. intros e.
      apply is_plain_attr_grows.
      apply (heap_grows_trans _ (hp s2)); [|exact Hg].
      now apply sanitized_from_grows.
    - apply (Forall2_forallb_r _ _ _ _ Hdone). intros b b' Hbb'.
      apply (Forall2_forallb_r _ _ _ _ Hbb'). intros e e' [_ Hslot].
      now apply (slot_ok_grows (hp s2)). }
  assert (W3 : wf_heap (hp s3)).
  { apply (wf_set_stateSet (hp s2)); [exact W2|].
    apply Hok3. apply heap_grows_refl. }
  assert (E3 : h_stateSets (hp s3) !! p = Some ss3) by apply lookup_insert_eq.
  destruct (applyUserData_stateSet_run p ss3 s3 E3) as (s4 & E4 & W4).
  exists a, s4. split; [exact E4|].
  assert (H4 : hp s4 = set_stateSet p (mkStateSet None (ss_attributeList ss) a)
                         (hp s3)) by (unfold hp; now rewrite W4).
  assert (G4 : sanitized_from (hp s) (hp s4)).
  { apply (sanitized_from_trans _ (hp s2)); [exact G2|].
    apply (sanitized_from_trans _ (hp s3)).
    - apply (sanitized_from_set_stateSet (hp s2)).
    - rewrite H4. apply sanitized_from_set_stateSet. }
  split; [|split; [exact G4|split]].
  - rewrite H4. apply wf_set_stateSet; [exact W3|].
    apply Hok3. apply sanitized_from_grows.
    apply (sanitized_from_set_stateSet (hp s2)).
  - rewrite H4. apply lookup_insert_eq.
  - eapply Forall2_impl; [exact Hdone|]. intros b b' Hbb'.
    eapply Forall2_impl; [exact Hbb'|]. intros e e' [Hpost _].
    apply (slot_post_stable _ _ _ (hp s2)); [exact Hpost|].
    apply (sanitized_from_trans _ (hp s3)).
    + apply (sanitized_from_set_stateSet (hp s2)).
    + rewrite H4. apply sanitized_from_set_stateSet.
Qed.

End PrepareForCachingStateSet.

(** ** PrepareForCaching on a graph *)

Lemma node_ok_strip (h : Heap) (n : Node) :
  node_ok h (strip_node n) = node_ok h n.
Proof.
  induction n as [udc ss children IH | udc ss drawables]
    using Node_induction; simpl; f_equal.
  - induction IH as [|c cs Hc _ IHcs]; simpl; [reflexivity|].
    now rewrite Hc, IHcs.
  - induction drawables as [|[d|] ds IHds]; simpl; [reflexivity | |];
      now rewrite IHds.
Qed.

Lemma Forall2_eq_map {A C : Type} (f : A -> C) (l : list A) (k : list C) :
  Forall2 (fun x y => y = f x) l k -> k = map f l.
Proof.
  induction 1 as [|x y l k Hxy _ IH]; simpl; [reflexivity|].
  now rewrite Hxy, IH.
Qed.

Section PrepareForCachingGraph.
Context {B : Type}.

Lemma accept_Group (udc : option UserDataContainer) (ss : option ptr)
    (children : list Node) :
  PC.accept (B := B) (Group udc ss children)
  = (PC.apply_StateSet ss ;;;
     u <- PC.applyUserData udc ;;
     cs <- mapM PC.accept children ;;
     ret (Group u ss cs)).
Proof.
  assert (Htraverse :
    (fix traverse (l : list Node) : M (PC.State B) (list Node) :=
       match l with
       | [] => ret []
       | c :: l' =>
           c' <- PC.accept c ;; cs' <- traverse l' ;; ret (c' :: cs')
       end) children = mapM PC.accept children).
  { induction children as [|c cs IH]; [reflexivity|].
    cbn [mapM]. now rewrite <- IH. }
  cbn [PC.accept]. now rewrite Htraverse.
Qed.

Lemma apply_StateSet_ptr_run (ssp : option ptr) (s : PC.State B) :
  wf_heap (hp s) -> stateSet_ptr_ok (hp s) ssp = true ->
  exists s', PC.apply_StateSet ssp s = Some (tt, s')
             /\ wf_heap (hp s') /\ sanitized_from (hp s) (hp s').
Proof.
  intros Hwf Hok. destruct ssp as [p|].
  - unfold stateSet_ptr_ok in Hok.
    destruct (h_stateSets (hp s) !! p) as [ss|] eqn:Ess; [|discriminate].
    destruct (apply_StateSet_run p ss s Hwf Ess)
      as (a & s' & E & W & G & _).
    eauto.
  - exists s. split; [reflexivity|]. split; [exact Hwf|].
    apply sanitized_from_refl.
Qed.

Lemma apply_Drawable_run (d : option Drawable) (s : PC.State B) :
  wf_heap (hp s) -> drawable_ok (hp s) d = true ->
  exists s', PC.apply_Drawable d s = Some (strip_drawable d, s')
             /\ wf_heap (hp s') /\ sanitized_from (hp s) (hp s').
Proof.
  intros Hwf Hok. destruct d as [dr|].
  - destruct (apply_StateSet_ptr_run (dr_stateSet dr) s Hwf Hok)
      as (s1 & E1 & W1 & G1).
    destruct (applyUserData_run (dr_udc dr) s1) as (s2 & E2 & W2).
    exists s2. unfold PC.apply_Drawable.
    rewrite (bind_run _ _ _ _ _ E1), (bind_run _ _ _ _ _ E2).
    split; [reflexivity|]. unfold hp. rewrite W2. split; assumption.
  - exists s. split; [reflexivity|]. split; [exact Hwf|].
    apply sanitized_from_refl.
Qed.

(** On a well-formed graph the visitor runs to its end and returns the
    graph stripped of user data; the store stays well formed. *)
Lemma accept_run (n : Node) :
  forall s : PC.State B,
    wf_heap (hp s) -> node_ok (hp s) n = true ->
    exists s', PC.accept n s = Some (strip_node n, s')
               /\ wf_heap (hp s') /\ sanitized_from (hp s) (hp s').
Proof.
  induction n as [udc ss children IH | udc ss drawables]
    using Node_induction; intros s Hwf Hok; simpl in Hok;
    apply andb_true_iff in Hok as [Hss Hrest].
  - rewrite accept_Group.
    destruct (apply_StateSet_ptr_run ss s Hwf Hss) as (s1 & E1 & W1 & G1).
    destruct (applyUserData_run udc s1) as (s2 & E2 & W2).
    rewrite (bind_run _ _ _ _ _ E1), (bind_run _ _ _ _ _ E2).
    assert (I2 : prep_inv s s2).
    { unfold prep_inv, hp. rewrite W2. split; assumption. }
    destruct (mapM_run (prep_inv s) prep_step prep_step_refl prep_step_trans
                (fun c c' _ => c' = strip_node c) PC.accept children)
      with (s := s2) as (cs & s3 & E3 & [W3 G3] & R3 & Hcs);
      [auto | | exact I2 |].
    { intros c Hc s' [W' G'].
      rewrite Forall_forall in IH. rewrite forallb_forall in Hrest.
      destruct (IH c Hc s' W') as (s'' & E'' & W'' & G'').
      { apply (node_ok_grows (hp s)); [now apply sanitized_from_grows|].
        apply Hrest. now apply list_elem_of_In. }
      exists (strip_node c), s''. split; [exact E''|].
      split; [split; [exact W'' | now apply (sanitized_from_trans _ (hp s'))]|].
      split; [exact G'' | reflexivity]. }
    rewrite (bind_run _ _ _ _ _ E3). unfold ret.
    rewrite (Forall2_eq_map _ _ _ Hcs).
    exists s3. split; [reflexivity|]. split; assumption.
  - unfold PC.accept.
    destruct (mapM_run (prep_inv s) prep_step prep_step_refl prep_step_trans
                (fun d d' _ => d' = strip_drawable d) PC.apply_Drawable
                drawables)
      with (s := s) as (ds & s1 & E1 & [W1 G1] & R1 & Hds);
      [auto | | split; [exact Hwf | apply sanitized_from_refl] |].
    { intros d Hd s' [W' G']. rewrite forallb_forall in Hrest.
      destruct (apply_Drawable_run d s' W') as (s'' & E'' & W'' & G'').
      { pose proof (Hrest d (proj1 (list_elem_of_In _ _) Hd)) as Hd'.
        destruct d as [dr|]; [|reflexivity].
        apply (stateSet_ptr_ok_grows (hp s));
          [now apply sanitized_from_grows | exact Hd']. }
      exists (strip_drawable d), s''. split; [exact E''|].
      split; [split; [exact W'' | now apply (sanitized_from_trans _ (hp s'))]|].
      split; [exact G'' | reflexivity]. }
    rewrite (bind_run _ _ _ _ _ E1).
    destruct (apply_StateSet_ptr_run ss s1 W1) as (s2 & E2 & W2 & G2).
    { apply (stateSet_ptr_ok_grows (hp s)); [|exact Hss].
      now apply sanitized_from_grows. }
    destruct (applyUserData_run udc s2) as (s3 & E3 & W3).
    rewrite (bind_run _ _ _ _ _ E2), (bind_run _ _ _ _ _ E3). unfold ret.
    rewrite (Forall2_eq_map _ _ _ Hds).
    exists s3. split; [reflexivity|]. unfold hp. rewrite W3.
    split; [exact W2|]. now apply (sanitized_from_trans _ (hp s1)).
Qed.

End PrepareForCachingGraph.

(** ** The texture slots of a state set (C1) *)

Lemma sample_heap_wf : wf_heap sample_heap.
Proof.
  split; repeat (apply map_Forall_insert_2; [reflexivity|]);
    apply map_Forall_empty.
Qed.

(** The visit of a state set, seen from one entry of a texture unit that
    points to a texture. *)
Lemma apply_StateSet_slot {B : Type} (s : PC.State B) (p : ptr)
    (ss : StateSet) (i j : nat) (unit : AttributeList)
    (e : TypeMemberPair * RefAttributePair) (t : ptr) (a : StateAttribute)
    (tex : Texture) :
  wf_heap (hp s) ->
  h_stateSets (hp s) !! p = Some ss ->
  ss_textureAttributeList ss !! i = Some unit ->
  unit !! j = Some e ->
  fst (snd e) = Some t ->
  h_attrs (hp s) !! t = Some a ->
  sa_texture a = Some tex ->
  exists s' units' unit' e',
    PC.apply_StateSet (Some p) s = Some (tt, s')
    /\ h_attrs (hp s') !! t = Some (mkSA (sa_udc a) (Some (cleared tex)))
    /\ h_stateSets (hp s') !! p
       = Some (mkStateSet None (ss_attributeList ss) units')
    /\ units' !! i = Some unit' /\ unit' !! j = Some e'
    /\ fst e' = fst e /\ snd (snd e') = snd (snd e)
    /\ if tex_clonable tex
       then exists q, fst (snd e') = Some q
                      /\ h_attrs (hp s) !! q = None
                      /\ h_attrs (hp s') !! q
                         = Some (mkSA None (Some (cleared tex)))
       else e' = e.
Proof.
  intros Hwf Hss Hi Hj He Ha Ht.
  destruct (apply_StateSet_run p ss s Hwf Hss)
    as (units' & s' & E & _ & _ & Hss' & Hposts).
  destruct (Forall2_lookup_l _ _ _ _ _ Hposts Hi) as (unit' & Hi' & Hunit).
  destruct (Forall2_lookup_l _ _ _ _ _ Hunit Hj) as (e' & Hj' & Hk & Hov & Hp).
  rewrite He in Hp. specialize (Hp a Ha). rewrite Ht in Hp.
  destruct Hp as [Horig Hslot].
  exists s', units', unit', e'. repeat (split; [assumption|]). exact Hslot.
Qed.

(** C1, counterexample: the texture in the first texture slot of the sample
    state set, which clones well, has its flag set before the visit and
    cleared after it: the visit has written to the object itself, not only
    to its clone. *)
Lemma originals_untouched_fails : ~ originals_untouched.
Proof.
  intros Hclaim.
  destruct (apply_StateSet_slot sample_state 5%positive sample_stateSet
              0 0 _ _ 10%positive shared_texture _
              sample_heap_wf eq_refl eq_refl eq_refl eq_refl eq_refl eq_refl)
    as (s' & units' & unit' & e' & Hrun & Horig & _).
  destruct (Hclaim MemBin sample_state s' 5%positive sample_stateSet
              0 0 _ _ 10%positive shared_texture _
              sample_heap_wf eq_refl eq_refl eq_refl eq_refl eq_refl eq_refl
              Hrun)
    as (a' & tex' & Ha' & Ht' & _ & Hflag).
  rewrite Horig in Ha'. injection Ha' as <-. simpl in Ht'.
  injection Ht' as <-. discriminate Hflag.
Qed.

(** ** WriteExternalReferencesToCache on a graph *)

Lemma renamed_prefixed (hashString : string -> N) (img : Image) :
  startsWith (img_fileName (renamed hashString img)) IMAGE_PREFIX = true.
Proof.
  unfold renamed, WR.cacheKeyOf. cbn [img_fileName].
  rewrite string_app_assoc. apply startsWith_app.
Qed.

Section ExternalizerRuns.
Context {B : Type} `{CacheBin B}.
Variable hashString : string -> N.
Variable writeOptions : option (Options B).

Local Abbreviation externalized_from := (externalized_from hashString).
Local Abbreviation settled := (settled hashString).

Lemma externalized_from_refl (w : World B) : externalized_from w w.
Proof. repeat split. eauto. Qed.

Lemma externalized_from_trans (w1 w2 w3 : World B) :
  externalized_from w1 w2 -> externalized_from w2 w3 ->
  externalized_from w1 w3.
Proof.
  intros (S1 & A1 & I1) (S2 & A2 & I2).
  split; [congruence|]. split; [congruence|].
  intros ip img Hi. destruct (I1 _ _ Hi) as (img2 & H2 & P2).
  destruct (I2 _ _ H2) as (img3 & H3 & P3).
  exists img3. split; [exact H3|].
  destruct P2 as [-> | [Hp ->]]; [exact P3|].
  destruct P3 as [-> | [Hp3 _]]; [auto|].
  rewrite renamed_prefixed in Hp3. discriminate.
Qed.

Lemma externalized_from_wf (w w' : World B) :
  wf_heap (w_heap w) -> externalized_from w w' -> wf_heap (w_heap w').
Proof.
  intros Hwf (HS & HA & HI). apply (wf_heap_images (w_heap w)); try assumption.
  intros p [img Hp]. destruct (HI _ _ Hp) as (img' & -> & _). eauto.
Qed.

Lemma settled_stable (c : M (World B) unit) (w w' : World B) :
  settled c w -> externalized_from w w' -> settled c w'.
Proof.
  intros Hc Hw w'' Hw'. apply Hc. now apply (externalized_from_trans _ w').
Qed.

Lemma settled_forM_ {A : Type} (f : A -> M (World B) unit) (l : list A)
    (w : World B) :
  Forall (fun x => settled (f x) w) l -> settled (forM_ l f) w.
Proof.
  intros Hl w' Hw'. induction Hl as [|x l Hx _ IH]; [reflexivity|].
  simpl. rewrite (bind_run _ _ _ _ _ (Hx w' Hw')). exact IH.
Qed.

(** A loop of steps that each run and settle runs and settles. *)
Lemma forM__settles {A : Type} (w0 : World B) (f : A -> M (World B) unit)
    (l : list A) :
  (forall x, x ∈ l -> forall w, externalized_from w0 w ->
     exists w', f x w = Some (tt, w') /\ externalized_from w w'
                /\ settled (f x) w') ->
  forall w, externalized_from w0 w ->
    exists w', forM_ l f w = Some (tt, w') /\ externalized_from w w'
               /\ settled (forM_ l f) w'.
Proof.
  intros Hf w Hw.
  destruct (forM__run (externalized_from w0) externalized_from
              externalized_from_refl externalized_from_trans
              (fun x w' => settled (f x) w') f l) with (s := w)
    as (w' & E & _ & R' & Hall); [| | exact Hw |].
  - intros x s s'. apply settled_stable.
  - intros x Hx s Hs. destruct (Hf x Hx s Hs) as (s' & E & R' & D').
    exists s'. split; [exact E|].
    split; [now apply (externalized_from_trans _ s)|]. auto.
  - exists w'. split; [exact E|]. split; [exact R'|].
    now apply settled_forM_.
Qed.

Abbreviation visit_image := (fun image : option ptr =>
  match image with
  | Some ip => WR.apply_Image hashString writeOptions ip
  | None => ret tt
  end).

Lemma apply_Image_settles (w0 : World B) (image : option ptr) :
  image_ok (w_heap w0) image = true ->
  forall w, externalized_from w0 w ->
    exists w', visit_image image w = Some (tt, w')
               /\ externalized_from w w' /\ settled (visit_image image) w'.
Proof.
  intros Hok w Hw. destruct image as [ip|].
  2:{ exists w. split; [reflexivity|]. split; [apply externalized_from_refl|].
      intros w' _. reflexivity. }
  unfold image_ok in Hok.
  destruct (h_images (w_heap w0) !! ip) as [img0|] eqn:E0; [|discriminate].
  destruct (proj2 (proj2 Hw) _ _ E0) as (img & Ei & _).
  assert (Hsettled : forall w1 img1,
            h_images (w_heap w1) !! ip = Some img1 ->
            startsWith (img_fileName img1) IMAGE_PREFIX = true ->
            settled (WR.apply_Image hashString writeOptions ip) w1).
  { intros w1 img1 E1 P1 w2 (_ & _ & HI).
    destruct (HI _ _ E1) as (img2 & E2 & [-> | [P2 _]]); [|congruence].
    now apply (apply_Image_prefixed _ _ _ img1). }
  destruct (startsWith (img_fileName img) IMAGE_PREFIX) eqn:Hp.
  - exists w. split; [now apply (apply_Image_prefixed _ _ _ img)|].
    split; [apply externalized_from_refl|]. now apply (Hsettled w img).
  - exists (externalized hashString writeOptions ip img w).
    split; [now apply apply_Image_unprefixed|]. split.
    + split; [reflexivity|]. split; [reflexivity|].
      intros iq imgq Hq. unfold externalized, set_image.
      cbn [w_heap h_images].
      destruct (decide (ip = iq)) as [<- | Hne].
      * rewrite lookup_insert_eq. eexists. split; [reflexivity|].
        rewrite Ei in Hq. injection Hq as <-. auto.
      * rewrite lookup_insert_ne by assumption. eauto.
    + apply (Hsettled _ (renamed hashString img)).
      * apply lookup_externalized.
      * apply renamed_prefixed.
Qed.

Lemma apply_Texture_settles (w0 : World B) (sa : option ptr) :
  wf_heap (w_heap w0) ->
  match sa with
  | Some p => is_Some (h_attrs (w_heap w0) !! p)
  | None => True
  end ->
  forall w, externalized_from w0 w ->
    exists w', WR.apply_Texture hashString writeOptions sa w = Some (tt, w')
               /\ externalized_from w w'
               /\ settled (WR.apply_Texture hashString writeOptions sa) w'.
Proof.
  intros Hwf Hsa w Hw. destruct sa as [p|].
  2:{ exists w. split; [reflexivity|]. split; [apply externalized_from_refl|].
      intros w' _. reflexivity. }
  destruct Hsa as [a Ea].
  assert (Hread : forall w1, externalized_from w0 w1 ->
            WR.apply_Texture hashString writeOptions (Some p) w1
            = match sa_texture a with
              | Some tex => forM_ (tex_images tex) visit_image w1
              | None => Some (tt, w1)
              end).
  { intros w1 (_ & HA & _). unfold WR.apply_Texture, WR.heap, bind, lift_option.
    rewrite HA, Ea. unfold ret. now destruct (sa_texture a). }
  rewrite (Hread w Hw).
  destruct (sa_texture a) as [tex|] eqn:Et.
  - destruct (forM__settles w0 visit_image (tex_images tex)) with (w := w)
      as (w' & E & R' & D'); [|exact Hw|].
    + intros image Hin. apply apply_Image_settles.
      pose proof (proj2 Hwf p a Ea) as Hok. unfold attr_ok in Hok.
      rewrite Et in Hok. rewrite forallb_forall in Hok. apply Hok.
      now apply list_elem_of_In.
    + exists w'. split; [exact E|]. split; [exact R'|].
      intros w'' Hw''. rewrite Hread; [now apply D'|].
      apply (externalized_from_trans _ w); [exact Hw|].
      now apply (externalized_from_trans _ w').
  - exists w. split; [reflexivity|]. split; [apply externalized_from_refl|].
    intros w'' Hw''. rewrite Hread; [reflexivity|].
    now apply (externalized_from_trans _ w).
Qed.

End ExternalizerRuns.

Section ExternalizerGraph.
Context {B : Type} `{CacheBin B}.
Variable hashString : string -> N.
Variable writeOptions : option (Options B).

Local Abbreviation externalized_from := (externalized_from hashString).
Local Abbreviation settled := (settled hashString).
Local Abbreviation settles := (settles hashString).

Lemma settles_seq (w0 : World B) (c k : M (World B) unit) :
  settles w0 c -> settles w0 k -> settles w0 (c ;;; k).
Proof.
  intros Hc Hk w Hw.
  destruct (Hc w Hw) as (w1 & E1 & R1 & D1).
  assert (Hw1 : externalized_from w0 w1)
    by now apply (externalized_from_trans _ w0 w).
  destruct (Hk w1 Hw1) as (w2 & E2 & R2 & D2).
  exists w2. rewrite (bind_run _ _ _ _ _ E1).
  split; [exact E2|].
  split; [now apply (externalized_from_trans _ w w1)|].
  intros w3 Hw3.
  rewrite (bind_run c _ w3 w3 tt).
  - now apply D2.
  - apply D1. now apply (externalized_from_trans _ w1 w2).
Qed.

Lemma settles_forM_ {A : Type} (w0 : World B) (f : A -> M (World B) unit)
    (l : list A) :
  (forall x, x ∈ l -> settles w0 (f x)) -> settles w0 (forM_ l f).
Proof. intros Hf w Hw. now apply (forM__settles hashString w0). Qed.

Lemma settles_ret (w0 : World B) : settles w0 (ret tt).
Proof.
  intros w _. exists w. split; [reflexivity|].
  split; [apply externalized_from_refl|]. intros w' _. reflexivity.
Qed.

Lemma apply_StateSet_settles (w0 : World B) (ssp : option ptr) :
  wf_heap (w_heap w0) -> stateSet_ptr_ok (w_heap w0) ssp = true ->
  settles w0 (WR.apply_StateSet hashString writeOptions ssp).
Proof.
  intros Hwf Hok. destruct ssp as [p|]; [|apply settles_ret].
  unfold stateSet_ptr_ok in Hok.
  destruct (h_stateSets (w_heap w0) !! p) as [ss|] eqn:Ess; [|discriminate].
  set (body := forM_ (ss_textureAttributeList ss) (fun b =>
                 forM_ b (fun j =>
                   WR.apply_Texture hashString writeOptions (fst (snd j))))).
  assert (Hread : forall w1, externalized_from w0 w1 ->
            WR.apply_StateSet hashString writeOptions (Some p) w1 = body w1).
  { intros w1 (HS & _ & _). unfold WR.apply_StateSet, WR.heap, bind.
    rewrite HS, Ess. reflexivity. }
  assert (Hbody : settles w0 body).
  { pose proof (proj1 Hwf p ss Ess) as Hss. unfold stateSet_ok in Hss.
    apply andb_true_iff in Hss as [_ Hunits].
    rewrite forallb_forall in Hunits.
    apply settles_forM_. intros b Hb. apply settles_forM_. intros j Hj.
    intros w Hw.
    apply (apply_Texture_settles hashString writeOptions w0);
      [exact Hwf | | exact Hw].
    pose proof (Hunits b (proj1 (list_elem_of_In _ _) Hb)) as Hslots.
    rewrite forallb_forall in Hslots.
    pose proof (Hslots j (proj1 (list_elem_of_In _ _) Hj)) as Hslot.
    unfold slot_ok in Hslot. destruct (fst (snd j)) as [q|]; [|exact I].
    destruct (h_attrs (w_heap w0) !! q); [eauto | discriminate]. }
  intros w Hw. destruct (Hbody w Hw) as (w' & E & R' & D').
  exists w'. rewrite (Hread w Hw). split; [exact E|]. split; [exact R'|].
  intros w'' Hw''. rewrite Hread; [now apply D'|].
  apply (externalized_from_trans _ w0 w); [exact Hw|].
  now apply (externalized_from_trans _ w w').
Qed.

Lemma WR_accept_Group (udc : option UserDataContainer) (ss : option ptr)
    (children : list Node) :
  WR.accept hashString writeOptions (Group udc ss children)
  = (WR.apply_StateSet hashString writeOptions ss ;;;
     forM_ children (WR.accept hashString writeOptions)).
Proof.
  assert (Htraverse :
    (fix traverse (l : list Node) : M (World B) unit :=
       match l with
       | [] => ret tt
       | c :: l' => WR.accept hashString writeOptions c ;;; traverse l'
       end) children = forM_ children (WR.accept hashString writeOptions)).
  { induction children as [|c cs IH]; [reflexivity|].
    cbn [forM_]. now rewrite <- IH. }
  cbn [WR.accept]. now rewrite Htraverse.
Qed.

(** On a well-formed graph the visitor runs to its end, and is settled in
    the world it leaves. *)
Lemma accept_settles (w0 : World B) (n : Node) :
  wf_heap (w_heap w0) -> node_ok (w_heap w0) n = true ->
  settles w0 (WR.accept hashString writeOptions n).
Proof.
  intros Hwf. induction n as [udc ss children IH | udc ss drawables]
    using Node_induction; intros Hok; simpl in Hok;
    apply andb_true_iff in Hok as [Hss Hrest];
    rewrite forallb_forall in Hrest.
  - rewrite WR_accept_Group. apply settles_seq.
    + now apply apply_StateSet_settles.
    + apply settles_forM_. intros c Hc. rewrite Forall_forall in IH.
      apply (IH c Hc). apply Hrest. now apply list_elem_of_In.
  - cbn [WR.accept]. apply settles_seq.
    + now apply apply_StateSet_settles.
    + apply settles_forM_. intros d Hd.
      pose proof (Hrest d (proj1 (list_elem_of_In _ _) Hd)) as Hd'.
      destruct d as [dr|]; [|apply settles_ret].
      now apply apply_StateSet_settles.
Qed.

End ExternalizerGraph.

(** ** Idempotence of the rename (C6) *)

Lemma hex_nonempty (n : N) : hex n <> "".
Proof.
  unfold hex, HexadecimalString.NilZero.string_of_uint.
  destruct (N.to_hex_uint n); discriminate.
Qed.

(** The digits of a key do not begin with the prefix again. *)
Lemma hex_not_prefixed (n : N) (s : string) :
  startsWith (hex n ++ s) IMAGE_PREFIX = false.
Proof.
  pose proof (hex_lowercase n) as Hl. pose proof (hex_nonempty n) as Hn.
  destruct (hex n) as [|c r]; [contradiction|].
  rewrite append_cons. simpl in Hl. apply andb_true_iff in Hl as [Hc _].
  unfold IMAGE_PREFIX. cbn [startsWith].
  destruct (Ascii.eqb c "i") eqn:Ec; [|reflexivity].
  apply Ascii.eqb_eq in Ec. subst c. vm_compute in Hc. discriminate.
Qed.

Lemma renamed_not_double_prefixed (hashString : string -> N) (img : Image) :
  startsWith (img_fileName (renamed hashString img))
             (IMAGE_PREFIX ++ IMAGE_PREFIX) = false.
Proof.
  unfold renamed, WR.cacheKeyOf. cbn [img_fileName].
  rewrite string_app_assoc.
  pose proof (hex_not_prefixed (hashString (img_fileName img))
                ".osgearth_cachebin") as Hh.
  unfold IMAGE_PREFIX in *. rewrite !append_cons, append_nil.
  cbn [startsWith]. rewrite !Ascii.eqb_refl. exact Hh.
Qed.

(** C6. On a well-formed graph the visitor runs to its end, and a second run
    over the world the first one leaves changes nothing at all: every image
    keeps the name the first run left it with, and the bin is not called.
    After the first run each image is as it was, or it had a name without
    the prefix and now has the cache key and the extension for a name, which
    carries the prefix once and not twice. *)
Theorem externalizer_idempotent {B : Type} `{CacheBin B}
    (hashString : string -> N) (writeOptions : option (Options B))
    (w : World B) (root : Node) :
  wf_heap (w_heap w) ->
  node_ok (w_heap w) root = true ->
  exists w1,
    WR.accept hashString writeOptions root w = Some (tt, w1)
    /\ WR.accept hashString writeOptions root w1 = Some (tt, w1)
    /\ forall ip img,
         h_images (w_heap w) !! ip = Some img ->
         exists img1,
           h_images (w_heap w1) !! ip = Some img1
           /\ (img1 = img
               \/ (startsWith (img_fileName img) IMAGE_PREFIX = false
                   /\ img_fileName img1
                      = (IMAGE_PREFIX ++ hex (hashString (img_fileName img)))
                        ++ ".osgearth_cachebin"
                   /\ startsWith (img_fileName img1) IMAGE_PREFIX = true
                   /\ startsWith (img_fileName img1)
                                 (IMAGE_PREFIX ++ IMAGE_PREFIX) = false)).
Proof.
  intros Hwf Hok.
  destruct (accept_settles hashString writeOptions w root Hwf Hok w
              (externalized_from_refl hashString w))
    as (w1 & E1 & R1 & D1).
  exists w1. split; [exact E1|].
  split; [apply D1; apply externalized_from_refl|].
  intros ip img Hi. destruct (proj2 (proj2 R1) ip img Hi) as (img1 & Hi1 & Hc).
  exists img1. split; [exact Hi1|].
  destruct Hc as [-> | [Hp ->]]; [now left | right].
  split; [exact Hp|]. split; [reflexivity|].
  split; [apply renamed_prefixed | apply renamed_not_double_prefixed].
Qed.

Lemma externalizer_idempotent_witness :
  wf_heap (w_heap sample_graph_world)
  /\ node_ok (w_heap sample_graph_world) sample_root = true
  /\ exists w1,
       WR.accept scenario_hash None sample_root sample_graph_world
       = Some (tt, w1)
       /\ WR.accept scenario_hash None sample_root w1 = Some (tt, w1)
       /\ exists img1,
            h_images (w_heap w1) !! 3%positive = Some img1
            /\ (img1 = tex_png
                \/ img_fileName img1 = "i_a1b2c3.osgearth_cachebin").
Proof.
  split; [exact sample_heap_wf|]. split; [reflexivity|].
  destruct (externalizer_idempotent scenario_hash None sample_graph_world
              sample_root sample_heap_wf eq_refl)
    as (w1 & E1 & E2 & Himgs).
  exists w1. split; [exact E1|]. split; [exact E2|].
  destruct (Himgs 3%positive tex_png eq_refl) as (img1 & Hi & Hc).
  exists img1. split; [exact Hi|].
  destruct Hc as [-> | (_ & Hn & _)]; [now left | now right].
Defined.

(** ** CacheBin::writeNode (C2) *)

(** The run of [writeNode] on a well-formed graph: both visitors run to
    their end, the graph is written, and the result is [true]. *)
Lemma writeNode_run {B : Type} `{CacheBin B} (hashString : string -> N)
    (key : string) (node : Node) (metadata : Config)
    (writeOptions : option (Options B)) (w : World B) :
  wf_heap (w_heap w) ->
  node_ok (w_heap w) node = true ->
  exists w1,
    let graph := ObjNode (strip_node node) (w_heap w1) in
    let r := write (w_bin w1) key graph metadata writeOptions in
    writeNode hashString key node metadata writeOptions w
    = Some ((true, strip_node node),
            mkWorld (w_heap w1) (snd r)
                    (w_trace w1
                     ++ [EvWrite key graph metadata writeOptions (fst r)])).
Proof.
  intros Hwf Hok. unfold writeNode.
  destruct (accept_run node (PC.mkState PC.new w) Hwf Hok)
    as (s' & E & W' & G').
  rewrite E.
  assert (Hok' : node_ok (hp s') (strip_node node) = true).
  { rewrite node_ok_strip. apply (node_ok_grows (w_heap w));
      [now apply sanitized_from_grows | exact Hok]. }
  destruct (accept_settles hashString writeOptions (PC.world s')
              (strip_node node) W' Hok' (PC.world s')
              (externalized_from_refl hashString _))
    as (w1 & E1 & _ & _).
  exists w1. cbv zeta. rewrite (bind_run _ _ _ _ _ E1).
  unfold WR.heap, WR.bin_write, bind, ret.
  destruct (write (w_bin w1) key _ metadata writeOptions) as [ok b].
  reflexivity.
Qed.

(** C2, counterexample: on a bin that refuses every write the final write
    of the graph fails, and [writeNode] returns [true]. *)
Lemma writeNode_reports_final_write_fails : ~ writeNode_reports_final_write.
Proof.
  intros Hclaim.
  destruct (writeNode_run sample_hash "tile" sample_root [] None
              sample_graph_world_read_only sample_heap_wf eq_refl)
    as (w1 & Hrun).
  cbv zeta in Hrun.
  pose proof (Hclaim ReadOnlyBin _ _ _ _ _ _ _ _ _ _ "tile"
                (ObjNode (strip_node sample_root) (w_heap w1)) [] None false
                Hrun) as Hc.
  cbn [w_trace] in Hc. rewrite last_snoc in Hc.
  specialize (Hc eq_refl). discriminate Hc.
Qed.

(** C2, as the code has it. On a well-formed graph [writeNode] runs to its
    end and returns [true], whatever the cache bin answers: the last thing
    it does is the write of the sanitized graph under the caller's key, and
    the result of that write, like those of the image writes before it, is
    not looked at. *)
Theorem writeNode_returns_true {B : Type} `{CacheBin B}
    (hashString : string -> N) (key : string) (node : Node)
    (metadata : Config) (writeOptions : option (Options B)) (w : World B) :
  wf_heap (w_heap w) ->
  node_ok (w_heap w) node = true ->
  exists w1 w',
    writeNode hashString key node metadata writeOptions w
    = Some ((true, strip_node node), w')
    /\ w_heap w' = w_heap w1
    /\ w_bin w'
       = snd (write (w_bin w1) key (ObjNode (strip_node node) (w_heap w1))
                    metadata writeOptions)
    /\ w_trace w'
       = (w_trace w1
          ++ [EvWrite key (ObjNode (strip_node node) (w_heap w1)) metadata
                writeOptions
                (fst (write (w_bin w1) key
                            (ObjNode (strip_node node) (w_heap w1))
                            metadata writeOptions))])%list.
Proof.
  intros Hwf Hok.
  destruct (writeNode_run hashString key node metadata writeOptions w Hwf Hok)
    as (w1 & Hrun).
  cbv zeta in Hrun. exists w1. eexists. split; [exact Hrun|].
  repeat split.
Qed.

Lemma writeNode_returns_true_witness :
  wf_heap (w_heap sample_graph_world_read_only)
  /\ node_ok (w_heap sample_graph_world_read_only) sample_root = true
  /\ exists w1 w',
       writeNode sample_hash "tile" sample_root [] None
                 sample_graph_world_read_only
       = Some ((true, strip_node sample_root), w')
       /\ w_trace w'
          = (w_trace w1
             ++ [EvWrite "tile" (ObjNode (strip_node sample_root) (w_heap w1))
                   [] None false])%list.
Proof.
  split; [exact sample_heap_wf|]. split; [reflexivity|].
  destruct (writeNode_returns_true sample_hash "tile" sample_root [] None
              sample_graph_world_read_only sample_heap_wf eq_refl)
    as (w1 & w' & Hrun & _ & _ & Htrace).
  exists w1, w'. split; [exact Hrun | exact Htrace].
Defined.

(** * Further properties *)

(** ** Cache keys and the names made of them *)

Lemma append_inj_l (p a b : string) : p ++ a = p ++ b -> a = b.
Proof.
  induction p as [|c p IH]; [easy|].
  rewrite !append_cons. intros [= E]. auto.
Qed.

(** X1. Two paths get the same cache key exactly when their hashes are
    equal: the key adds no collision of its own to those of [hashString]. *)
Theorem cache_keys_collide_as_hashes (hashString : string -> N)
    (path1 path2 : string) :
  WR.cacheKeyOf hashString path1 = WR.cacheKeyOf hashString path2
  <-> hashString path1 = hashString path2.
Proof.
  unfold WR.cacheKeyOf. split.
  - intros E. apply append_inj_l in E. now apply hex_inj.
  - now intros ->.
Qed.

Lemma marker_has_no_dot :
  Str.find_last_of Str.is_dot "osgearth_cachebin" = None
  /\ Str.find_last_of Str.is_path_separator "osgearth_cachebin" = None.
Proof. split; reflexivity. Qed.

(** The name given to an image is recognised by the pseudoloader, which
    recovers the cache key from it. *)
Lemma renamed_name_round_trip (hashString : string -> N) (path : string) :
  let name := WR.cacheKeyOf hashString path ++ ".osgearth_cachebin" in
  getLowerCaseFileExtension name = CACHEBIN_EXTENSION
  /\ getNameLessExtension name = WR.cacheKeyOf hashString path.
Proof.
  cbv zeta. unfold getLowerCaseFileExtension.
  destruct (extension_of_app (WR.cacheKeyOf hashString path)
              "osgearth_cachebin" (proj1 marker_has_no_dot)
              (proj2 marker_has_no_dot)) as [Hext Hname].
  change (WR.cacheKeyOf hashString path ++ ".osgearth_cachebin")
    with (WR.cacheKeyOf hashString path ++ String "." "osgearth_cachebin").
  rewrite Hext, Hname. split; reflexivity.
Qed.

(** What the image entry point of the pseudoloader answers for the name
    of a renamed image. *)
Lemma readImage_of_renamed {B : Type} `{CacheBin B}
    (hashString : string -> N) (img : Image)
    (readOptions : option (Options B)) (bin : B) :
  CacheBin_get readOptions = Some bin ->
  fst (PL.readImage (img_fileName (renamed hashString img)) readOptions)
  = (if succeeded (readImage bin
                     (WR.cacheKeyOf hashString (img_fileName img)) readOptions)
     then PL.of_object
            (getImage (readImage bin
                         (WR.cacheKeyOf hashString (img_fileName img))
                         readOptions))
     else PL.of_status PL.FILE_NOT_FOUND).
Proof.
  intros Hbin.
  destruct (renamed_name_round_trip hashString (img_fileName img))
    as [Hext Hname].
  change (img_fileName (renamed hashString img))
    with (WR.cacheKeyOf hashString (img_fileName img) ++ ".osgearth_cachebin").
  unfold PL.readImage.
  rewrite (proj2 (not_handled_extension_dec _) Hext), Hbin, Hname.
  reflexivity.
Qed.

(** X2. Whatever the path and its hash, the file name the externalizer
    gives an image is one the pseudoloader handles, and the key the
    pseudoloader then asks the cache bin for, through [readImage] only, is
    the key the externalizer wrote the image under. *)
Theorem renamed_reference_resolves_to_its_key {B : Type} `{CacheBin B}
    (hashString : string -> N) (img : Image)
    (readOptions : option (Options B)) (bin : B) :
  CacheBin_get readOptions = Some bin ->
  let key := WR.cacheKeyOf hashString (img_fileName img) in
  let name := img_fileName (renamed hashString img) in
  getLowerCaseFileExtension name = CACHEBIN_EXTENSION
  /\ getNameLessExtension name = key
  /\ filter (fun e => is_bin_call e = true) (snd (PL.readImage name readOptions))
     = [EvReadImage key]
  /\ fst (PL.readImage name readOptions)
     = (if succeeded (readImage bin key readOptions)
        then PL.of_object (getImage (readImage bin key readOptions))
        else PL.of_status PL.FILE_NOT_FOUND).
Proof.
  intros Hbin key name.
  destruct (renamed_name_round_trip hashString (img_fileName img))
    as [Hext Hname]. fold key in Hext, Hname.
  change name with (key ++ ".osgearth_cachebin").
  split; [exact Hext|]. split; [exact Hname|].
  unfold PL.readImage.
  rewrite (proj2 (not_handled_extension_dec _) Hext), Hbin, Hname.
  split; reflexivity.
Qed.

Lemma renamed_reference_resolves_to_its_key_witness :
  CacheBin_get sample_readOptions = Some sample_bin
  /\ getNameLessExtension (img_fileName (renamed scenario_hash tex_png))
     = "i_a1b2c3"
  /\ filter (fun e => is_bin_call e = true)
       (snd (PL.readImage (img_fileName (renamed scenario_hash tex_png))
                          sample_readOptions))
     = [EvReadImage "i_a1b2c3"].
Proof.
  split; [reflexivity|].
  destruct (renamed_reference_resolves_to_its_key scenario_hash tex_png
              sample_readOptions sample_bin eq_refl) as (_ & Hk & Hc & _).
  split; [exact Hk | exact Hc].
Defined.

(** X3. Round trip through the cache: when the visit of an image whose
    name lacks the prefix writes the image with success, and the bin gives
    back under that key what was written, then loading the image's new file
    name through the pseudoloader, with the bin in the read options, yields
    FILE_LOADED with the image as it is in the graph after the visit: same
    pixel data, the new name, the EXTERNAL_FILE hint. *)
Theorem externalized_image_loads_back {B : Type} `{CacheBin B}
    (hashString : string -> N) (writeOptions readOptions : option (Options B))
    (w : World B) (ip : ptr) (img : Image) :
  h_images (w_heap w) !! ip = Some img ->
  startsWith (img_fileName img) IMAGE_PREFIX = false ->
  let key := WR.cacheKeyOf hashString (img_fileName img) in
  let written := ObjImage (renamed hashString img) in
  let r := write (w_bin w) key written [] (Some (image_dbo writeOptions)) in
  getRecordStatus (w_bin w) key <> STATUS_OK ->
  fst r = true ->
  readImage (snd r) key readOptions = mkReadResult RESULT_OK (Some written) ->
  CacheBin_get readOptions = Some (snd r) ->
  exists w' img',
    WR.apply_Image hashString writeOptions ip w = Some (tt, w')
    /\ w_bin w' = snd r
    /\ h_images (w_heap w') !! ip = Some img'
    /\ img_data img' = img_data img
    /\ fst (PL.readImage (img_fileName img') readOptions)
       = PL.mkResult PL.FILE_LOADED (Some (ObjImage img')).
Proof.
  intros Hi Hp key written r Hrs Hok Hread Hbin.
  exists (externalized hashString writeOptions ip img w),
         (renamed hashString img).
  split; [now apply apply_Image_unprefixed|].
  split.
  { unfold externalized, locked_region. cbn [w_bin snd]. fold key.
    destruct (getRecordStatus (w_bin w) key); [reflexivity | contradiction
                                               | reflexivity]. }
  split; [apply lookup_externalized|]. split; [reflexivity|].
  pose proof (readImage_of_renamed hashString img readOptions (snd r) Hbin)
    as Hres.
  rewrite Hres. fold key. rewrite Hread. reflexivity.
Qed.

Lemma MemBin_read_after_write (b : MemBin) (key : string) (img : Image)
    (meta : Config) (dbo opts : option (Options MemBin)) :
  readImage (snd (write b key (ObjImage img) meta dbo)) key opts
  = mkReadResult RESULT_OK (Some (ObjImage img)).
Proof.
  unfold write, readImage, MemBin_CacheBin. cbn [fst snd].
  now rewrite lookup_insert_eq.
Qed.

Lemma externalized_image_loads_back_witness :
  h_images (w_heap sample_world) !! 3%positive = Some tex_png
  /\ startsWith (img_fileName tex_png) IMAGE_PREFIX = false
  /\ getRecordStatus (w_bin sample_world) "i_a1b2c3" <> STATUS_OK
  /\ CacheBin_get sample_readOptions_after_write = Some sample_bin_after_write
  /\ exists w' img',
       WR.apply_Image scenario_hash None 3%positive sample_world
       = Some (tt, w')
       /\ h_images (w_heap w') !! 3%positive = Some img'
       /\ img_data img' = [7%N]
       /\ fst (PL.readImage (img_fileName img')
                            sample_readOptions_after_write)
          = PL.mkResult PL.FILE_LOADED (Some (ObjImage img')).
Proof.
  assert (Hrs : getRecordStatus (w_bin sample_world) "i_a1b2c3" <> STATUS_OK)
    by discriminate.
  split; [reflexivity|]. split; [reflexivity|]. split; [exact Hrs|].
  split; [reflexivity|].
  destruct (externalized_image_loads_back scenario_hash None
              sample_readOptions_after_write sample_world 3%positive tex_png
              eq_refl eq_refl Hrs eq_refl
              (MemBin_read_after_write _ _ _ _ _ _) eq_refl)
    as (w' & img' & Hrun & _ & Hi & Hd & Hload).
  exists w', img'. repeat split; assumption.
Defined.

(** ** Runs that return: composing what each step may do *)

Local Open Scope list_scope.

Lemma bind_inv {S A C : Type} (c : M S A) (k : A -> M S C) (s s'' : S)
    (b : C) :
  bind c k s = Some (b, s'') ->
  exists a s', c s = Some (a, s') /\ k a s' = Some (b, s'').
Proof.
  unfold bind. destruct (c s) as [[a s']|]; [|discriminate]. eauto.
Qed.

Section Steps.
Context {S : Type}.
Variable R : S -> S -> Prop.
Hypothesis R_refl : forall s, R s s.
Hypothesis R_trans : forall s1 s2 s3, R s1 s2 -> R s2 s3 -> R s1 s3.

Lemma steps_ret {A : Type} (a : A) : steps R (ret a).
Proof. intros s b s' [= _ <-]. apply R_refl. Qed.

Lemma steps_fail {A : Type} : steps R (fail (A := A)).
Proof. intros s b s'. discriminate. Qed.

Lemma steps_lift_option {A : Type} (o : option A) : steps R (lift_option o).
Proof. destruct o; [apply steps_ret | apply steps_fail]. Qed.

Lemma steps_bind {A C : Type} (c : M S A) (k : A -> M S C) :
  steps R c -> (forall a, steps R (k a)) -> steps R (bind c k).
Proof.
  intros Hc Hk s b s'' E. destruct (bind_inv _ _ _ _ _ E) as (a & s' & E1 & E2).
  apply (R_trans _ s'); [now apply (Hc s a) | now apply (Hk a s' b)].
Qed.

Lemma steps_when (b : bool) (c : M S unit) : steps R c -> steps R (when b c).
Proof. intros Hc. destruct b; [exact Hc | apply steps_ret]. Qed.

Lemma steps_mapM {A C : Type} (f : A -> M S C) (l : list A) :
  (forall x, steps R (f x)) -> steps R (mapM f l).
Proof.
  intros Hf. induction l as [|x l IH]; [apply steps_ret|].
  cbn [mapM]. apply steps_bind; [apply Hf|]. intros y.
  apply steps_bind; [exact IH|]. intros ys. apply steps_ret.
Qed.

Lemma steps_forM_ {A : Type} (f : A -> M S unit) (l : list A) :
  (forall x, steps R (f x)) -> steps R (forM_ l f).
Proof.
  intros Hf. induction l as [|x l IH]; [apply steps_ret|].
  cbn [forM_]. apply steps_bind; [apply Hf | intros _; exact IH].
Qed.

End Steps.

(** What a loop returns, element by element. *)
Lemma mapM_results {S A C : Type} (Q : A -> C -> Prop) (f : A -> M S C)
    (l : list A) :
  (forall x s y s', f x s = Some (y, s') -> Q x y) ->
  forall s ys s', mapM f l s = Some (ys, s') -> Forall2 Q l ys.
Proof.
  intros Hf. induction l as [|x l IH]; intros s ys s' E.
  - injection E as <- _. constructor.
  - cbn [mapM] in E. destruct (bind_inv _ _ _ _ _ E) as (y & s1 & E1 & E2).
    destruct (bind_inv _ _ _ _ _ E2) as (ys' & s2 & E3 & E4).
    injection E4 as <- _. constructor; [now apply (Hf x s y s1)|].
    now apply (IH s1 ys' s2).
Qed.

(** ** PrepareForCaching: the frame of a run *)

Lemma image_stripped_refl (i : Image) : image_stripped i i.
Proof. repeat split. now left. Qed.

Lemma image_stripped_trans (i1 i2 i3 : Image) :
  image_stripped i1 i2 -> image_stripped i2 i3 -> image_stripped i1 i3.
Proof.
  intros (N1 & H1 & D1 & U1) (N2 & H2 & D2 & U2).
  repeat split; try congruence.
  destruct U2 as [U2 | U2]; [rewrite U2; exact U1 | now right].
Qed.

Lemma attr_stripped_refl (a : StateAttribute) : attr_stripped a a.
Proof.
  split; [now left|]. destruct (sa_texture a); constructor. easy.
Qed.

Lemma attr_stripped_trans (a1 a2 a3 : StateAttribute) :
  attr_stripped a1 a2 -> attr_stripped a2 a3 -> attr_stripped a1 a3.
Proof.
  intros [U1 T1] [U2 T2]. split.
  - destruct U2 as [U2 | U2]; [rewrite U2; exact U1 | now right].
  - destruct T1 as [t1 t2 [I1 C1] |]; inversion T2 as [t2' t3 [I2 C2] |];
      subst; constructor. split; congruence.
Qed.

Lemma same_slot_refl e : same_slot e e.
Proof. split; reflexivity. Qed.

Lemma same_slot_trans e1 e2 e3 :
  same_slot e1 e2 -> same_slot e2 e3 -> same_slot e1 e3.
Proof. intros [K1 O1] [K2 O2]. split; congruence. Qed.

Lemma same_slots_refl (units : list AttributeList) :
  Forall2 (Forall2 same_slot) units units.
Proof.
  apply Forall2_same_length_lookup. split; [reflexivity|].
  intros i b b' Hb Hb'. rewrite Hb in Hb'. injection Hb' as <-.
  apply Forall2_same_length_lookup. split; [reflexivity|].
  intros j e e' He He'. rewrite He in He'. injection He' as <-.
  apply same_slot_refl.
Qed.

Lemma stateSet_stripped_refl (ss : StateSet) : stateSet_stripped ss ss.
Proof.
  split; [reflexivity|]. split; [now left | apply same_slots_refl].
Qed.

Lemma stateSet_stripped_trans (s1 s2 s3 : StateSet) :
  stateSet_stripped s1 s2 -> stateSet_stripped s2 s3 ->
  stateSet_stripped s1 s3.
Proof.
  intros (P1 & U1 & T1) (P2 & U2 & T2). split; [congruence|]. split.
  - destruct U2 as [U2 | U2]; [rewrite U2; exact U1 | now right].
  - eapply Forall2_trans; [|exact T1|exact T2].
    intros b1 b2 b3 H12 H23.
    eapply Forall2_trans; [|exact H12|exact H23].
    intros e1 e2 e3. apply same_slot_trans.
Qed.

Lemma option_Forall2_refl' {A : Type} (R : A -> A -> Prop) (o : option A) :
  (forall x, R x x) -> option_Forall2 R o o.
Proof. intros HR. destruct o; constructor. apply HR. Qed.

Lemma option_Forall2_trans' {A : Type} (R : A -> A -> Prop)
    (o1 o2 o3 : option A) :
  (forall x y z, R x y -> R y z -> R x z) ->
  option_Forall2 R o1 o2 -> option_Forall2 R o2 o3 -> option_Forall2 R o1 o3.
Proof.
  intros HR H12 H23. destruct H12 as [x y Hxy|];
    inversion H23 as [y' z Hyz|]; subst; constructor. eauto.
Qed.

Lemma only_stripped_refl (h : Heap) : only_stripped h h.
Proof.
  split; [|split].
  - intros p. apply option_Forall2_refl'. apply stateSet_stripped_refl.
  - intros p a Ha. exists a. split; [exact Ha | apply attr_stripped_refl].
  - intros p. apply option_Forall2_refl'. apply image_stripped_refl.
Qed.

Lemma only_stripped_trans (h1 h2 h3 : Heap) :
  only_stripped h1 h2 -> only_stripped h2 h3 -> only_stripped h1 h3.
Proof.
  intros (S1 & A1 & I1) (S2 & A2 & I2). split; [|split].
  - intros p. eapply option_Forall2_trans'; [|apply S1|apply S2].
    apply stateSet_stripped_trans.
  - intros p a Ha. destruct (A1 _ _ Ha) as (a2 & Ha2 & K2).
    destruct (A2 _ _ Ha2) as (a3 & Ha3 & K3).
    exists a3. split; [exact Ha3|]. now apply (attr_stripped_trans a a2).
  - intros p. eapply option_Forall2_trans'; [|apply I1|apply I2].
    apply image_stripped_trans.
Qed.

Lemma only_stripped_set_attr (h : Heap) (p : ptr) (a' : StateAttribute) :
  (forall a, h_attrs h !! p = Some a -> attr_stripped a a') ->
  only_stripped h (set_attr p a' h).
Proof.
  intros Ha. split; [|split]; simpl.
  - intros q. apply option_Forall2_refl'. apply stateSet_stripped_refl.
  - intros q a Hq. destruct (decide (p = q)) as [<- | Hne].
    + exists a'. rewrite lookup_insert_eq. auto.
    + exists a. rewrite lookup_insert_ne by assumption.
      split; [exact Hq | apply attr_stripped_refl].
  - intros q. apply option_Forall2_refl'. apply image_stripped_refl.
Qed.

Lemma only_stripped_set_image (h : Heap) (p : ptr) (i i' : Image) :
  h_images h !! p = Some i -> image_stripped i i' ->
  only_stripped h (set_image p i' h).
Proof.
  intros Hi Hs. split; [|split]; simpl.
  - intros q. apply option_Forall2_refl'. apply stateSet_stripped_refl.
  - intros q a Hq. exists a. split; [exact Hq | apply attr_stripped_refl].
  - intros q. destruct (decide (p = q)) as [<- | Hne].
    + rewrite lookup_insert_eq, Hi. now constructor.
    + rewrite lookup_insert_ne by assumption.
      apply option_Forall2_refl'. apply image_stripped_refl.
Qed.

Lemma only_stripped_set_stateSet (h h2 : Heap) (p : ptr) (ss ss' : StateSet) :
  only_stripped h h2 ->
  h_stateSets h !! p = Some ss -> stateSet_stripped ss ss' ->
  only_stripped h (set_stateSet p ss' h2).
Proof.
  intros (S2 & A2 & I2) Hss Hs. split; [|split]; simpl; [|exact A2|exact I2].
  intros q. destruct (decide (p = q)) as [<- | Hne].
  - rewrite lookup_insert_eq, Hss. now constructor.
  - rewrite lookup_insert_ne by assumption. apply S2.
Qed.

Section PrepareForCachingFrame.
Context {B : Type}.

Lemma prep_frame_refl (s : PC.State B) : prep_frame s s.
Proof.
  split; [apply only_stripped_refl|]. split; [reflexivity|].
  split; [|reflexivity]. exists []. now rewrite app_nil_r.
Qed.

Lemma prep_frame_trans (s1 s2 s3 : PC.State B) :
  prep_frame s1 s2 -> prep_frame s2 s3 -> prep_frame s1 s3.
Proof.
  intros (H1 & B1 & (e1 & T1 & F1) & C1) (H2 & B2 & (e2 & T2 & F2) & C2).
  split; [now apply (only_stripped_trans _ (hp s2))|].
  split; [congruence|]. split; [|congruence].
  exists (e1 ++ e2). rewrite T2, T1, app_assoc. split; [reflexivity|].
  now apply Forall_app.
Qed.

(** A change of the store alone, or of the counter of cleared user data
    alone, is within the frame. *)
Lemma prep_frame_heap (s : PC.State B) (v : PC.Visitor) (h : Heap) :
  PC._textures v = PC._textures (PC.this s) ->
  only_stripped (hp s) h ->
  prep_frame s (PC.mkState v (set_heap h (PC.world s))).
Proof.
  intros Hv Hh. split; [exact Hh|]. split; [reflexivity|].
  split; [|exact Hv]. exists []. now rewrite app_nil_r.
Qed.

Lemma counted_textures (u : option UserDataContainer) (v : PC.Visitor) :
  PC._textures (counted u v) = PC._textures v.
Proof. unfold counted. now destruct (bool_decide _). Qed.

Lemma applyUserData_eq (u : option UserDataContainer) (s : PC.State B) :
  PC.applyUserData u s
  = Some (None, PC.mkState (counted u (PC.this s)) (PC.world s)).
Proof.
  unfold PC.applyUserData, counted, bind, when, modify, ret.
  destruct (bool_decide _); [reflexivity|]. now destruct s.
Qed.

Lemma set_heap_same (w : World B) : set_heap (w_heap w) w = w.
Proof. now destruct w. Qed.

Lemma steps_applyUserData (u : option UserDataContainer) :
  steps prep_frame (PC.applyUserData (B := B) u).
Proof.
  intros s a s' E. rewrite applyUserData_eq in E. injection E as _ <-.
  rewrite <- (set_heap_same (PC.world s)).
  apply prep_frame_heap; [apply counted_textures | apply only_stripped_refl].
Qed.

Lemma steps_applyUserData_attr (p : ptr) :
  steps prep_frame (PC.applyUserData_attr (B := B) p).
Proof.
  intros s x s' E. unfold PC.applyUserData_attr, PC.heap in E.
  unfold bind at 1 in E. unfold bind at 1 in E.
  destruct (h_attrs (w_heap (PC.world s)) !! p) as [a|] eqn:Ea;
    [|discriminate].
  unfold lift_option, ret at 1 in E. unfold bind in E.
  rewrite applyUserData_eq in E. injection E as _ <-.
  apply prep_frame_heap; [apply counted_textures|].
  apply only_stripped_set_attr. intros a0 Ha0. unfold hp in Ha0.
  rewrite Ea in Ha0. injection Ha0 as <-. split; [now right|].
  cbn [sa_texture]. destruct (sa_texture a); constructor. easy.
Qed.

Lemma steps_applyUserData_image (p : ptr) :
  steps prep_frame (PC.applyUserData_image (B := B) p).
Proof.
  intros s x s' E. unfold PC.applyUserData_image, PC.heap in E.
  unfold bind at 1 in E. unfold bind at 1 in E.
  destruct (h_images (w_heap (PC.world s)) !! p) as [i|] eqn:Ei;
    [|discriminate].
  unfold lift_option, ret at 1 in E. unfold bind in E.
  rewrite applyUserData_eq in E. injection E as _ <-.
  apply prep_frame_heap; [apply counted_textures|].
  apply (only_stripped_set_image _ _ i); [exact Ei|].
  repeat split. now right.
Qed.

Lemma steps_applyUserData_stateSet (p : ptr) :
  steps prep_frame (PC.applyUserData_stateSet (B := B) p).
Proof.
  intros s x s' E. unfold PC.applyUserData_stateSet, PC.heap in E.
  unfold bind at 1 in E. unfold bind at 1 in E.
  destruct (h_stateSets (w_heap (PC.world s)) !! p) as [ss|] eqn:Es;
    [|discriminate].
  unfold lift_option, ret at 1 in E. unfold bind in E.
  rewrite applyUserData_eq in E. injection E as _ <-.
  apply prep_frame_heap; [apply counted_textures|].
  apply (only_stripped_set_stateSet _ _ _ ss);
    [apply only_stripped_refl | exact Es |].
  split; [reflexivity|]. split; [now right | apply same_slots_refl].
Qed.

End PrepareForCachingFrame.

Section StepsOverLists.
Context {S : Type}.
Variable R : S -> S -> Prop.
Hypothesis R_refl : forall s, R s s.
Hypothesis R_trans : forall s1 s2 s3, R s1 s2 -> R s2 s3 -> R s1 s3.

Lemma steps_mapM_Forall {A C : Type} (f : A -> M S C) (l : list A) :
  Forall (fun x => steps R (f x)) l -> steps R (mapM f l).
Proof.
  induction 1 as [|x l Hx _ IH]; [now apply steps_ret|].
  cbn [mapM]. apply steps_bind; [assumption | exact Hx |]. intros y.
  apply steps_bind; [assumption | exact IH |]. intros ys. now apply steps_ret.
Qed.

Lemma steps_forM__Forall {A : Type} (f : A -> M S unit) (l : list A) :
  Forall (fun x => steps R (f x)) l -> steps R (forM_ l f).
Proof.
  induction 1 as [|x l Hx _ IH]; [now apply steps_ret|].
  cbn [forM_]. apply steps_bind; [assumption | exact Hx | intros _; exact IH].
Qed.

End StepsOverLists.

Section PrepareForCachingFrameOfVisits.
Context {B : Type}.

Local Abbreviation framed := (steps (prep_frame (B := B))).

Lemma framed_bind {A C : Type} (c : M (PC.State B) A)
    (k : A -> M (PC.State B) C) :
  framed c -> (forall a, framed (k a)) -> framed (bind c k).
Proof. apply steps_bind. apply prep_frame_trans. Qed.

Lemma framed_ret {A : Type} (a : A) : framed (ret a).
Proof. apply steps_ret. apply prep_frame_refl. Qed.

Lemma steps_update_heap_fresh (q : ptr) (a : StateAttribute)
    (s : PC.State B) :
  h_attrs (hp s) !! q = None ->
  prep_frame s (PC.mkState (PC.this s)
                  (set_heap (set_attr q a (hp s)) (PC.world s))).
Proof.
  intros Hq. apply prep_frame_heap; [reflexivity|].
  apply only_stripped_set_attr. intros a0 Ha0. congruence.
Qed.

Lemma steps_clone (p : ptr) : framed (PC.clone p).
Proof.
  intros s x s' E. unfold PC.clone, PC.heap in E.
  unfold bind at 1 in E. unfold bind at 1 in E.
  destruct (h_attrs (w_heap (PC.world s)) !! p) as [a|] eqn:Ea;
    [|discriminate].
  unfold lift_option, ret at 1 in E.
  destruct (sa_texture a) as [t|]; [destruct (tex_clonable t)|].
  - unfold bind, PC.update_heap, modify, ret in E. injection E as _ <-.
    apply steps_update_heap_fresh. apply not_elem_of_dom. apply is_fresh.
  - injection E as _ <-. apply prep_frame_refl.
  - injection E as _ <-. apply prep_frame_refl.
Qed.

Lemma steps_getImages (q : ptr) : framed (PC.getImages q).
Proof.
  intros s x s' E. unfold PC.getImages, PC.heap, bind, lift_option in E.
  destruct (h_attrs (w_heap (PC.world s)) !! q); [|discriminate].
  injection E as _ <-. apply prep_frame_refl.
Qed.

Lemma steps_log_clone_warning : framed (PC.log clone_warning).
Proof.
  intros s x s' E. injection E as _ <-.
  split; [apply only_stripped_refl|]. split; [reflexivity|].
  split; [|reflexivity]. exists [clone_warning]. split; [reflexivity|].
  now constructor.
Qed.

Lemma steps_strip_images (imgs : list (option ptr)) :
  framed (forM_ imgs (fun image : option ptr =>
            match image with
            | Some ip => PC.applyUserData_image ip
            | None => ret tt
            end)).
Proof.
  apply steps_forM_; [apply prep_frame_refl | apply prep_frame_trans|].
  intros [ip|]; [apply steps_applyUserData_image | apply framed_ret].
Qed.

Lemma steps_clone_branch (j : TypeMemberPair * RefAttributePair) (sa : ptr) :
  framed (texClone <- PC.clone sa ;;
          match texClone with
          | Some q =>
              imgs <- PC.getImages q ;;
              forM_ imgs (fun image : option ptr =>
                match image with
                | Some ip => PC.applyUserData_image ip
                | None => ret tt
                end) ;;;
              PC.applyUserData_attr q ;;;
              ret (fst j, (Some q, snd (snd j)))
          | None => PC.log clone_warning ;;; ret j
          end).
Proof.
  apply framed_bind; [apply steps_clone|]. intros [q|].
  - apply framed_bind; [apply steps_getImages|]. intros imgs.
    apply framed_bind; [apply steps_strip_images|]. intros _.
    apply framed_bind; [apply steps_applyUserData_attr|]. intros _.
    apply framed_ret.
  - apply framed_bind; [apply steps_log_clone_warning|]. intros _.
    apply framed_ret.
Qed.

(** The visit of one entry of a texture unit stays within the frame. *)
Lemma steps_apply_textureSlot (e : TypeMemberPair * RefAttributePair) :
  framed (PC.apply_textureSlot e).
Proof.
  intros s e' s' E. unfold PC.apply_textureSlot in E.
  destruct (fst (snd e)) as [p|].
  2:{ injection E as _ <-. apply prep_frame_refl. }
  unfold PC.heap in E. unfold bind at 1 in E. unfold bind at 1 in E.
  destruct (h_attrs (w_heap (PC.world s)) !! p) as [a|] eqn:Ea;
    [|discriminate].
  unfold lift_option, ret at 1 in E.
  destruct (sa_texture a) as [tex|] eqn:Et.
  - destruct (bind_inv _ _ _ _ _ E) as (x & s1 & E1 & E2).
    injection E1 as _ <-.
    eapply prep_frame_trans; [|exact (steps_clone_branch e p _ _ _ E2)].
    apply prep_frame_heap; [reflexivity|].
    apply only_stripped_set_attr. intros a0 Ha0. unfold hp in Ha0.
    rewrite Ea in Ha0. injection Ha0 as <-. split; [now left|].
    rewrite Et. cbn [sa_texture]. constructor. easy.
  - destruct (bind_inv _ _ _ _ _ E) as (x & s1 & E1 & E2).
    injection E2 as _ <-. exact (steps_applyUserData_attr p _ _ _ E1).
Qed.

(** An entry keeps its key and its override value. *)
Lemma apply_textureSlot_same_slot (e e' : TypeMemberPair * RefAttributePair)
    (s s' : PC.State B) :
  PC.apply_textureSlot e s = Some (e', s') -> same_slot e e'.
Proof.
  intros E. unfold PC.apply_textureSlot in E.
  destruct (fst (snd e)) as [p|].
  2:{ injection E as <- _. apply same_slot_refl. }
  destruct (bind_inv _ _ _ _ _ E) as (h & s0 & _ & E0). clear E.
  destruct (bind_inv _ _ _ _ _ E0) as (a & s1 & _ & E1). clear E0.
  destruct (sa_texture a) as [tex|].
  - destruct (bind_inv _ _ _ _ _ E1) as (x & s2 & _ & E2). clear E1.
    destruct (bind_inv _ _ _ _ _ E2) as ([q|] & s3 & _ & E3); clear E2.
    + destruct (bind_inv _ _ _ _ _ E3) as (imgs & s4 & _ & E4). clear E3.
      destruct (bind_inv _ _ _ _ _ E4) as (y & s5 & _ & E5). clear E4.
      destruct (bind_inv _ _ _ _ _ E5) as (z & s6 & _ & E6). clear E5.
      injection E6 as <- _. split; reflexivity.
    + destruct (bind_inv _ _ _ _ _ E3) as (y & s4 & _ & E4). clear E3.
      injection E4 as <- _. apply same_slot_refl.
  - destruct (bind_inv _ _ _ _ _ E1) as (x & s2 & _ & E2). clear E1.
    injection E2 as <- _. apply same_slot_refl.
Qed.

(** The visit of a state set stays within the frame. *)
Lemma steps_apply_StateSet (ssp : option ptr) : framed (PC.apply_StateSet ssp).
Proof.
  intros s x s' E. destruct ssp as [p|]; cbn [PC.apply_StateSet] in E.
  2:{ injection E as _ <-. apply prep_frame_refl. }
  unfold PC.heap in E. unfold bind at 1 in E. unfold bind at 1 in E.
  destruct (h_stateSets (w_heap (PC.world s)) !! p) as [ss|] eqn:Ess;
    [|discriminate].
  unfold lift_option, ret at 1 in E.
  destruct (bind_inv _ _ _ _ _ E) as (y & s1 & E1 & E1'). clear E.
  destruct (bind_inv _ _ _ _ _ E1') as (a & s2 & E2 & E2'). clear E1'.
  destruct (bind_inv _ _ _ _ _ E2') as (z & s3 & E3 & E4). clear E2'.
  assert (R1 : prep_frame s s1).
  { revert E1. apply steps_forM_;
      [apply prep_frame_refl | apply prep_frame_trans|].
    intros i. destruct (fst (snd i));
      [apply steps_applyUserData_attr | apply steps_fail]. }
  assert (R2 : prep_frame s1 s2).
  { revert E2. apply steps_mapM;
      [apply prep_frame_refl | apply prep_frame_trans|].
    intros b. apply steps_mapM;
      [apply prep_frame_refl | apply prep_frame_trans|].
    apply steps_apply_textureSlot. }
  assert (Hslots : Forall2 (Forall2 same_slot) (ss_textureAttributeList ss) a).
  { revert E2. apply mapM_results. intros b t b' t'.
    apply mapM_results. intros e t1 e' t1'. apply apply_textureSlot_same_slot. }
  pose proof (prep_frame_trans _ _ _ R1 R2) as (H2 & B2 & T2 & C2).
  injection E3 as _ <-.
  eapply prep_frame_trans; [|exact (steps_applyUserData_stateSet p _ _ _ E4)].
  split; [|split; [exact B2 | split; [exact T2 | exact C2]]].
  apply (only_stripped_set_stateSet _ _ _ ss); [exact H2 | exact Ess|].
  split; [reflexivity|]. split; [now left | exact Hslots].
Qed.

Lemma steps_apply_Drawable (d : option Drawable) : framed (PC.apply_Drawable d).
Proof.
  destruct d as [dr|]; [|apply framed_ret]. cbn [PC.apply_Drawable].
  apply framed_bind; [apply steps_apply_StateSet|]. intros _.
  apply framed_bind; [apply steps_applyUserData|]. intros u. apply framed_ret.
Qed.

(** The visit of a graph stays within the frame. *)
Lemma steps_accept (n : Node) : framed (PC.accept n).
Proof.
  induction n as [udc ss children IH | udc ss drawables]
    using Node_induction.
  - rewrite accept_Group.
    apply framed_bind; [apply steps_apply_StateSet|]. intros _.
    apply framed_bind; [apply steps_applyUserData|]. intros u.
    apply framed_bind; [|intros cs; apply framed_ret].
    apply steps_mapM_Forall;
      [apply prep_frame_refl | apply prep_frame_trans | exact IH].
  - cbn [PC.accept].
    apply framed_bind.
    { apply steps_mapM; [apply prep_frame_refl | apply prep_frame_trans|].
      apply steps_apply_Drawable. }
    intros ds. apply framed_bind; [apply steps_apply_StateSet|]. intros _.
    apply framed_bind; [apply steps_applyUserData|]. intros u. apply framed_ret.
Qed.

End PrepareForCachingFrameOfVisits.

(** ** PrepareForCaching over a graph: result, effects, store *)

(** X4. On a well-formed graph PrepareForCaching runs to its end and leaves
    the graph it was given with the user data containers of all its nodes
    and drawables detached, and with the same children, drawables and state
    set pointers; the store is well formed again, for the graph as it now
    is. *)
Theorem sanitizer_detaches_node_user_data {B : Type} (s : PC.State B)
    (root : Node) :
  wf_heap (hp s) ->
  node_ok (hp s) root = true ->
  exists s',
    PC.accept root s = Some (strip_node root, s')
    /\ wf_heap (hp s')
    /\ node_ok (hp s') (strip_node root) = true.
Proof.
  intros Hwf Hok. destruct (accept_run root s Hwf Hok) as (s' & E & W & G).
  exists s'. split; [exact E|]. split; [exact W|].
  rewrite node_ok_strip. apply (node_ok_grows (hp s)); [|exact Hok].
  now apply sanitized_from_grows.
Qed.

Lemma sanitizer_detaches_node_user_data_witness :
  wf_heap (hp sample_state_with_user_data)
  /\ node_ok (hp sample_state_with_user_data) sample_root_with_user_data = true
  /\ exists s',
       PC.accept sample_root_with_user_data sample_state_with_user_data
       = Some (Group None None [Geode None (Some 5%positive)
                                  [Some (mkDrawable None (Some 5%positive));
                                   None]], s').
Proof.
  split; [exact sample_heap_wf|]. split; [reflexivity|].
  destruct (sanitizer_detaches_node_user_data sample_state_with_user_data
              sample_root_with_user_data sample_heap_wf eq_refl)
    as (s' & E & _). exists s'. exact E.
Defined.

(** X5. PrepareForCaching never touches the cache bin; all it adds to the
    trace is the warning of a clone that failed; and its [_textures] counter
    is never counted up: it is after the run what it was before. *)
Theorem sanitizer_leaves_bin_and_counter {B : Type} (s : PC.State B)
    (root : Node) :
  wf_heap (hp s) ->
  node_ok (hp s) root = true ->
  exists root' s',
    PC.accept root s = Some (root', s')
    /\ w_bin (PC.world s') = w_bin (PC.world s)
    /\ (exists evs,
          w_trace (PC.world s') = w_trace (PC.world s) ++ evs
          /\ Forall (fun e => e = clone_warning) evs)
    /\ PC._textures (PC.this s') = PC._textures (PC.this s).
Proof.
  intros Hwf Hok. destruct (accept_run root s Hwf Hok) as (s' & E & _).
  exists (strip_node root), s'. split; [exact E|].
  exact (proj2 (steps_accept root _ _ _ E)).
Qed.

Lemma sanitizer_leaves_bin_and_counter_witness :
  wf_heap (hp sample_state_with_user_data)
  /\ node_ok (hp sample_state_with_user_data) sample_root_with_user_data = true
  /\ exists root' s',
       PC.accept sample_root_with_user_data sample_state_with_user_data
       = Some (root', s')
       /\ w_bin (PC.world s') = sample_bin
       /\ PC._textures (PC.this s') = 0%N.
Proof.
  split; [exact sample_heap_wf|]. split; [reflexivity|].
  destruct (sanitizer_leaves_bin_and_counter sample_state_with_user_data
              sample_root_with_user_data sample_heap_wf eq_refl)
    as (root' & s' & E & Hb & _ & Hc).
  exists root', s'. split; [exact E|]. split; [exact Hb | exact Hc].
Defined.

(** X6. PrepareForCaching only strips: after a run every image of the
    store is still there with its file name, write hint and pixel data, and
    no image has been added; every state set is still there with its plain
    attribute list and with texture units of the same keys and override
    values, and none has been added; every attribute is still there, of the
    same kind and, for a texture, with the same images. User data is as it
    was or gone. *)
Theorem sanitizer_only_strips {B : Type} (s : PC.State B) (root : Node) :
  wf_heap (hp s) ->
  node_ok (hp s) root = true ->
  exists root' s',
    PC.accept root s = Some (root', s')
    /\ (forall p, option_Forall2 image_stripped
                    (h_images (hp s) !! p) (h_images (hp s') !! p))
    /\ (forall p, option_Forall2 stateSet_stripped
                    (h_stateSets (hp s) !! p) (h_stateSets (hp s') !! p))
    /\ (forall p a, h_attrs (hp s) !! p = Some a ->
          exists a', h_attrs (hp s') !! p = Some a' /\ attr_stripped a a').
Proof.
  intros Hwf Hok. destruct (accept_run root s Hwf Hok) as (s' & E & _).
  exists (strip_node root), s'. split; [exact E|].
  destruct (steps_accept root _ _ _ E) as ((HS & HA & HI) & _).
  split; [exact HI|]. split; [exact HS | exact HA].
Qed.

Lemma sanitizer_only_strips_witness :
  wf_heap (hp sample_state_with_user_data)
  /\ node_ok (hp sample_state_with_user_data) sample_root_with_user_data = true
  /\ exists root' s' i,
       PC.accept sample_root_with_user_data sample_state_with_user_data
       = Some (root', s')
       /\ h_images (hp s') !! 3%positive = Some i
       /\ img_fileName i = "/data/tex.png"%string
       /\ img_data i = [7%N].
Proof.
  split; [exact sample_heap_wf|]. split; [reflexivity|].
  destruct (sanitizer_only_strips sample_state_with_user_data
              sample_root_with_user_data sample_heap_wf eq_refl)
    as (root' & s' & E & HI & _).
  specialize (HI 3%positive).
  change (h_images (hp sample_state_with_user_data) !! 3%positive)
    with (Some tex_png) in HI.
  inversion HI as [i0 i (Hn & _ & Hd & _) Hi0 Hi |]. subst i0.
  exists root', s', i. repeat split; try assumption. now symmetry.
Defined.

(** ** PrepareForCaching: what is left without user data *)

Section LoopPosts.
Context {S : Type}.
Variable R : S -> S -> Prop.
Hypothesis R_refl : forall s, R s s.
Hypothesis R_trans : forall s1 s2 s3, R s1 s2 -> R s2 s3 -> R s1 s3.

Lemma steps_weaken {A : Type} (R' : S -> S -> Prop) (c : M S A) :
  (forall s s', R' s s' -> R s s') -> steps R' c -> steps R c.
Proof. intros Hw Hc s a s' E. apply Hw. exact (Hc s a s' E). Qed.

(** What a round of a loop establishes of its element, and the later rounds
    keep, holds of every element when the loop is done. *)
Lemma forM__posts {A : Type} (P : A -> S -> Prop) (f : A -> M S unit)
    (l : list A) :
  (forall x s s', R s s' -> P x s -> P x s') ->
  (forall x, steps R (f x)) ->
  (forall x s u s', f x s = Some (u, s') -> P x s') ->
  forall s u s', forM_ l f s = Some (u, s') -> Forall (fun x => P x s') l.
Proof.
  intros Hst Hf Hp. induction l as [|x l IH]; intros s u s' E; [constructor|].
  cbn [forM_] in E. destruct (bind_inv _ _ _ _ _ E) as (v & s1 & E1 & E2).
  constructor; [|exact (IH _ _ _ E2)].
  apply (Hst x s1); [|exact (Hp _ _ _ _ E1)].
  exact (steps_forM_ R R_refl R_trans f l Hf _ _ _ E2).
Qed.

Lemma mapM_posts {A C : Type} (P : C -> S -> Prop) (f : A -> M S C)
    (l : list A) :
  (forall y s s', R s s' -> P y s -> P y s') ->
  (forall x, steps R (f x)) ->
  (forall x s y s', f x s = Some (y, s') -> P y s') ->
  forall s ys s', mapM f l s = Some (ys, s') -> Forall (fun y => P y s') ys.
Proof.
  intros Hst Hf Hp. induction l as [|x l IH]; intros s ys s' E.
  - injection E as <- _. constructor.
  - cbn [mapM] in E. destruct (bind_inv _ _ _ _ _ E) as (y & s1 & E1 & E2).
    destruct (bind_inv _ _ _ _ _ E2) as (ys' & s2 & E3 & E4).
    injection E4 as <- <-. constructor; [|exact (IH _ _ _ E3)].
    apply (Hst y s1); [|exact (Hp _ _ _ _ E1)].
    exact (steps_mapM R R_refl R_trans f l Hf _ _ _ E3).
Qed.

Lemma mapM_posts_Forall {A C : Type} (P : A -> S -> Prop) (f : A -> M S C)
    (l : list A) :
  (forall x s s', R s s' -> P x s -> P x s') ->
  (forall x, steps R (f x)) ->
  Forall (fun x => forall s y s', f x s = Some (y, s') -> P x s') l ->
  forall s ys s', mapM f l s = Some (ys, s') -> Forall (fun x => P x s') l.
Proof.
  intros Hst Hf Hp. induction Hp as [|x l Hx _ IH]; intros s ys s' E;
    [constructor|].
  cbn [mapM] in E. destruct (bind_inv _ _ _ _ _ E) as (y & s1 & E1 & E2).
  destruct (bind_inv _ _ _ _ _ E2) as (ys' & s2 & E3 & E4).
  injection E4 as _ <-. constructor; [|exact (IH _ _ _ E3)].
  apply (Hst x s1); [|exact (Hx _ _ _ E1)].
  exact (steps_mapM R R_refl R_trans f l Hf _ _ _ E3).
Qed.

End LoopPosts.

Lemma Forall_flat_map_intro {A C : Type} (Q : C -> Prop) (f : A -> list C)
    (l : list A) :
  Forall (fun x => Forall Q (f x)) l -> Forall Q (flat_map f l).
Proof.
  induction 1 as [|x l Hx _ IH]; [constructor|].
  cbn [flat_map]. apply Forall_app. now split.
Qed.

Lemma image_clean_stable (h h' : Heap) (image : option ptr) :
  only_stripped h h' -> image_clean h image -> image_clean h' image.
Proof.
  intros (_ & _ & HI) Hc ip Hip. destruct (Hc ip Hip) as (i & Hi & Hu).
  specialize (HI ip). rewrite Hi in HI.
  inversion HI as [i0 i' (_ & _ & _ & Hudc) Hi0 Hi' |]. subst i0.
  exists i'. split; [now symmetry|]. destruct Hudc as [-> | ->]; easy.
Qed.

Lemma attr_clean_stable (h h' : Heap) (q : ptr) :
  only_stripped h h' -> attr_clean h q -> attr_clean h' q.
Proof.
  intros (_ & HA & _) (a & Ha & Hu).
  destruct (HA q a Ha) as (a' & Ha' & Hudc & _).
  exists a'. split; [exact Ha'|]. destruct Hudc as [-> | ->]; easy.
Qed.

Lemma slot_clean_stable (h h' : Heap) (e : TypeMemberPair * RefAttributePair) :
  only_stripped h h' -> slot_clean h e -> slot_clean h' e.
Proof.
  intros Hs Hc q Hq. destruct (Hc q Hq) as (a & Ha & Hk).
  destruct (proj1 (proj2 Hs) q a Ha) as (a' & Ha' & Hu & Ht).
  exists a'. split; [exact Ha'|].
  inversion Ht as [t t' (Hi & Hcl) Et Et' | Et Et'].
  - rewrite <- Et in Hk. rewrite Hi, Hcl.
    destruct Hk as [Hk | [Hk1 Hk2]]; [now left | right]. split.
    + destruct Hu as [-> | ->]; easy.
    + eapply Forall_impl; [exact Hk2|]. intros x. now apply image_clean_stable.
  - rewrite <- Et in Hk. destruct Hu as [-> | ->]; easy.
Qed.

Lemma image_clean_ext (h h' : Heap) (image : option ptr) :
  h_images h' = h_images h -> image_clean h image -> image_clean h' image.
Proof. intros Hi Hc ip Hip. rewrite Hi. exact (Hc ip Hip). Qed.

Lemma attr_clean_ext (h h' : Heap) (q : ptr) :
  h_attrs h' = h_attrs h -> attr_clean h q -> attr_clean h' q.
Proof. intros Ha Hc. unfold attr_clean. now rewrite Ha. Qed.

Lemma slot_clean_ext (h h' : Heap) (e : TypeMemberPair * RefAttributePair) :
  h_attrs h' = h_attrs h -> h_images h' = h_images h ->
  slot_clean h e -> slot_clean h' e.
Proof.
  intros Ha Hi Hc q Hq. destruct (Hc q Hq) as (a & Hqa & Hk).
  exists a. split; [now rewrite Ha|].
  destruct (sa_texture a) as [tex|]; [|exact Hk].
  destruct Hk as [Hk | [Hk1 Hk2]]; [now left | right]. split; [exact Hk1|].
  eapply Forall_impl; [exact Hk2|]. intros x. now apply image_clean_ext.
Qed.

Lemma stateSet_clean_stable (h h' : Heap) (p : ptr) :
  only_stripped h h' -> h_stateSets h' !! p = h_stateSets h !! p ->
  stateSet_clean h p -> stateSet_clean h' p.
Proof.
  intros Hs Hp (ss & Hss & Hu & Hpl & Hun). exists ss.
  split; [now rewrite Hp|]. split; [exact Hu|]. split.
  - eapply Forall_impl; [exact Hpl|]. intros e (q & Hq & Hc).
    exists q. split; [exact Hq|]. now apply (attr_clean_stable h).
  - eapply Forall_impl; [exact Hun|]. intros unit Hc.
    eapply Forall_impl; [exact Hc|]. intros e. now apply slot_clean_stable.
Qed.

Section PrepareForCachingClean.
Context {B : Type}.

Lemma applyUserData_image_clean (ip : ptr) (s s' : PC.State B) (u : unit) :
  PC.applyUserData_image ip s = Some (u, s') -> image_clean (hp s') (Some ip).
Proof.
  intros E. destruct (h_images (hp s) !! ip) as [i|] eqn:Hi.
  - destruct (applyUserData_image_run ip i s Hi) as (s1 & E1 & Hw).
    rewrite E1 in E. injection E as _ <-.
    intros ip' [= <-]. unfold hp. rewrite Hw. simpl.
    rewrite lookup_insert_eq. eauto.
  - unfold PC.applyUserData_image, PC.heap, bind, lift_option in E.
    unfold hp in Hi. rewrite Hi in E. discriminate.
Qed.

Lemma applyUserData_attr_clean (p : ptr) (s s' : PC.State B) (u : unit) :
  PC.applyUserData_attr p s = Some (u, s') -> attr_clean (hp s') p.
Proof.
  intros E. destruct (h_attrs (hp s) !! p) as [a|] eqn:Ha.
  - destruct (applyUserData_attr_run p a s Ha) as (s1 & E1 & Hw).
    rewrite E1 in E. injection E as _ <-.
    unfold attr_clean, hp. rewrite Hw. simpl.
    rewrite lookup_insert_eq. eauto.
  - unfold PC.applyUserData_attr, PC.heap, bind, lift_option in E.
    unfold hp in Ha. rewrite Ha in E. discriminate.
Qed.

Lemma strip_images_clean (imgs : list (option ptr)) (s s' : PC.State B)
    (u : unit) :
  forM_ imgs (fun image : option ptr =>
    match image with
    | Some ip => PC.applyUserData_image ip
    | None => ret tt
    end) s = Some (u, s') ->
  Forall (image_clean (hp s')) imgs.
Proof.
  apply (forM__posts prep_frame prep_frame_refl prep_frame_trans
           (fun image t => image_clean (hp t) image)).
  - intros x s1 s2 (Hs & _). now apply image_clean_stable.
  - intros [ip|]; [apply steps_applyUserData_image | apply framed_ret].
  - intros [ip|] s1 v s2 E; [exact (applyUserData_image_clean _ _ _ _ E)|].
    intros ip [=].
Qed.

(** The entry that the visit of an entry of a texture unit leaves is
    clean. *)
Lemma apply_textureSlot_clean (e e' : TypeMemberPair * RefAttributePair)
    (s s' : PC.State B) :
  PC.apply_textureSlot e s = Some (e', s') -> slot_clean (hp s') e'.
Proof.
  intros E. unfold PC.apply_textureSlot in E.
  destruct (fst (snd e)) as [p|] eqn:Ep.
  2:{ injection E as <- _. intros q Hq. congruence. }
  unfold PC.heap in E. unfold bind at 1 in E. unfold bind at 1 in E.
  destruct (h_attrs (w_heap (PC.world s)) !! p) as [a|] eqn:Ea;
    [|discriminate].
  unfold lift_option, ret at 1 in E.
  destruct (sa_texture a) as [tex|] eqn:Et.
  - destruct (bind_inv _ _ _ _ _ E) as (x & s1 & E1 & E2). clear E.
    assert (Ha1 : h_attrs (hp s1) !! p
                  = Some (mkSA (sa_udc a) (Some (cleared tex)))).
    { injection E1 as _ <-. unfold hp. simpl. apply lookup_insert_eq. }
    clear E1.
    destruct (bind_inv _ _ _ _ _ E2) as (texClone & s2 & E3 & E4). clear E2.
    rewrite (clone_run p _ (cleared tex) s1 Ha1 eq_refl) in E3.
    change (tex_clonable (cleared tex)) with (tex_clonable tex) in E3.
    destruct (tex_clonable tex) eqn:Ecl.
    + injection E3 as <- Es2.
      set (q := fresh (dom (h_attrs (hp s1)))) in *.
      assert (Ha2 : h_attrs (hp s2) !! q
                    = Some (mkSA (sa_udc a) (Some (cleared tex)))).
      { rewrite <- Es2. unfold hp. simpl. apply lookup_insert_eq. }
      clear Es2.
      destruct (bind_inv _ _ _ _ _ E4) as (imgs & s3 & E5 & E6). clear E4.
      rewrite (getImages_run q _ s2 Ha2) in E5. injection E5 as <- <-.
      cbn [sa_texture] in E6.
      destruct (bind_inv _ _ _ _ _ E6) as (y & s4 & E7 & E8). clear E6.
      destruct (bind_inv _ _ _ _ _ E8) as (z & s5 & E9 & E10). clear E8.
      injection E10 as <- <-.
      pose proof (steps_strip_images _ _ _ _ E7) as (Hs24 & _).
      destruct (proj1 (proj2 Hs24) q _ Ha2) as (a4 & Ha4 & _ & Ht4).
      destruct (applyUserData_attr_run q a4 s4 Ha4) as (s6 & E11 & Hw).
      rewrite E11 in E9. injection E9 as _ <-.
      intros q' [= <-]. exists (mkSA None (sa_texture a4)).
      split; [unfold hp; rewrite Hw; simpl; apply lookup_insert_eq|].
      cbn [sa_texture].
      inversion Ht4 as [t t4 (Hi4 & Hc4) Et0 Et4 |]. right.
      split; [reflexivity|]. rewrite Hi4.
      eapply Forall_impl; [exact (strip_images_clean _ _ _ _ E7)|].
      intros image. apply image_clean_ext. unfold hp. now rewrite Hw.
    + injection E3 as <- <-.
      destruct (bind_inv _ _ _ _ _ E4) as (y & s3 & E5 & E6). clear E4.
      injection E6 as <- <-. injection E5 as _ <-.
      intros q' Hq'. rewrite Ep in Hq'. injection Hq' as <-.
      exists (mkSA (sa_udc a) (Some (cleared tex))).
      split; [exact Ha1|]. left. exact Ecl.
  - destruct (bind_inv _ _ _ _ _ E) as (x & s1 & E1 & E2). clear E.
    injection E2 as <- <-.
    intros q' Hq'. rewrite Ep in Hq'. injection Hq' as <-.
    destruct (applyUserData_attr_run p a s Ea) as (s2 & E3 & Hw).
    rewrite E3 in E1. injection E1 as _ <-.
    exists (mkSA None (sa_texture a)).
    split; [unfold hp; rewrite Hw; simpl; apply lookup_insert_eq|].
    now rewrite Et.
Qed.

(** The state set that a visit leaves is clean. *)
Lemma apply_StateSet_clean (p : ptr) (s s' : PC.State B) (u : unit) :
  PC.apply_StateSet (Some p) s = Some (u, s') -> stateSet_clean (hp s') p.
Proof.
  intros E. cbn [PC.apply_StateSet] in E.
  unfold PC.heap in E. unfold bind at 1 in E. unfold bind at 1 in E.
  destruct (h_stateSets (w_heap (PC.world s)) !! p) as [ss|] eqn:Ess;
    [|discriminate].
  unfold lift_option, ret at 1 in E.
  destruct (bind_inv _ _ _ _ _ E) as (y & s1 & E1 & E1'). clear E.
  destruct (bind_inv _ _ _ _ _ E1') as (a & s2 & E2 & E2'). clear E1'.
  destruct (bind_inv _ _ _ _ _ E2') as (z & s3 & E3 & E4). clear E2'.
  assert (C1 : Forall (fun e => exists q, fst (snd e) = Some q
                                          /\ attr_clean (hp s1) q)
                      (ss_attributeList ss)).
  { revert E1.
    apply (forM__posts prep_frame prep_frame_refl prep_frame_trans
             (fun e t => exists q, fst (snd e) = Some q
                                   /\ attr_clean (hp t) q)).
    - intros e t t' (Hs & _) (q & Hq & Hc). exists q. split; [exact Hq|].
      now apply (attr_clean_stable (hp t)).
    - intros i. cbv beta.
      match goal with |- context [match ?x with _ => _ end] => destruct x end;
        [apply steps_applyUserData_attr | apply steps_fail].
    - intros i t v t' Ei. cbv beta in Ei.
      match type of Ei with context [match ?x with _ => _ end] =>
        destruct x as [q|] eqn:Eq end; [|discriminate].
      exists q. split; [exact Eq|].
      exact (applyUserData_attr_clean _ _ _ _ Ei). }
  assert (C2 : Forall (Forall (slot_clean (hp s2))) a).
  { revert E2.
    apply (mapM_posts prep_frame prep_frame_refl prep_frame_trans
             (fun unit t => Forall (slot_clean (hp t)) unit)).
    - intros unit t t' (Hs & _) Hc. eapply Forall_impl; [exact Hc|].
      intros e. now apply slot_clean_stable.
    - intros b. apply steps_mapM;
        [apply prep_frame_refl | apply prep_frame_trans|].
      apply steps_apply_textureSlot.
    - intros b t unit t'.
      apply (mapM_posts prep_frame prep_frame_refl prep_frame_trans
               (fun e r => slot_clean (hp r) e)).
      + intros e r r' (Hs & _). now apply slot_clean_stable.
      + apply steps_apply_textureSlot.
      + intros e r e' r'. apply apply_textureSlot_clean. }
  assert (R12 : prep_frame s1 s2).
  { revert E2. apply steps_mapM;
      [apply prep_frame_refl | apply prep_frame_trans|].
    intros b. apply steps_mapM;
      [apply prep_frame_refl | apply prep_frame_trans|].
    apply steps_apply_textureSlot. }
  assert (H3 : h_stateSets (hp s3) !! p
               = Some (mkStateSet (ss_udc ss) (ss_attributeList ss) a)
               /\ h_attrs (hp s3) = h_attrs (hp s2)
               /\ h_images (hp s3) = h_images (hp s2)).
  { injection E3 as _ <-. unfold hp. simpl.
    split; [apply lookup_insert_eq | split; reflexivity]. }
  destruct H3 as (H3 & A3 & I3).
  destruct (applyUserData_stateSet_run p _ s3 H3) as (s4 & E5 & Hw).
  rewrite E5 in E4. injection E4 as _ <-.
  assert (A4 : h_attrs (hp s4) = h_attrs (hp s2))
    by (unfold hp at 1; now rewrite Hw).
  assert (I4 : h_images (hp s4) = h_images (hp s2))
    by (unfold hp at 1; now rewrite Hw).
  exists (mkStateSet None (ss_attributeList ss) a).
  split; [unfold hp; rewrite Hw; simpl; apply lookup_insert_eq|].
  split; [reflexivity|]. cbn [ss_attributeList ss_textureAttributeList]. split.
  - eapply Forall_impl; [exact C1|]. intros e (q & Hq & Hc).
    exists q. split; [exact Hq|]. apply (attr_clean_ext (hp s2)); [exact A4|].
    apply (attr_clean_stable (hp s1)); [exact (proj1 R12) | exact Hc].
  - eapply Forall_impl; [exact C2|]. intros unit Hu.
    eapply Forall_impl; [exact Hu|]. intros e.
    now apply slot_clean_ext.
Qed.

End PrepareForCachingClean.

Section PrepareForCachingKeepsClean.
Context {B : Type}.

Lemma stateSets_kept_refl (s : PC.State B) : stateSets_kept s s.
Proof. reflexivity. Qed.

Lemma stateSets_kept_trans (s1 s2 s3 : PC.State B) :
  stateSets_kept s1 s2 -> stateSets_kept s2 s3 -> stateSets_kept s1 s3.
Proof. unfold stateSets_kept. congruence. Qed.

Local Abbreviation kept := (steps (stateSets_kept (B := B))).

Lemma kept_heap : kept PC.heap.
Proof. intros s h s' [= _ <-]. reflexivity. Qed.

Lemma kept_applyUserData (u : option UserDataContainer) :
  kept (PC.applyUserData u).
Proof.
  intros s a s' E. rewrite applyUserData_eq in E. injection E as _ <-.
  reflexivity.
Qed.

Lemma kept_update_heap (f : Heap -> Heap) :
  (forall h, h_stateSets (f h) = h_stateSets h) -> kept (PC.update_heap f).
Proof.
  intros Hf s x s' E. injection E as _ <-.
  unfold stateSets_kept, hp. simpl. apply Hf.
Qed.

Lemma kept_log (e : Event B) : kept (PC.log e).
Proof. intros s x s' E. injection E as _ <-. reflexivity. Qed.

Ltac kept_prims :=
  repeat first
    [ apply kept_heap
    | apply kept_applyUserData
    | apply kept_update_heap; reflexivity
    | apply kept_log
    | apply steps_ret; exact stateSets_kept_refl
    | apply steps_lift_option; exact stateSets_kept_refl
    | apply steps_bind; [exact stateSets_kept_trans | | intros ?] ].

Lemma kept_applyUserData_attr (p : ptr) : kept (PC.applyUserData_attr p).
Proof. unfold PC.applyUserData_attr. kept_prims. Qed.

Lemma kept_applyUserData_image (p : ptr) : kept (PC.applyUserData_image p).
Proof. unfold PC.applyUserData_image. kept_prims. Qed.

Lemma kept_getImages (q : ptr) : kept (PC.getImages q).
Proof. unfold PC.getImages. kept_prims. Qed.

Lemma kept_clone (p : ptr) : kept (PC.clone p).
Proof.
  unfold PC.clone.
  apply steps_bind; [exact stateSets_kept_trans | apply kept_heap | intros h].
  apply steps_bind; [exact stateSets_kept_trans | | intros a].
  { apply steps_lift_option. exact stateSets_kept_refl. }
  destruct (sa_texture a) as [t|]; [destruct (tex_clonable t)|];
    cbv zeta; kept_prims.
Qed.

Lemma kept_apply_textureSlot (e : TypeMemberPair * RefAttributePair) :
  kept (PC.apply_textureSlot e).
Proof.
  unfold PC.apply_textureSlot.
  destruct (fst (snd e)) as [sa|]; [|kept_prims].
  apply steps_bind; [exact stateSets_kept_trans | apply kept_heap | intros h].
  apply steps_bind; [exact stateSets_kept_trans | | intros a].
  { apply steps_lift_option. exact stateSets_kept_refl. }
  destruct (sa_texture a) as [tex|].
  - apply steps_bind; [exact stateSets_kept_trans | | intros _].
    { apply kept_update_heap. reflexivity. }
    apply steps_bind;
      [exact stateSets_kept_trans | apply kept_clone | intros [q|]].
    + apply steps_bind;
        [exact stateSets_kept_trans | apply kept_getImages | intros imgs].
      apply steps_bind; [exact stateSets_kept_trans | | intros _].
      { apply steps_forM_;
          [exact stateSets_kept_refl | exact stateSets_kept_trans|].
        intros [ip|]; [apply kept_applyUserData_image|].
        apply steps_ret. exact stateSets_kept_refl. }
      apply steps_bind;
        [exact stateSets_kept_trans | apply kept_applyUserData_attr
        | intros _].
      apply steps_ret. exact stateSets_kept_refl.
    + kept_prims.
  - apply steps_bind;
      [exact stateSets_kept_trans | apply kept_applyUserData_attr | intros _].
    apply steps_ret. exact stateSets_kept_refl.
Qed.

Lemma others_kept_refl (p : ptr) (s : PC.State B) : others_kept p s s.
Proof. now intros p' _. Qed.

Lemma others_kept_trans (p : ptr) (s1 s2 s3 : PC.State B) :
  others_kept p s1 s2 -> others_kept p s2 s3 -> others_kept p s1 s3.
Proof. intros H1 H2 p' Hne. now rewrite (H2 p' Hne), (H1 p' Hne). Qed.

Lemma stateSets_kept_others (p : ptr) (s s' : PC.State B) :
  stateSets_kept s s' -> others_kept p s s'.
Proof. intros H p' _. unfold stateSets_kept in H. now rewrite H. Qed.

Lemma others_kept_set_stateSet (p : ptr) (ss : StateSet) :
  steps (others_kept (B := B) p) (PC.update_heap (set_stateSet p ss)).
Proof.
  intros s x s' E. injection E as _ <-. intros p' Hne. unfold hp. simpl.
  apply lookup_insert_ne. congruence.
Qed.

(** The visit of a state set leaves every other state set of the store as
    it was. *)
Lemma others_kept_apply_StateSet (p : ptr) :
  steps (others_kept (B := B) p) (PC.apply_StateSet (Some p)).
Proof.
  cbn [PC.apply_StateSet].
  assert (W : forall A (c : M (PC.State B) A),
             kept c -> steps (others_kept p) c).
  { intros A c. apply steps_weaken. apply stateSets_kept_others. }
  apply steps_bind; [apply others_kept_trans | apply W, kept_heap | intros h].
  apply steps_bind; [apply others_kept_trans | | intros ss].
  { apply steps_lift_option. apply others_kept_refl. }
  apply steps_bind; [apply others_kept_trans | | intros _].
  { apply W. apply steps_forM_;
      [exact stateSets_kept_refl | exact stateSets_kept_trans|].
    intros i. cbv beta.
    match goal with |- context [match ?x with _ => _ end] => destruct x end;
      [apply kept_applyUserData_attr | apply steps_fail]. }
  apply steps_bind; [apply others_kept_trans | | intros a].
  { apply W. apply steps_mapM;
      [exact stateSets_kept_refl | exact stateSets_kept_trans|].
    intros b. apply steps_mapM;
      [exact stateSets_kept_refl | exact stateSets_kept_trans|].
    apply kept_apply_textureSlot. }
  apply steps_bind;
    [apply others_kept_trans | apply others_kept_set_stateSet | intros _].
  unfold PC.applyUserData_stateSet.
  apply steps_bind; [apply others_kept_trans | apply W, kept_heap | intros h'].
  apply steps_bind; [apply others_kept_trans | | intros ss'].
  { apply steps_lift_option. apply others_kept_refl. }
  apply steps_bind;
    [apply others_kept_trans | apply W, kept_applyUserData | intros u].
  apply others_kept_set_stateSet.
Qed.

Lemma keeps_clean_refl (s : PC.State B) : keeps_clean s s.
Proof. now intros p. Qed.

Lemma keeps_clean_trans (s1 s2 s3 : PC.State B) :
  keeps_clean s1 s2 -> keeps_clean s2 s3 -> keeps_clean s1 s3.
Proof. intros H1 H2 p Hc. apply H2, H1, Hc. Qed.

Lemma keeps_clean_applyUserData (u : option UserDataContainer) :
  steps (keeps_clean (B := B)) (PC.applyUserData u).
Proof.
  intros s a s' E. rewrite applyUserData_eq in E. injection E as _ <-.
  intros p Hc. exact Hc.
Qed.

(** The visit of a state set leaves it clean, and leaves clean every state
    set that was: what it shares with them is only stripped further. *)
Lemma keeps_clean_apply_StateSet (ssp : option ptr) :
  steps (keeps_clean (B := B)) (PC.apply_StateSet ssp).
Proof.
  intros s u s' E p' Hc. destruct ssp as [p|];
    [|injection E as _ <-; exact Hc].
  destruct (decide (p' = p)) as [-> | Hne].
  - exact (apply_StateSet_clean _ _ _ _ E).
  - apply (stateSet_clean_stable (hp s)); [| |exact Hc].
    + exact (proj1 (steps_apply_StateSet _ _ _ _ E)).
    + exact (others_kept_apply_StateSet p _ _ _ E p' Hne).
Qed.

Lemma keeps_clean_apply_Drawable (d : option Drawable) :
  steps (keeps_clean (B := B)) (PC.apply_Drawable d).
Proof.
  destruct d as [dr|]; [|apply steps_ret, keeps_clean_refl].
  cbn [PC.apply_Drawable].
  apply steps_bind;
    [apply keeps_clean_trans | apply keeps_clean_apply_StateSet | intros _].
  apply steps_bind;
    [apply keeps_clean_trans | apply keeps_clean_applyUserData | intros u].
  apply steps_ret, keeps_clean_refl.
Qed.

Lemma keeps_clean_accept (n : Node) :
  steps (keeps_clean (B := B)) (PC.accept n).
Proof.
  induction n as [udc ss children IH | udc ss drawables]
    using Node_induction.
  - rewrite accept_Group.
    apply steps_bind;
      [apply keeps_clean_trans | apply keeps_clean_apply_StateSet | intros _].
    apply steps_bind;
      [apply keeps_clean_trans | apply keeps_clean_applyUserData | intros u].
    apply steps_bind; [apply keeps_clean_trans | | intros cs].
    { apply steps_mapM_Forall;
        [apply keeps_clean_refl | apply keeps_clean_trans | exact IH]. }
    apply steps_ret, keeps_clean_refl.
  - cbn [PC.accept].
    apply steps_bind; [apply keeps_clean_trans | | intros ds].
    { apply steps_mapM; [apply keeps_clean_refl | apply keeps_clean_trans|].
      apply keeps_clean_apply_Drawable. }
    apply steps_bind;
      [apply keeps_clean_trans | apply keeps_clean_apply_StateSet | intros _].
    apply steps_bind;
      [apply keeps_clean_trans | apply keeps_clean_applyUserData | intros u].
    apply steps_ret, keeps_clean_refl.
Qed.

Lemma apply_StateSet_option_clean (ssp : option ptr) (s s' : PC.State B)
    (u : unit) :
  PC.apply_StateSet ssp s = Some (u, s') ->
  Forall (stateSet_clean (hp s')) (option_list ssp).
Proof.
  destruct ssp as [p|]; intros E; cbn [option_list]; [|constructor].
  constructor; [|constructor]. exact (apply_StateSet_clean _ _ _ _ E).
Qed.

Lemma apply_Drawable_clean (d d' : option Drawable) (s s' : PC.State B) :
  PC.apply_Drawable d s = Some (d', s') ->
  Forall (stateSet_clean (hp s')) (drawable_stateSets d).
Proof.
  destruct d as [dr|]; intros E; cbn [drawable_stateSets]; [|constructor].
  cbn [PC.apply_Drawable] in E.
  destruct (bind_inv _ _ _ _ _ E) as (x & s1 & E1 & E2).
  destruct (bind_inv _ _ _ _ _ E2) as (u & s2 & E3 & E4).
  injection E4 as _ <-.
  eapply Forall_impl; [exact (apply_StateSet_option_clean _ _ _ _ E1)|].
  intros p. exact (keeps_clean_applyUserData _ _ _ _ E3 p).
Qed.

(** When the visit of a graph is done, every state set of the graph is
    clean. *)
Lemma accept_clean (n : Node) :
  forall (s : PC.State B) n' s',
    PC.accept n s = Some (n', s') ->
    Forall (stateSet_clean (hp s')) (node_stateSets n).
Proof.
  induction n as [udc ss children IH | udc ss drawables]
    using Node_induction; intros s n' s' E.
  - rewrite accept_Group in E.
    destruct (bind_inv _ _ _ _ _ E) as (x & s1 & E1 & E2). clear E.
    destruct (bind_inv _ _ _ _ _ E2) as (u & s2 & E3 & E4). clear E2.
    destruct (bind_inv _ _ _ _ _ E4) as (cs & s3 & E5 & E6). clear E4.
    injection E6 as _ <-. cbn [node_stateSets]. apply Forall_app. split.
    + eapply Forall_impl; [exact (apply_StateSet_option_clean _ _ _ _ E1)|].
      intros p Hc.
      assert (K : keeps_clean s2 s3).
      { revert E5.
        apply (steps_mapM keeps_clean keeps_clean_refl keeps_clean_trans).
        apply keeps_clean_accept. }
      apply K. exact (keeps_clean_applyUserData _ _ _ _ E3 p Hc).
    + apply Forall_flat_map_intro. revert E5.
      apply (mapM_posts_Forall keeps_clean keeps_clean_refl keeps_clean_trans
               (fun c t => Forall (stateSet_clean (hp t)) (node_stateSets c))).
      * intros c t t' K Hc. eapply Forall_impl; [exact Hc|]. exact K.
      * apply keeps_clean_accept.
      * exact IH.
  - cbn [PC.accept] in E.
    destruct (bind_inv _ _ _ _ _ E) as (ds & s1 & E1 & E2). clear E.
    destruct (bind_inv _ _ _ _ _ E2) as (x & s2 & E3 & E4). clear E2.
    destruct (bind_inv _ _ _ _ _ E4) as (u & s3 & E5 & E6). clear E4.
    injection E6 as _ <-. cbn [node_stateSets]. apply Forall_app. split.
    + eapply Forall_impl; [exact (apply_StateSet_option_clean _ _ _ _ E3)|].
      intros p. exact (keeps_clean_applyUserData _ _ _ _ E5 p).
    + apply Forall_flat_map_intro.
      assert (K : keeps_clean s1 s3).
      { apply (keeps_clean_trans _ s2).
        - exact (keeps_clean_apply_StateSet _ _ _ _ E3).
        - exact (keeps_clean_applyUserData _ _ _ _ E5). }
      assert (D : Forall (fun d => Forall (stateSet_clean (hp s1))
                                     (drawable_stateSets d)) drawables).
      { revert E1.
        apply (mapM_posts_Forall keeps_clean keeps_clean_refl
                 keeps_clean_trans
                 (fun d t => Forall (stateSet_clean (hp t))
                               (drawable_stateSets d))).
        - intros d t t' K' Hc. eapply Forall_impl; [exact Hc|]. exact K'.
        - apply keeps_clean_apply_Drawable.
        - apply Forall_true. intros d t d' t'. apply apply_Drawable_clean. }
      eapply Forall_impl; [exact D|]. intros d Hd.
      eapply Forall_impl; [exact Hd|]. exact K.
Qed.

End PrepareForCachingKeepsClean.

Lemma sample_heap_tagged_wf : wf_heap sample_heap_tagged.
Proof.
  split; repeat (apply map_Forall_insert_2; [reflexivity|]);
    apply map_Forall_empty.
Qed.

(** X7. After PrepareForCaching has run over a well-formed graph, nothing
    that a state set of the graph holds carries user data, textures whose
    clone failed apart: every state set of a node or of a drawable of the
    graph is without user data, and so is every attribute of its plain
    attribute list, and every entry of its texture units holds an attribute
    without user data whose images, if it is a texture, are all without
    user data, or holds a texture that cannot be cloned. This holds too
    where state sets, attributes or images are shared in the graph. *)
Theorem sanitizer_leaves_state_sets_clean {B : Type} (s : PC.State B)
    (root : Node) :
  wf_heap (hp s) ->
  node_ok (hp s) root = true ->
  exists s',
    PC.accept root s = Some (strip_node root, s')
    /\ forall p, In p (node_stateSets root) -> stateSet_clean (hp s') p.
Proof.
  intros Hwf Hok. destruct (accept_run root s Hwf Hok) as (s' & E & _).
  exists s'. split; [exact E|]. intros p Hp.
  pose proof (accept_clean root s _ s' E) as Hc.
  rewrite Forall_forall in Hc. apply Hc. now apply list_elem_of_In.
Qed.

Lemma sanitizer_leaves_state_sets_clean_witness :
  wf_heap (hp sample_state_tagged)
  /\ node_ok (hp sample_state_tagged) sample_root_with_user_data = true
  /\ exists s',
       PC.accept sample_root_with_user_data sample_state_tagged
       = Some (strip_node sample_root_with_user_data, s')
       /\ stateSet_clean (hp s') 5%positive.
Proof.
  split; [exact sample_heap_tagged_wf|]. split; [reflexivity|].
  destruct (sanitizer_leaves_state_sets_clean sample_state_tagged
              sample_root_with_user_data sample_heap_tagged_wf eq_refl)
    as (s' & E & Hc).
  exists s'. split; [exact E|]. apply Hc. simpl. now left.
Defined.

(** ** WriteExternalReferencesToCache: the effects of a run *)

Lemma events_since_trace {B : Type} (w w' : World B) (evs : list (Event B)) :
  w_trace w' = w_trace w ++ evs -> events_since w w' = evs.
Proof. intros E. unfold events_since. rewrite E. apply drop_app_length. Qed.

Lemma mutex_after_app {B : Type} (evs1 evs2 : list (Event B)) (l : bool) :
  mutex_after l (evs1 ++ evs2)
  = match mutex_after l evs1 with
    | Some l' => mutex_after l' evs2
    | None => None
    end.
Proof.
  revert l. induction evs1 as [|e evs1 IH]; intros l; [reflexivity|].
  rewrite <- app_comm_cons. cbn [mutex_after].
  destruct e; try (destruct l; simpl; now rewrite ?IH).
Qed.

Lemma mutex_after_blank_warning {B : Type} (path : string) (l : bool) :
  mutex_after (B := B) l (blank_warning path) = Some l.
Proof.
  unfold blank_warning. destruct (bool_decide _); [|reflexivity].
  now destruct l.
Qed.

Lemma mutex_after_warnings {B : Type} (evs : list (Event B)) (l : bool) :
  Forall (fun e => e = clone_warning) evs -> mutex_after l evs = Some l.
Proof.
  induction 1 as [|e evs -> _ IH]; [reflexivity|].
  cbn [mutex_after clone_warning]. now destruct l.
Qed.

Section ExternalizerFrame.
Context {B : Type} `{CacheBin B}.
Variable hashString : string -> N.
Variable writeOptions : option (Options B).

Local Abbreviation vis := (visits hashString writeOptions).
Local Abbreviation xframe := (ext_frame hashString writeOptions).
Local Abbreviation unprefixed :=
  (fun img : Image => startsWith (img_fileName img) IMAGE_PREFIX = false).

Lemma visits_cons (img : Image) (imgs : list Image) (b : B) :
  vis (img :: imgs) b
  = ((blank_warning (img_fileName img)
      ++ fst (locked_region hashString writeOptions img b)
      ++ fst (vis imgs (snd (locked_region hashString writeOptions img b)))),
     snd (vis imgs (snd (locked_region hashString writeOptions img b)))).
Proof. reflexivity. Qed.

Lemma visits_app (l1 l2 : list Image) (b : B) :
  vis (l1 ++ l2) b
  = (fst (vis l1 b) ++ fst (vis l2 (snd (vis l1 b))),
     snd (vis l2 (snd (vis l1 b)))).
Proof.
  revert b. induction l1 as [|img l1 IH]; intros b.
  - cbn [app visits fst snd]. now destruct (vis l2 b).
  - rewrite <- app_comm_cons, !visits_cons, IH. cbn [fst snd].
    now rewrite <- !app_assoc.
Qed.

Lemma ext_frame_refl (w : World B) : xframe w w.
Proof.
  split; [apply externalized_from_refl|]. exists [].
  split; [constructor|]. cbn [visits fst snd]. now rewrite app_nil_r.
Qed.

Lemma ext_frame_trans (w1 w2 w3 : World B) :
  xframe w1 w2 -> xframe w2 w3 -> xframe w1 w3.
Proof.
  intros (E1 & l1 & F1 & B1 & T1) (E2 & l2 & F2 & B2 & T2).
  split; [now apply (externalized_from_trans _ w1 w2)|].
  exists (l1 ++ l2). split; [apply Forall_app; now split|].
  rewrite visits_app. cbn [fst snd].
  rewrite B2, T2, B1, T1. now rewrite app_assoc.
Qed.

(** The visit of one image stays within the frame. *)
Lemma ext_frame_apply_Image (ip : ptr) :
  steps xframe (WR.apply_Image hashString writeOptions ip).
Proof.
  intros w u w' E. destruct (h_images (w_heap w) !! ip) as [img|] eqn:Hi.
  2:{ unfold WR.apply_Image, WR.getFileName, WR.heap, bind, lift_option in E.
      rewrite Hi in E. discriminate. }
  destruct (startsWith (img_fileName img) IMAGE_PREFIX) eqn:Hp.
  - rewrite (apply_Image_prefixed hashString writeOptions ip img w Hi Hp) in E.
    injection E as _ <-. apply ext_frame_refl.
  - rewrite (apply_Image_unprefixed hashString writeOptions ip img w Hi Hp)
      in E.
    injection E as _ <-. split.
    + split; [reflexivity|]. split; [reflexivity|].
      intros iq imgq Hq. unfold externalized, set_image.
      cbn [w_heap h_images].
      destruct (decide (ip = iq)) as [<- | Hne].
      * rewrite lookup_insert_eq. eexists. split; [reflexivity|].
        rewrite Hi in Hq. injection Hq as <-. auto.
      * rewrite lookup_insert_ne by assumption. eauto.
    + exists [img]. split; [constructor; [exact Hp | constructor]|].
      unfold externalized. cbn [w_bin w_trace visits fst snd].
      rewrite !app_nil_r. split; reflexivity.
Qed.

Lemma ext_frame_heap : steps xframe WR.heap.
Proof. intros w h w' [= _ <-]. apply ext_frame_refl. Qed.

Lemma ext_frame_apply_Texture (sa : option ptr) :
  steps xframe (WR.apply_Texture hashString writeOptions sa).
Proof.
  destruct sa as [p|]; [|apply steps_ret, ext_frame_refl].
  cbn [WR.apply_Texture].
  apply steps_bind; [apply ext_frame_trans | apply ext_frame_heap | intros h].
  apply steps_bind; [apply ext_frame_trans | | intros a].
  { apply steps_lift_option, ext_frame_refl. }
  destruct (sa_texture a) as [tex|]; [|apply steps_ret, ext_frame_refl].
  apply steps_forM_; [apply ext_frame_refl | apply ext_frame_trans|].
  intros [ip|]; [apply ext_frame_apply_Image | apply steps_ret, ext_frame_refl].
Qed.

Lemma ext_frame_apply_StateSet (ssp : option ptr) :
  steps xframe (WR.apply_StateSet hashString writeOptions ssp).
Proof.
  destruct ssp as [p|]; [|apply steps_ret, ext_frame_refl].
  cbn [WR.apply_StateSet].
  apply steps_bind; [apply ext_frame_trans | apply ext_frame_heap | intros h].
  apply steps_bind; [apply ext_frame_trans | | intros ss].
  { apply steps_lift_option, ext_frame_refl. }
  apply steps_forM_; [apply ext_frame_refl | apply ext_frame_trans|].
  intros b. apply steps_forM_; [apply ext_frame_refl | apply ext_frame_trans|].
  intros j. apply ext_frame_apply_Texture.
Qed.

Lemma ext_frame_apply_Drawable (d : option Drawable) :
  steps xframe
    match d with
    | Some dr => WR.apply_StateSet hashString writeOptions (dr_stateSet dr)
    | None => ret tt
    end.
Proof.
  destruct d as [dr|];
    [apply ext_frame_apply_StateSet | apply steps_ret, ext_frame_refl].
Qed.

(** The visit of a graph stays within the frame. *)
Lemma ext_frame_accept (n : Node) :
  steps xframe (WR.accept hashString writeOptions n).
Proof.
  induction n as [udc ss children IH | udc ss drawables]
    using Node_induction.
  - rewrite WR_accept_Group.
    apply steps_bind;
      [apply ext_frame_trans | apply ext_frame_apply_StateSet | intros _].
    apply steps_forM__Forall;
      [apply ext_frame_refl | apply ext_frame_trans | exact IH].
  - cbn [WR.accept].
    apply steps_bind;
      [apply ext_frame_trans | apply ext_frame_apply_StateSet | intros _].
    apply steps_forM_; [apply ext_frame_refl | apply ext_frame_trans|].
    apply ext_frame_apply_Drawable.
Qed.

(** The mutex is free after the visits if it was free before, and is never
    misused in between. *)
Lemma mutex_after_locked_region (img : Image) (b : B) :
  mutex_after false (fst (locked_region hashString writeOptions img b))
  = Some false.
Proof.
  unfold locked_region.
  destruct (getRecordStatus b _); cbn [fst]; try reflexivity;
    destruct (fst (write b _ _ _ _)); reflexivity.
Qed.

Lemma mutex_after_visits (imgs : list Image) (b : B) :
  mutex_after false (fst (vis imgs b)) = Some false.
Proof.
  revert b. induction imgs as [|img imgs IH]; intros b; [reflexivity|].
  rewrite visits_cons. cbn [fst].
  rewrite mutex_after_app, mutex_after_blank_warning.
  rewrite mutex_after_app, mutex_after_locked_region. apply IH.
Qed.

Lemma visit_event_locked_region (img : Image) (b : B) :
  unprefixed img ->
  Forall (visit_event hashString writeOptions)
         (fst (locked_region hashString writeOptions img b)).
Proof.
  intros Hp. unfold locked_region.
  assert (Hw : forall ok,
            visit_event hashString writeOptions
              (EvWrite (WR.cacheKeyOf hashString (img_fileName img))
                       (ObjImage (renamed hashString img)) []
                       (Some (image_dbo writeOptions)) ok)).
  { intros ok. exists img. repeat split. exact Hp. }
  destruct (getRecordStatus b _); cbn [fst];
    repeat first [apply Forall_cons; split; [first [exact I | apply Hw]|]
                 | apply Forall_nil_2
                 | destruct (fst (write b _ _ _ _)); cbn [app]].
Qed.

Lemma visit_event_visits (imgs : list Image) (b : B) :
  Forall unprefixed imgs ->
  Forall (visit_event hashString writeOptions) (fst (vis imgs b)).
Proof.
  intros Hl. revert b. induction Hl as [|img imgs Hp _ IH]; intros b;
    [constructor|].
  rewrite visits_cons. cbn [fst]. apply Forall_app. split.
  - unfold blank_warning. destruct (bool_decide _); repeat constructor.
  - apply Forall_app. split; [now apply visit_event_locked_region | apply IH].
Qed.

End ExternalizerFrame.

(** X9. WriteExternalReferencesToCache calls the bin only while it holds
    its mutex: along the events of a run over a well-formed graph the mutex
    is never taken while held nor released while free, no call of the bin
    is made while it is free, and it is free again when the run is done. *)
Theorem externalizer_calls_bin_under_mutex {B : Type} `{CacheBin B}
    (hashString : string -> N) (writeOptions : option (Options B))
    (w : World B) (root : Node) :
  wf_heap (w_heap w) ->
  node_ok (w_heap w) root = true ->
  exists w',
    WR.accept hashString writeOptions root w = Some (tt, w')
    /\ mutex_after false (events_since w w') = Some false.
Proof.
  intros Hwf Hok.
  destruct (accept_settles hashString writeOptions w root Hwf Hok w
              (externalized_from_refl hashString w)) as (w' & E & _).
  exists w'. split; [exact E|].
  destruct (ext_frame_accept hashString writeOptions root _ _ _ E)
    as (_ & imgs & _ & _ & T).
  rewrite (events_since_trace _ _ _ T). apply mutex_after_visits.
Qed.

Lemma externalizer_calls_bin_under_mutex_witness :
  wf_heap (w_heap sample_graph_world)
  /\ node_ok (w_heap sample_graph_world) sample_root = true
  /\ exists w',
       WR.accept scenario_hash None sample_root sample_graph_world
       = Some (tt, w')
       /\ mutex_after false (events_since sample_graph_world w') = Some false.
Proof.
  split; [exact sample_heap_wf|]. split; [reflexivity|].
  exact (externalizer_calls_bin_under_mutex scenario_hash None
           sample_graph_world sample_root sample_heap_wf eq_refl).
Defined.

(** X10. What a run of WriteExternalReferencesToCache does with the bin is
    to ask for record statuses and to write images: it never reads from the
    bin and never writes a graph, and every write is made without metadata,
    with the caller's options extended by the "include data" hint, of an
    image that lacked the prefix, under its cache key and carrying already
    the name and the write hint that the visitor gives it. *)
Theorem externalizer_writes_only_renamed_images {B : Type} `{CacheBin B}
    (hashString : string -> N) (writeOptions : option (Options B))
    (w : World B) (root : Node) :
  wf_heap (w_heap w) ->
  node_ok (w_heap w) root = true ->
  exists w',
    WR.accept hashString writeOptions root w = Some (tt, w')
    /\ Forall (visit_event hashString writeOptions) (events_since w w').
Proof.
  intros Hwf Hok.
  destruct (accept_settles hashString writeOptions w root Hwf Hok w
              (externalized_from_refl hashString w)) as (w' & E & _).
  exists w'. split; [exact E|].
  destruct (ext_frame_accept hashString writeOptions root _ _ _ E)
    as (_ & imgs & F & _ & T).
  rewrite (events_since_trace _ _ _ T). now apply visit_event_visits.
Qed.

Lemma externalizer_writes_only_renamed_images_witness :
  wf_heap (w_heap sample_graph_world)
  /\ node_ok (w_heap sample_graph_world) sample_root = true
  /\ exists w',
       WR.accept scenario_hash None sample_root sample_graph_world
       = Some (tt, w')
       /\ Forall (visit_event scenario_hash None)
                 (events_since sample_graph_world w').
Proof.
  split; [exact sample_heap_wf|]. split; [reflexivity|].
  exact (externalizer_writes_only_renamed_images scenario_hash None
           sample_graph_world sample_root sample_heap_wf eq_refl).
Defined.

Lemma written_keys_app {B : Type} (evs1 evs2 : list (Event B)) :
  written_keys (evs1 ++ evs2) = written_keys evs1 ++ written_keys evs2.
Proof. apply omap_app. Qed.

Lemma written_keys_blank_warning {B : Type} (path : string) :
  written_keys (B := B) (blank_warning path) = [].
Proof. unfold blank_warning. now destruct (bool_decide _). Qed.

Section WrittenOnce.
Context {B : Type} `{CacheBin B}.
Variable hashString : string -> N.
Variable writeOptions : option (Options B).

(** Two laws of a cache bin: a record written is there, and a record that
    is there stays when another is written. *)
Hypothesis write_then_ok : forall b key obj meta dbo,
  fst (write b key obj meta dbo) = true ->
  getRecordStatus (snd (write b key obj meta dbo)) key = STATUS_OK.
Hypothesis ok_persists : forall b key obj meta dbo k,
  getRecordStatus b k = STATUS_OK ->
  getRecordStatus (snd (write b key obj meta dbo)) k = STATUS_OK.

Lemma locked_region_written (img : Image) (b : B) :
  let r := locked_region hashString writeOptions img b in
  NoDup (written_keys (fst r))
  /\ (forall k, k ∈ written_keys (fst r) ->
        getRecordStatus b k <> STATUS_OK
        /\ getRecordStatus (snd r) k = STATUS_OK)
  /\ (forall k, getRecordStatus b k = STATUS_OK ->
        getRecordStatus (snd r) k = STATUS_OK).
Proof.
  unfold locked_region.
  set (key := WR.cacheKeyOf hashString (img_fileName img)).
  set (obj := ObjImage (renamed hashString img)).
  set (dbo := Some (image_dbo writeOptions)).
  pose proof (write_then_ok b key obj [] dbo) as Hw.
  pose proof (ok_persists b key obj [] dbo) as Hp.
  destruct (getRecordStatus b key) eqn:Ers; cbn [fst snd].
  2:{ split; [constructor|]. split; [|auto]. intros k Hk. inversion Hk. }
  all: destruct (write b key obj [] dbo) as [ok b'] eqn:Ew;
    cbn [fst snd] in *; destruct ok; cbn [written_keys omap list_omap app];
    (split; [repeat constructor; set_solver|]); (split; [|exact Hp]);
    intros k Hk; try (now inversion Hk);
    apply list_elem_of_singleton in Hk; subst k;
    (split; [congruence | now apply Hw]).
Qed.

Lemma visits_written (imgs : list Image) (b : B) :
  let r := visits hashString writeOptions imgs b in
  NoDup (written_keys (fst r))
  /\ (forall k, k ∈ written_keys (fst r) ->
        getRecordStatus b k <> STATUS_OK
        /\ getRecordStatus (snd r) k = STATUS_OK)
  /\ (forall k, getRecordStatus b k = STATUS_OK ->
        getRecordStatus (snd r) k = STATUS_OK).
Proof.
  revert b. induction imgs as [|img imgs IH]; intros b.
  { cbn. split; [constructor|]. split; [|auto]. intros k Hk. inversion Hk. }
  cbv zeta. rewrite visits_cons. cbn [fst snd].
  destruct (locked_region_written img b) as (N1 & W1 & P1).
  destruct (IH (snd (locked_region hashString writeOptions img b)))
    as (N2 & W2 & P2).
  rewrite !written_keys_app, written_keys_blank_warning. cbn [app].
  split; [|split].
  - apply NoDup_app. split; [exact N1|]. split; [|exact N2].
    intros k Hk1 Hk2. destruct (W2 k Hk2) as [Hno _].
    apply Hno. now apply W1.
  - intros k Hk. apply elem_of_app in Hk as [Hk | Hk].
    + destruct (W1 k Hk) as [Hno Hok]. split; [exact Hno | now apply P2].
    + destruct (W2 k Hk) as [Hno Hok]. split; [|exact Hok].
      intros Hb. apply Hno. now apply P1.
  - intros k Hk. now apply P2, P1.
Qed.

End WrittenOnce.

Lemma MemBin_ok_persists (b : MemBin) (key : string) (obj : Object)
    (meta : Config) (dbo : option (Options MemBin)) (k : string) :
  getRecordStatus b k = STATUS_OK ->
  getRecordStatus (snd (write b key obj meta dbo)) k = STATUS_OK.
Proof.
  unfold write, getRecordStatus, MemBin_CacheBin. cbn [fst snd].
  destruct (decide (key = k)) as [-> | Hne].
  - now rewrite lookup_insert_eq.
  - now rewrite lookup_insert_ne.
Qed.

Lemma sample_heap_twins_wf : wf_heap sample_heap_twins.
Proof.
  split; repeat (apply map_Forall_insert_2; [reflexivity|]);
    apply map_Forall_empty.
Qed.

(** X11. On a bin in which a record written is there and a record that is
    there stays, a run of WriteExternalReferencesToCache stores no key
    twice, however many images of the graph share a path: the keys of the
    writes that the bin accepted are pairwise distinct, and each was not
    STATUS_OK before the run and is STATUS_OK after it. *)
Theorem externalizer_stores_each_key_once {B : Type} `{CacheBin B}
    (hashString : string -> N) (writeOptions : option (Options B))
    (w : World B) (root : Node) :
  (forall b key obj meta dbo,
     fst (write b key obj meta dbo) = true ->
     getRecordStatus (snd (write b key obj meta dbo)) key = STATUS_OK) ->
  (forall b key obj meta dbo k,
     getRecordStatus b k = STATUS_OK ->
     getRecordStatus (snd (write b key obj meta dbo)) k = STATUS_OK) ->
  wf_heap (w_heap w) ->
  node_ok (w_heap w) root = true ->
  exists w',
    WR.accept hashString writeOptions root w = Some (tt, w')
    /\ NoDup (written_keys (events_since w w'))
    /\ forall k, In k (written_keys (events_since w w')) ->
         getRecordStatus (w_bin w) k <> STATUS_OK
         /\ getRecordStatus (w_bin w') k = STATUS_OK.
Proof.
  intros L1 L2 Hwf Hok.
  destruct (accept_settles hashString writeOptions w root Hwf Hok w
              (externalized_from_refl hashString w)) as (w' & E & _).
  exists w'. split; [exact E|].
  destruct (ext_frame_accept hashString writeOptions root _ _ _ E)
    as (_ & imgs & _ & Hb & T).
  rewrite (events_since_trace _ _ _ T), Hb.
  destruct (visits_written hashString writeOptions L1 L2 imgs (w_bin w))
    as (N1 & W1 & _).
  split; [exact N1|]. intros k Hk. apply W1. now apply list_elem_of_In.
Qed.

Lemma externalizer_stores_each_key_once_witness :
  wf_heap (w_heap sample_world_twins)
  /\ node_ok (w_heap sample_world_twins) sample_root = true
  /\ exists w',
       WR.accept scenario_hash None sample_root sample_world_twins
       = Some (tt, w')
       /\ NoDup (written_keys (events_since sample_world_twins w')).
Proof.
  split; [exact sample_heap_twins_wf|]. split; [reflexivity|].
  destruct (externalizer_stores_each_key_once scenario_hash None
              sample_world_twins sample_root
              MemBin_write_then_ok MemBin_ok_persists
              sample_heap_twins_wf eq_refl) as (w' & E & N1 & _).
  exists w'. split; [exact E | exact N1].
Defined.

(** ** WriteExternalReferencesToCache: what a run leaves of the images *)

Section LoopPostsForall.
Context {S : Type}.
Variable R : S -> S -> Prop.
Hypothesis R_refl : forall s, R s s.
Hypothesis R_trans : forall s1 s2 s3, R s1 s2 -> R s2 s3 -> R s1 s3.

Lemma forM__posts_Forall {A : Type} (P : A -> S -> Prop) (f : A -> M S unit)
    (l : list A) :
  (forall x s s', R s s' -> P x s -> P x s') ->
  (forall x, steps R (f x)) ->
  Forall (fun x => forall s u s', f x s = Some (u, s') -> P x s') l ->
  forall s u s', forM_ l f s = Some (u, s') -> Forall (fun x => P x s') l.
Proof.
  intros Hst Hf Hp. induction Hp as [|x l Hx _ IH]; intros s u s' E;
    [constructor|].
  cbn [forM_] in E. destruct (bind_inv _ _ _ _ _ E) as (v & s1 & E1 & E2).
  constructor; [|exact (IH _ _ _ E2)].
  apply (Hst x s1); [|exact (Hx _ _ _ E1)].
  exact (steps_forM_ R R_refl R_trans f l Hf _ _ _ E2).
Qed.

End LoopPostsForall.

Section ExternalizerPosts.
Context {B : Type} `{CacheBin B}.
Variable hashString : string -> N.
Variable writeOptions : option (Options B).

Local Abbreviation xframe := (ext_frame hashString writeOptions).

Lemma image_external_stable (w w' : World B) (image : option ptr) :
  externalized_from hashString w w' ->
  image_external (w_heap w) image -> image_external (w_heap w') image.
Proof.
  intros (_ & _ & HI) Hc ip Hip. destruct (Hc ip Hip) as (img & Hi & Hp).
  destruct (HI ip img Hi) as (img' & Hi' & [-> | [Hp' _]]); [eauto|].
  congruence.
Qed.

Lemma texture_external_stable (w w' : World B) (sa : option ptr) :
  externalized_from hashString w w' ->
  texture_external (w_heap w) sa -> texture_external (w_heap w') sa.
Proof.
  intros Hw Hc q Hq. destruct (Hc q Hq) as (a & Ha & Himgs).
  exists a. split; [now rewrite (proj1 (proj2 Hw))|].
  intros tex Ht. eapply Forall_impl; [exact (Himgs tex Ht)|].
  intros image. now apply image_external_stable.
Qed.

Lemma stateSet_external_stable (w w' : World B) (p : ptr) :
  externalized_from hashString w w' ->
  stateSet_external (w_heap w) p -> stateSet_external (w_heap w') p.
Proof.
  intros Hw (ss & Hss & Hun). exists ss.
  split; [now rewrite (proj1 Hw)|].
  eapply Forall_impl; [exact Hun|]. intros unit Hu.
  eapply Forall_impl; [exact Hu|]. intros e.
  now apply texture_external_stable.
Qed.

Lemma apply_Image_external (ip : ptr) (w w' : World B) (u : unit) :
  WR.apply_Image hashString writeOptions ip w = Some (u, w') ->
  image_external (w_heap w') (Some ip).
Proof.
  intros E. destruct (h_images (w_heap w) !! ip) as [img|] eqn:Hi.
  2:{ unfold WR.apply_Image, WR.getFileName, WR.heap, bind, lift_option in E.
      rewrite Hi in E. discriminate. }
  intros ip' [= <-].
  destruct (startsWith (img_fileName img) IMAGE_PREFIX) eqn:Hp.
  - rewrite (apply_Image_prefixed hashString writeOptions ip img w Hi Hp) in E.
    injection E as _ <-. eauto.
  - rewrite (apply_Image_unprefixed hashString writeOptions ip img w Hi Hp)
      in E.
    injection E as _ <-. exists (renamed hashString img).
    split; [apply lookup_externalized | apply renamed_prefixed].
Qed.

Lemma apply_Texture_external (sa : option ptr) (w w' : World B) (u : unit) :
  WR.apply_Texture hashString writeOptions sa w = Some (u, w') ->
  texture_external (w_heap w') sa.
Proof.
  intros E q ->.
  pose proof (ext_frame_apply_Texture hashString writeOptions _ _ _ _ E)
    as ((_ & HA & _) & _).
  cbn [WR.apply_Texture] in E. unfold WR.heap in E.
  unfold bind at 1 in E. unfold bind at 1 in E.
  destruct (h_attrs (w_heap w) !! q) as [a|] eqn:Ha; [|discriminate].
  unfold lift_option, ret at 1 in E.
  exists a. split; [now rewrite HA|]. intros tex Ht. rewrite Ht in E.
  revert E.
  apply (forM__posts xframe (ext_frame_refl hashString writeOptions)
           (ext_frame_trans hashString writeOptions)
           (fun image t => image_external (w_heap t) image)).
  - intros image t t' (Ht' & _). now apply image_external_stable.
  - intros [ip|];
      [apply ext_frame_apply_Image | apply steps_ret, ext_frame_refl].
  - intros [ip|] t v t' Ei; [exact (apply_Image_external _ _ _ _ Ei)|].
    intros ip [=].
Qed.

Lemma apply_StateSet_external (p : ptr) (w w' : World B) (u : unit) :
  WR.apply_StateSet hashString writeOptions (Some p) w = Some (u, w') ->
  stateSet_external (w_heap w') p.
Proof.
  intros E.
  pose proof (ext_frame_apply_StateSet hashString writeOptions _ _ _ _ E)
    as ((HS & _) & _).
  cbn [WR.apply_StateSet] in E. unfold WR.heap in E.
  unfold bind at 1 in E. unfold bind at 1 in E.
  destruct (h_stateSets (w_heap w) !! p) as [ss|] eqn:Hss; [|discriminate].
  unfold lift_option, ret at 1 in E.
  exists ss. split; [now rewrite HS|]. revert E.
  apply (forM__posts xframe (ext_frame_refl hashString writeOptions)
           (ext_frame_trans hashString writeOptions)
           (fun (unit : AttributeList) t =>
              Forall (fun e : TypeMemberPair * RefAttributePair =>
                        texture_external (w_heap t) (fst (snd e))) unit)).
  - intros unit t t' (Ht' & _) Hc. eapply Forall_impl; [exact Hc|].
    intros e. now apply texture_external_stable.
  - intros b. apply steps_forM_;
      [apply ext_frame_refl | apply ext_frame_trans|].
    intros j. apply ext_frame_apply_Texture.
  - intros b t v t'.
    apply (forM__posts xframe (ext_frame_refl hashString writeOptions)
             (ext_frame_trans hashString writeOptions)
             (fun (e : TypeMemberPair * RefAttributePair) r =>
                texture_external (w_heap r) (fst (snd e)))).
    + intros e r r' (Hr & _). now apply texture_external_stable.
    + intros j. apply ext_frame_apply_Texture.
    + intros e r v' r'. apply apply_Texture_external.
Qed.

Lemma apply_StateSet_option_external (ssp : option ptr) (w w' : World B)
    (u : unit) :
  WR.apply_StateSet hashString writeOptions ssp w = Some (u, w') ->
  Forall (stateSet_external (w_heap w')) (option_list ssp).
Proof.
  destruct ssp as [p|]; intros E; cbn [option_list]; [|constructor].
  constructor; [|constructor]. exact (apply_StateSet_external _ _ _ _ E).
Qed.

Lemma stateSets_external_stable (w w' : World B) (l : list ptr) :
  xframe w w' ->
  Forall (stateSet_external (w_heap w)) l ->
  Forall (stateSet_external (w_heap w')) l.
Proof.
  intros (Hw & _) Hl. eapply Forall_impl; [exact Hl|].
  intros p. now apply stateSet_external_stable.
Qed.

(** When the visit of a graph is done, the images of the textures of
    every state set of the graph carry the prefix. *)
Lemma accept_external (n : Node) :
  forall (w : World B) (u : unit) (w' : World B),
    WR.accept hashString writeOptions n w = Some (u, w') ->
    Forall (stateSet_external (w_heap w')) (node_stateSets n).
Proof.
  induction n as [udc ss children IH | udc ss drawables]
    using Node_induction; intros w u w' E.
  - rewrite WR_accept_Group in E.
    destruct (bind_inv _ _ _ _ _ E) as (x & w1 & E1 & E2). clear E.
    cbn [node_stateSets]. apply Forall_app. split.
    + apply (stateSets_external_stable w1);
        [|exact (apply_StateSet_option_external _ _ _ _ E1)].
      revert E2. apply steps_forM_;
        [apply ext_frame_refl | apply ext_frame_trans|].
      apply ext_frame_accept.
    + apply Forall_flat_map_intro. revert E2.
      apply (forM__posts_Forall xframe
               (ext_frame_refl hashString writeOptions)
               (ext_frame_trans hashString writeOptions)
               (fun c t => Forall (stateSet_external (w_heap t))
                             (node_stateSets c))).
      * intros c t t' Ht. now apply stateSets_external_stable.
      * apply ext_frame_accept.
      * exact IH.
  - cbn [WR.accept] in E.
    destruct (bind_inv _ _ _ _ _ E) as (x & w1 & E1 & E2). clear E.
    cbn [node_stateSets]. apply Forall_app. split.
    + apply (stateSets_external_stable w1);
        [|exact (apply_StateSet_option_external _ _ _ _ E1)].
      revert E2. apply steps_forM_;
        [apply ext_frame_refl | apply ext_frame_trans|].
      apply ext_frame_apply_Drawable.
    + apply Forall_flat_map_intro. revert E2.
      apply (forM__posts xframe (ext_frame_refl hashString writeOptions)
               (ext_frame_trans hashString writeOptions)
               (fun d t => Forall (stateSet_external (w_heap t))
                             (drawable_stateSets d))).
      * intros d t t' Ht. now apply stateSets_external_stable.
      * apply ext_frame_apply_Drawable.
      * intros [dr|] t v t' Ed; [|constructor].
        exact (apply_StateSet_option_external _ _ _ _ Ed).
Qed.

End ExternalizerPosts.



(** ** CacheBin::writeNode: what is written *)

Lemma node_stateSets_strip (n : Node) :
  node_stateSets (strip_node n) = node_stateSets n.
Proof.
  induction n as [udc ss children IH | udc ss drawables]
    using Node_induction; cbn [strip_node node_stateSets]; f_equal.
  - induction IH as [|c cs Hc _ IHcs]; [reflexivity|].
    cbn [map flat_map]. now rewrite Hc, IHcs.
  - induction drawables as [|[d|] ds IHds]; [reflexivity| |];
      cbn [map flat_map strip_drawable drawable_stateSets];
      now rewrite IHds.
Qed.

Section CleanStaysClean.
Context {B : Type}.
Variable hashString : string -> N.

Lemma image_clean_externalized (w w' : World B) (image : option ptr) :
  externalized_from hashString w w' ->
  image_clean (w_heap w) image -> image_clean (w_heap w') image.
Proof.
  intros (_ & _ & HI) Hc ip Hip. destruct (Hc ip Hip) as (i & Hi & Hu).
  destruct (HI ip i Hi) as (i' & Hi' & [-> | [_ ->]]); [eauto|].
  exists (renamed hashString i). split; [exact Hi' | exact Hu].
Qed.

Lemma slot_clean_externalized (w w' : World B)
    (e : TypeMemberPair * RefAttributePair) :
  externalized_from hashString w w' ->
  slot_clean (w_heap w) e -> slot_clean (w_heap w') e.
Proof.
  intros Hw Hc q Hq. destruct (Hc q Hq) as (a & Ha & Hk).
  exists a. split; [now rewrite (proj1 (proj2 Hw))|].
  destruct (sa_texture a) as [tex|]; [|exact Hk].
  destruct Hk as [Hk | [Hk1 Hk2]]; [now left | right]. split; [exact Hk1|].
  eapply Forall_impl; [exact Hk2|]. intros image.
  now apply image_clean_externalized.
Qed.

(** The renaming of images leaves a clean state set clean. *)
Lemma stateSet_clean_externalized (w w' : World B) (p : ptr) :
  externalized_from hashString w w' ->
  stateSet_clean (w_heap w) p -> stateSet_clean (w_heap w') p.
Proof.
  intros Hw (ss & Hss & Hu & Hpl & Hun). exists ss.
  split; [now rewrite (proj1 Hw)|]. split; [exact Hu|]. split.
  - eapply Forall_impl; [exact Hpl|]. intros e (q & Hq & a & Ha & Hc).
    exists q. split; [exact Hq|]. exists a.
    split; [now rewrite (proj1 (proj2 Hw)) | exact Hc].
  - eapply Forall_impl; [exact Hun|]. intros unit Hc.
    eapply Forall_impl; [exact Hc|]. intros e.
    now apply slot_clean_externalized.
Qed.

End CleanStaysClean.

(** X13. What [writeNode] hands to the bin. On a well-formed graph the
    events of a call are those of the two visitors followed by one write,
    the write of the graph under the caller's key, with the caller's
    metadata and options: before it the bin is asked for record statuses
    and given images, never read and never given a graph, and the mutex of
    the image writes is free when the graph is written. The graph is
    written as the two visitors leave it: its nodes and drawables without
    user data, every state set of it clean, and every image of its textures
    under a name with the prefix. *)
Theorem writeNode_writes_prepared_graph {B : Type} `{CacheBin B}
    (hashString : string -> N) (key : string) (node : Node)
    (metadata : Config) (writeOptions : option (Options B)) (w : World B) :
  wf_heap (w_heap w) ->
  node_ok (w_heap w) node = true ->
  exists w' evs ok,
    writeNode hashString key node metadata writeOptions w
    = Some ((true, strip_node node), w')
    /\ events_since w w'
       = evs ++ [EvWrite key (ObjNode (strip_node node) (w_heap w'))
                   metadata writeOptions ok]
    /\ Forall (visit_event hashString writeOptions) evs
    /\ mutex_after false evs = Some false
    /\ forall p, In p (node_stateSets node) ->
         stateSet_clean (w_heap w') p /\ stateSet_external (w_heap w') p.
Proof.
  intros Hwf Hok. unfold writeNode.
  destruct (accept_run node (PC.mkState PC.new w) Hwf Hok)
    as (s' & E & W' & G').
  rewrite E.
  assert (Hok' : node_ok (hp s') (strip_node node) = true).
  { rewrite node_ok_strip. apply (node_ok_grows (w_heap w));
      [now apply sanitized_from_grows | exact Hok]. }
  destruct (accept_settles hashString writeOptions (PC.world s')
              (strip_node node) W' Hok' (PC.world s')
              (externalized_from_refl hashString _))
    as (w1 & E1 & _ & _).
  rewrite (bind_run _ _ _ _ _ E1).
  unfold WR.heap, WR.bin_write, bind, ret.
  destruct (write (w_bin w1) key _ metadata writeOptions) as [ok b].
  destruct (steps_accept node _ _ _ E) as (_ & _ & (evs0 & T0 & F0) & _).
  cbn [PC.world] in T0.
  destruct (ext_frame_accept hashString writeOptions _ _ _ _ E1)
    as (HX & imgs & F & _ & T).
  eexists.
  exists (evs0 ++ fst (visits hashString writeOptions imgs
                         (w_bin (PC.world s')))), ok.
  split; [reflexivity|]. split; [|split; [|split]].
  - apply events_since_trace. unfold emit. cbn [w_trace w_heap].
    rewrite T, T0. now rewrite <- !app_assoc.
  - apply Forall_app. split; [|now apply visit_event_visits].
    eapply Forall_impl; [exact F0|]. intros e ->. exact I.
  - rewrite mutex_after_app, (mutex_after_warnings _ _ F0).
    apply mutex_after_visits.
  - intros p Hp. apply list_elem_of_In in Hp. cbn [w_heap emit]. split.
    + apply (stateSet_clean_externalized hashString (PC.world s'));
        [exact HX|].
      pose proof (accept_clean node _ _ _ E) as Hc.
      rewrite Forall_forall in Hc. now apply Hc.
    + pose proof (accept_external hashString writeOptions _ _ _ _ E1) as Hc.
      rewrite node_stateSets_strip, Forall_forall in Hc. now apply Hc.
Qed.

Lemma writeNode_writes_prepared_graph_witness :
  wf_heap (w_heap sample_world_tagged)
  /\ node_ok (w_heap sample_world_tagged) sample_root_with_user_data = true
  /\ exists w' evs ok,
       writeNode scenario_hash "tile" sample_root_with_user_data [] None
                 sample_world_tagged
       = Some ((true, strip_node sample_root_with_user_data), w')
       /\ events_since sample_world_tagged w'
          = evs ++ [EvWrite "tile"
                      (ObjNode (strip_node sample_root_with_user_data)
                               (w_heap w')) [] None ok]
       /\ stateSet_clean (w_heap w') 5%positive
       /\ stateSet_external (w_heap w') 5%positive.
Proof.
  split; [exact sample_heap_tagged_wf|]. split; [reflexivity|].
  destruct (writeNode_writes_prepared_graph scenario_hash "tile"
              sample_root_with_user_data [] None sample_world_tagged
              sample_heap_tagged_wf eq_refl)
    as (w' & evs & ok & E & T & _ & _ & Hc).
  exists w', evs, ok. split; [exact E|]. split; [exact T|].
  apply Hc. simpl. now left.
Defined.

(** ** PrepareForCaching: the NULL entries of a state set *)

Lemma forM__fails {S A : Type} (f : A -> M S unit) (l : list A) (x : A) :
  In x l -> (forall s, f x s = None) -> forall s, forM_ l f s = None.
Proof.
  intros Hx Hf. induction l as [|y l IH]; intros s; [destruct Hx|].
  cbn [forM_]. unfold bind. destruct Hx as [-> | Hx]; [now rewrite Hf|].
  destruct (f y s) as [[u s1]|]; [now apply IH | reflexivity].
Qed.

(** X14. The two loops of [apply(osg::StateSet* ss)] differ on NULL: the
    loop over the texture units tests each entry before using it, the loop
    over the plain attribute list does not. A state set with a NULL entry
    in its plain attribute list therefore has the visitor dereference NULL:
    the visit fails, whatever else the state set holds. *)
Theorem sanitizer_fails_on_null_plain_attribute {B : Type} (s : PC.State B)
    (p : ptr) (ss : StateSet) (k : TypeMemberPair) (ov : N) :
  h_stateSets (hp s) !! p = Some ss ->
  In (k, (None, ov)) (ss_attributeList ss) ->
  PC.apply_StateSet (Some p) s = None.
Proof.
  intros Hss Hin. cbn [PC.apply_StateSet]. unfold PC.heap.
  unfold bind at 1. unfold bind at 1. fold (hp s). rewrite Hss.
  unfold lift_option, ret at 1. unfold bind at 1.
  now rewrite (forM__fails _ _ _ Hin).
Qed.

Lemma sanitizer_fails_on_null_plain_attribute_witness :
  PC.apply_StateSet (Some 5%positive) null_attribute_state = None.
Proof.
  apply (sanitizer_fails_on_null_plain_attribute null_attribute_state
           5%positive null_attribute_stateSet (0%N, 0%N) 0%N);
    [reflexivity | now left].
Defined.

(** ** WriteExternalReferencesToCache: the references it makes *)

Section ExternalizerTraversal.
Context {B : Type} `{CacheBin B}.
Variable hashString : string -> N.
Variable writeOptions : option (Options B).
Variable R : World B -> World B -> Prop.
Hypothesis R_refl : forall w, R w w.
Hypothesis R_trans : forall w1 w2 w3, R w1 w2 -> R w2 w3 -> R w1 w3.
Hypothesis R_image :
  forall ip, steps R (WR.apply_Image hashString writeOptions ip).

Lemma traversal_heap : steps R (WR.heap (B := B)).
Proof. intros w h w' [= _ <-]. apply R_refl. Qed.

Lemma traversal_apply_Texture (sa : option ptr) :
  steps R (WR.apply_Texture hashString writeOptions sa).
Proof.
  destruct sa as [p|]; [|now apply steps_ret].
  cbn [WR.apply_Texture].
  apply steps_bind; [exact R_trans | apply traversal_heap | intros h].
  apply steps_bind; [exact R_trans | now apply steps_lift_option | intros a].
  destruct (sa_texture a) as [tex|]; [|now apply steps_ret].
  apply steps_forM_; [exact R_refl | exact R_trans|].
  intros [ip|]; [apply R_image | now apply steps_ret].
Qed.

Lemma traversal_apply_StateSet (ssp : option ptr) :
  steps R (WR.apply_StateSet hashString writeOptions ssp).
Proof.
  destruct ssp as [p|]; [|now apply steps_ret].
  cbn [WR.apply_StateSet].
  apply steps_bind; [exact R_trans | apply traversal_heap | intros h].
  apply steps_bind; [exact R_trans | now apply steps_lift_option | intros ss].
  apply steps_forM_; [exact R_refl | exact R_trans|].
  intros b. apply steps_forM_; [exact R_refl | exact R_trans|].
  intros j. apply traversal_apply_Texture.
Qed.

(** What every visit of an image keeps, the visit of a graph keeps. *)
Lemma traversal_accept (n : Node) :
  steps R (WR.accept hashString writeOptions n).
Proof.
  induction n as [udc ss children IH | udc ss drawables]
    using Node_induction.
  - rewrite WR_accept_Group.
    apply steps_bind;
      [exact R_trans | apply traversal_apply_StateSet | intros _].
    apply steps_forM__Forall; [exact R_refl | exact R_trans | exact IH].
  - cbn [WR.accept].
    apply steps_bind;
      [exact R_trans | apply traversal_apply_StateSet | intros _].
    apply steps_forM_; [exact R_refl | exact R_trans|].
    intros [dr|]; [apply traversal_apply_StateSet | now apply steps_ret].
Qed.

End ExternalizerTraversal.

Section ExternalizerVisitedFrame.
Context {B : Type} `{CacheBin B}.
Variable hashString : string -> N.
Variable writeOptions : option (Options B).

Local Abbreviation vis := (visits hashString writeOptions).
Local Abbreviation vframe := (visited_frame hashString writeOptions).

Lemma visited_frame_refl (w : World B) : vframe w w.
Proof.
  exists []. cbn [visits fst snd]. rewrite app_nil_r.
  split; [reflexivity|]. split; [reflexivity|]. split.
  - intros ip. apply option_Forall2_refl'. intros img. now left.
  - intros x [].
Qed.

Lemma visited_frame_trans (w1 w2 w3 : World B) :
  vframe w1 w2 -> vframe w2 w3 -> vframe w1 w3.
Proof.
  intros (l1 & B1 & T1 & I1 & V1) (l2 & B2 & T2 & I2 & V2).
  exists (l1 ++ l2). rewrite visits_app. cbn [fst snd].
  split; [now rewrite B2, B1|].
  split; [rewrite T2, T1, B1; now rewrite app_assoc|]. split.
  - intros ip. specialize (I1 ip). specialize (I2 ip).
    destruct I1 as [i1 i2 C2|]; inversion I2 as [i2' i3 C3|]; subst;
      constructor.
    destruct C2 as [-> | (-> & Hin & Hp)].
    + destruct C3 as [-> | (-> & Hin & Hp)]; [now left | right].
      split; [reflexivity|]. split; [|exact Hp]. apply in_or_app. now right.
    + destruct C3 as [-> | (_ & _ & Hp3)].
      * right. split; [reflexivity|]. split; [|exact Hp].
        apply in_or_app. now left.
      * rewrite renamed_prefixed in Hp3. discriminate.
  - intros x Hx. apply in_app_or in Hx as [Hx | Hx]; [exact (V1 x Hx)|].
    destruct (V2 x Hx) as (Hp & q & Hq). split; [exact Hp|]. exists q.
    specialize (I1 q). rewrite Hq in I1.
    inversion I1 as [i1 i2 C E1 E2|]. subst.
    destruct C as [-> | (-> & _ & _)]; [reflexivity|].
    rewrite renamed_prefixed in Hp. discriminate.
Qed.

Lemma visited_frame_apply_Image (ip : ptr) :
  steps vframe (WR.apply_Image hashString writeOptions ip).
Proof.
  intros w u w' E. destruct (h_images (w_heap w) !! ip) as [img|] eqn:Hi.
  2:{ unfold WR.apply_Image, WR.getFileName, WR.heap, bind, lift_option in E.
      rewrite Hi in E. discriminate. }
  destruct (startsWith (img_fileName img) IMAGE_PREFIX) eqn:Hp.
  - rewrite (apply_Image_prefixed hashString writeOptions ip img w Hi Hp) in E.
    injection E as _ <-. apply visited_frame_refl.
  - rewrite (apply_Image_unprefixed hashString writeOptions ip img w Hi Hp)
      in E.
    injection E as _ <-. exists [img].
    unfold externalized. cbn [w_bin w_trace w_heap visits fst snd].
    rewrite !app_nil_r. split; [reflexivity|]. split; [reflexivity|]. split.
    + intros iq. unfold set_image. cbn [h_images].
      destruct (decide (ip = iq)) as [<- | Hne].
      * rewrite lookup_insert_eq, Hi. constructor. right.
        split; [reflexivity|]. split; [now left | exact Hp].
      * rewrite lookup_insert_ne by assumption.
        apply option_Forall2_refl'. intros i. now left.
    + intros x [<- | []]. split; [exact Hp|]. now exists ip.
Qed.

Hypothesis write_then_ok : forall b key obj meta dbo,
  fst (write b key obj meta dbo) = true ->
  getRecordStatus (snd (write b key obj meta dbo)) key = STATUS_OK.
Hypothesis ok_persists : forall b key obj meta dbo k,
  getRecordStatus b k = STATUS_OK ->
  getRecordStatus (snd (write b key obj meta dbo)) k = STATUS_OK.

Lemma locked_region_resolves (img : Image) (b : B) :
  let key := WR.cacheKeyOf hashString (img_fileName img) in
  let r := locked_region hashString writeOptions img b in
  getRecordStatus (snd r) key = STATUS_OK
  \/ In (EvWrite key (ObjImage (renamed hashString img)) []
           (Some (image_dbo writeOptions)) false) (fst r).
Proof.
  cbv zeta. unfold locked_region.
  set (key := WR.cacheKeyOf hashString (img_fileName img)).
  set (obj := ObjImage (renamed hashString img)).
  set (dbo := Some (image_dbo writeOptions)).
  pose proof (write_then_ok b key obj [] dbo) as Hw.
  destruct (getRecordStatus b key) eqn:Ers; cbn [fst snd];
    [|now left|];
    destruct (write b key obj [] dbo) as [ok b'] eqn:Ew;
    cbn [fst snd] in *; destruct ok;
    solve [left; now apply Hw | right; simpl; auto 10].
Qed.

(** Each image visited is in the bin after the visits, unless the bin
    refused it. *)
Lemma visits_resolve (imgs : list Image) (b : B) (img : Image) :
  In img imgs ->
  let key := WR.cacheKeyOf hashString (img_fileName img) in
  getRecordStatus (snd (vis imgs b)) key = STATUS_OK
  \/ In (EvWrite key (ObjImage (renamed hashString img)) []
           (Some (image_dbo writeOptions)) false) (fst (vis imgs b)).
Proof.
  cbv zeta. revert b. induction imgs as [|x imgs IH]; intros b Hin;
    [destruct Hin|].
  rewrite visits_cons. cbn [fst snd]. destruct Hin as [-> | Hin].
  - destruct (locked_region_resolves img b) as [Hok | Hev].
    + left.
      now apply (visits_written hashString writeOptions
                   write_then_ok ok_persists).
    + right. apply in_or_app. right. apply in_or_app. now left.
  - destruct (IH (snd (locked_region hashString writeOptions x b)) Hin)
      as [Hok | Hev]; [now left | right].
    apply in_or_app. right. apply in_or_app. now right.
Qed.

End ExternalizerVisitedFrame.

(** X15. The references that WriteExternalReferencesToCache makes resolve,
    unless the bin refused the image: on a bin in which a record written is
    there and a record that is there stays, every image that a run has
    changed is named by its cache key and the extension, and after the run
    that key is STATUS_OK in the bin, or the trace holds the refused write
    of the renamed image under that key. *)
Theorem externalizer_references_resolve {B : Type} `{CacheBin B}
    (hashString : string -> N) (writeOptions : option (Options B))
    (w : World B) (root : Node) :
  (forall b key obj meta dbo,
     fst (write b key obj meta dbo) = true ->
     getRecordStatus (snd (write b key obj meta dbo)) key = STATUS_OK) ->
  (forall b key obj meta dbo k,
     getRecordStatus b k = STATUS_OK ->
     getRecordStatus (snd (write b key obj meta dbo)) k = STATUS_OK) ->
  wf_heap (w_heap w) ->
  node_ok (w_heap w) root = true ->
  exists w',
    WR.accept hashString writeOptions root w = Some (tt, w')
    /\ forall ip img img',
         h_images (w_heap w) !! ip = Some img ->
         h_images (w_heap w') !! ip = Some img' ->
         img' <> img ->
         let key := WR.cacheKeyOf hashString (img_fileName img) in
         img_fileName img' = (key ++ ".osgearth_cachebin")%string
         /\ (getRecordStatus (w_bin w') key = STATUS_OK
             \/ In (EvWrite key (ObjImage img') []
                      (Some (image_dbo writeOptions)) false)
                   (events_since w w')).
Proof.
  intros L1 L2 Hwf Hok.
  destruct (accept_settles hashString writeOptions w root Hwf Hok w
              (externalized_from_refl hashString w)) as (w' & E & _).
  exists w'. split; [exact E|].
  destruct (traversal_accept hashString writeOptions
              (visited_frame hashString writeOptions)
              (visited_frame_refl hashString writeOptions)
              (visited_frame_trans hashString writeOptions)
              (visited_frame_apply_Image hashString writeOptions)
              root _ _ _ E) as (imgs & Hb & T & HI & _).
  intros ip img img' Hi Hi' Hne key.
  specialize (HI ip). rewrite Hi, Hi' in HI.
  inversion HI as [i1 i2 C E1 E2|]. subst.
  destruct C as [-> | (-> & Hin & _)]; [contradiction|].
  split; [reflexivity|].
  rewrite (events_since_trace _ _ _ T), Hb.
  now apply (visits_resolve hashString writeOptions L1 L2).
Qed.

Lemma externalizer_references_resolve_witness :
  wf_heap (w_heap sample_world_twins)
  /\ node_ok (w_heap sample_world_twins) sample_root = true
  /\ exists w',
       WR.accept scenario_hash None sample_root sample_world_twins
       = Some (tt, w')
       /\ forall img',
            h_images (w_heap w') !! 4%positive = Some img' ->
            img' <> tex_png ->
            img_fileName img' = "i_a1b2c3.osgearth_cachebin"%string
            /\ (getRecordStatus (w_bin w') "i_a1b2c3"%string = STATUS_OK
                \/ In (EvWrite "i_a1b2c3"%string (ObjImage img') []
                         (Some (image_dbo None)) false)
                      (events_since sample_world_twins w')).
Proof.
  split; [exact sample_heap_twins_wf|]. split; [reflexivity|].
  destruct (externalizer_references_resolve scenario_hash None
              sample_world_twins sample_root
              MemBin_write_then_ok MemBin_ok_persists
              sample_heap_twins_wf eq_refl) as (w' & E & Hr).
  exists w'. split; [exact E|]. intros img' Hi' Hne.
  exact (Hr 4%positive tex_png img' eq_refl Hi' Hne).
Defined.

(** ** WriteExternalReferencesToCache: the frame of a run *)

Section ExternalizerOnlyRenames.
Context {B : Type} `{CacheBin B}.
Variable hashString : string -> N.
Variable writeOptions : option (Options B).

Lemma image_renamed_or_same_refl (i : Image) :
  image_renamed_or_same hashString i i.
Proof. repeat split. now left. Qed.

Lemma image_renamed_or_same_trans (i1 i2 i3 : Image) :
  image_renamed_or_same hashString i1 i2 ->
  image_renamed_or_same hashString i2 i3 ->
  image_renamed_or_same hashString i1 i3.
Proof.
  intros (U1 & D1 & C1) (U2 & D2 & C2).
  split; [congruence|]. split; [congruence|].
  destruct C1 as [-> | (P1 & N1 & W1)]; [exact C2|].
  destruct C2 as [-> | (P2 & _)]; [right; now repeat split|].
  pose proof (renamed_prefixed hashString i1) as Hp.
  unfold renamed in Hp. cbn [img_fileName] in Hp.
  rewrite N1 in P2. congruence.
Qed.

Lemma only_renamed_refl (w : World B) : only_renamed hashString w w.
Proof.
  split; [reflexivity|]. split; [reflexivity|]. intros ip.
  apply option_Forall2_refl'. apply image_renamed_or_same_refl.
Qed.

Lemma only_renamed_trans (w1 w2 w3 : World B) :
  only_renamed hashString w1 w2 -> only_renamed hashString w2 w3 ->
  only_renamed hashString w1 w3.
Proof.
  intros (S1 & A1 & I1) (S2 & A2 & I2).
  split; [congruence|]. split; [congruence|]. intros ip.
  eapply option_Forall2_trans'; [|apply I1|apply I2].
  apply image_renamed_or_same_trans.
Qed.

Lemma only_renamed_apply_Image (ip : ptr) :
  steps (only_renamed hashString)
        (WR.apply_Image hashString writeOptions ip).
Proof.
  intros w u w' E. destruct (h_images (w_heap w) !! ip) as [img|] eqn:Hi.
  2:{ unfold WR.apply_Image, WR.getFileName, WR.heap, bind, lift_option in E.
      rewrite Hi in E. discriminate. }
  destruct (startsWith (img_fileName img) IMAGE_PREFIX) eqn:Hp.
  - rewrite (apply_Image_prefixed hashString writeOptions ip img w Hi Hp) in E.
    injection E as _ <-. apply only_renamed_refl.
  - rewrite (apply_Image_unprefixed hashString writeOptions ip img w Hi Hp)
      in E.
    injection E as _ <-. split; [reflexivity|]. split; [reflexivity|].
    intros iq. unfold externalized, set_image. cbn [w_heap h_images].
    destruct (decide (ip = iq)) as [<- | Hne].
    + rewrite lookup_insert_eq, Hi. constructor.
      split; [reflexivity|]. split; [reflexivity|]. right.
      now repeat split.
    + rewrite lookup_insert_ne by assumption.
      apply option_Forall2_refl'. apply image_renamed_or_same_refl.
Qed.

End ExternalizerOnlyRenames.

(** X16. WriteExternalReferencesToCache touches nothing in the graph but
    the name and the write hint of images: after a run over a well-formed
    graph the state sets and the attributes of the store are what they
    were, no image has been added or removed, and every image has the user
    data and the pixel data it had; it is unchanged altogether unless its
    name lacked the prefix, in which case it is named by its cache key and
    the extension and marked as an external file. *)
Theorem externalizer_only_renames {B : Type} `{CacheBin B}
    (hashString : string -> N) (writeOptions : option (Options B))
    (w : World B) (root : Node) :
  wf_heap (w_heap w) ->
  node_ok (w_heap w) root = true ->
  exists w',
    WR.accept hashString writeOptions root w = Some (tt, w')
    /\ h_stateSets (w_heap w') = h_stateSets (w_heap w)
    /\ h_attrs (w_heap w') = h_attrs (w_heap w)
    /\ forall ip, option_Forall2 (image_renamed_or_same hashString)
                    (h_images (w_heap w) !! ip) (h_images (w_heap w') !! ip).
Proof.
  intros Hwf Hok.
  destruct (accept_settles hashString writeOptions w root Hwf Hok w
              (externalized_from_refl hashString w)) as (w' & E & _).
  exists w'. split; [exact E|].
  exact (traversal_accept hashString writeOptions
           (only_renamed hashString)
           (only_renamed_refl hashString)
           (only_renamed_trans hashString)
           (only_renamed_apply_Image hashString writeOptions)
           root _ _ _ E).
Qed.

Lemma externalizer_only_renames_witness :
  wf_heap (w_heap sample_world_tagged)
  /\ node_ok (w_heap sample_world_tagged) sample_root = true
  /\ exists w' img',
       WR.accept scenario_hash None sample_root sample_world_tagged
       = Some (tt, w')
       /\ h_attrs (w_heap w') = h_attrs sample_heap_tagged
       /\ h_images (w_heap w') !! 3%positive = Some img'
       /\ img_udc img' = Some sample_udc
       /\ img_data img' = [7%N].
Proof.
  split; [exact sample_heap_tagged_wf|]. split; [reflexivity|].
  destruct (externalizer_only_renames scenario_hash None
              sample_world_tagged sample_root sample_heap_tagged_wf eq_refl)
    as (w' & E & _ & HA & HI).
  specialize (HI 3%positive).
  change (h_images (w_heap sample_world_tagged) !! 3%positive)
    with (Some tagged_image) in HI.
  inversion HI as [i0 img' (Hu & Hd & _) Hi0 Hi' |]. subst i0.
  exists w', img'. split; [exact E|]. split; [exact HA|].
  split; [now symmetry|]. split; [exact Hu | exact Hd].
Defined.

(** ** CacheBin::writeNode and the pseudoloader: what is written loads back *)

Lemma refused_keys_app {B : Type} (evs1 evs2 : list (Event B)) :
  refused_keys (evs1 ++ evs2) = refused_keys evs1 ++ refused_keys evs2.
Proof. apply omap_app. Qed.

Lemma refused_keys_blank_warning {B : Type} (path : string) :
  refused_keys (B := B) (blank_warning path) = [].
Proof. unfold blank_warning. now destruct (bool_decide _). Qed.

Section LoadsBack.
Context {B : Type} `{CacheBin B}.
Variable hashString : string -> N.
Variable writeOptions : option (Options B).

Local Abbreviation vis := (visits hashString writeOptions).
Local Abbreviation region := (locked_region hashString writeOptions).

(** Four laws of a cache bin: an image written is there, and is read as it
    was written; a write under one key changes neither the status nor the
    reading of another. *)
Hypothesis write_then_ok : forall b key obj meta dbo,
  fst (write b key obj meta dbo) = true ->
  getRecordStatus (snd (write b key obj meta dbo)) key = STATUS_OK.
Hypothesis write_then_read : forall b key img meta dbo opts,
  fst (write b key (ObjImage img) meta dbo) = true ->
  readImage (snd (write b key (ObjImage img) meta dbo)) key opts
  = mkReadResult RESULT_OK (Some (ObjImage img)).
Hypothesis write_keeps_status : forall b key obj meta dbo k,
  k <> key ->
  getRecordStatus (snd (write b key obj meta dbo)) k = getRecordStatus b k.
Hypothesis write_keeps_read : forall b key obj meta dbo k opts,
  k <> key ->
  readImage (snd (write b key obj meta dbo)) k opts = readImage b k opts.

Lemma locked_region_others (img : Image) (b : B) (k : string) :
  k <> WR.cacheKeyOf hashString (img_fileName img) ->
  getRecordStatus (snd (region img b)) k = getRecordStatus b k
  /\ forall opts, readImage (snd (region img b)) k opts = readImage b k opts.
Proof.
  intros Hk. unfold locked_region.
  destruct (getRecordStatus b (WR.cacheKeyOf hashString (img_fileName img)));
    cbn [snd]; (split; [|intros opts]);
    first [reflexivity | now apply write_keeps_status
          | now apply write_keeps_read].
Qed.

Lemma locked_region_same (img : Image) (b : B) :
  let k := WR.cacheKeyOf hashString (img_fileName img) in
  (getRecordStatus b k = STATUS_OK -> snd (region img b) = b)
  /\ (getRecordStatus b k <> STATUS_OK ->
      In k (refused_keys (fst (region img b)))
      \/ (getRecordStatus (snd (region img b)) k = STATUS_OK
          /\ forall opts,
               readImage (snd (region img b)) k opts
               = mkReadResult RESULT_OK
                   (Some (ObjImage (renamed hashString img))))).
Proof.
  cbv zeta. unfold locked_region.
  set (k := WR.cacheKeyOf hashString (img_fileName img)).
  set (dbo := Some (image_dbo writeOptions)).
  pose proof (write_then_ok b k (ObjImage (renamed hashString img)) [] dbo)
    as H1.
  pose proof (write_then_read b k (renamed hashString img) [] dbo) as H2.
  destruct (getRecordStatus b k) eqn:Ers; cbn [fst snd].
  2:{ split; [reflexivity | intros Hn; contradiction]. }
  all: split; [discriminate|]; intros _;
    destruct (write b k (ObjImage (renamed hashString img)) [] dbo)
      as [ok b'] eqn:Ew;
    cbn [fst snd] in *; destruct ok;
    [right; split; [now apply H1 | intros opts; now apply H2]
    | left; simpl; now left].
Qed.

(** A key that is STATUS_OK is left alone by the visits. *)
Lemma visits_keep_ok (imgs : list Image) (b : B) (k : string) :
  getRecordStatus b k = STATUS_OK ->
  getRecordStatus (snd (vis imgs b)) k = STATUS_OK
  /\ forall opts, readImage (snd (vis imgs b)) k opts = readImage b k opts.
Proof.
  revert b. induction imgs as [|img imgs IH]; intros b Hk; [now split|].
  rewrite visits_cons. cbn [snd].
  destruct (decide (k = WR.cacheKeyOf hashString (img_fileName img)))
    as [-> | Hne].
  - rewrite (proj1 (locked_region_same img b) Hk). now apply IH.
  - destruct (locked_region_others img b k Hne) as [Hs Hr].
    destruct (IH (snd (region img b))) as [Hs' Hr']; [now rewrite Hs|].
    split; [exact Hs'|]. intros opts. now rewrite Hr', Hr.
Qed.

(** After the visits, the key of an image visited that was not STATUS_OK
    before reads as one of the images visited, renamed, unless the bin
    refused a write under that key. *)
Lemma visits_load (imgs : list Image) (b : B) (img : Image) :
  In img imgs ->
  getRecordStatus b (WR.cacheKeyOf hashString (img_fileName img))
  <> STATUS_OK ->
  In (WR.cacheKeyOf hashString (img_fileName img))
     (refused_keys (fst (vis imgs b)))
  \/ exists x,
       In x imgs
       /\ WR.cacheKeyOf hashString (img_fileName x)
          = WR.cacheKeyOf hashString (img_fileName img)
       /\ forall opts,
            readImage (snd (vis imgs b))
                      (WR.cacheKeyOf hashString (img_fileName img)) opts
            = mkReadResult RESULT_OK (Some (ObjImage (renamed hashString x))).
Proof.
  revert b. induction imgs as [|img0 imgs IH]; intros b Hin Hst;
    [destruct Hin|].
  rewrite visits_cons. cbn [fst snd].
  rewrite !refused_keys_app, refused_keys_blank_warning. cbn [app].
  destruct (decide (WR.cacheKeyOf hashString (img_fileName img)
                    = WR.cacheKeyOf hashString (img_fileName img0)))
    as [Hk | Hk].
  - rewrite Hk in *.
    destruct (proj2 (locked_region_same img0 b) Hst) as [Href | [Hok Hread]].
    + left. apply in_or_app. now left.
    + right. exists img0. split; [now left|]. split; [reflexivity|].
      intros opts.
      destruct (visits_keep_ok imgs (snd (region img0 b)) _ Hok) as [_ Hr].
      now rewrite Hr.
  - destruct Hin as [-> | Hin]; [contradiction|].
    destruct (locked_region_others img0 b _ Hk) as [Hs _].
    destruct (IH (snd (region img0 b)) Hin) as [Href | (x & Hx & Hkx & Hr)];
      [now rewrite Hs | |].
    + left. apply in_or_app. now right.
    + right. exists x. split; [now right|]. now split.
Qed.

End LoadsBack.

Lemma MemBin_write_keeps_status (b : MemBin) (key : string) (obj : Object)
    (meta : Config) (dbo : option (Options MemBin)) (k : string) :
  k <> key ->
  getRecordStatus (snd (write b key obj meta dbo)) k = getRecordStatus b k.
Proof.
  intros Hk. unfold write, getRecordStatus, MemBin_CacheBin. cbn [fst snd].
  rewrite lookup_insert_ne by congruence. reflexivity.
Qed.

Lemma MemBin_write_keeps_read (b : MemBin) (key : string) (obj : Object)
    (meta : Config) (dbo : option (Options MemBin)) (k : string)
    (opts : option (Options MemBin)) :
  k <> key ->
  readImage (snd (write b key obj meta dbo)) k opts = readImage b k opts.
Proof.
  intros Hk. unfold write, readImage, MemBin_CacheBin. cbn [fst snd].
  rewrite lookup_insert_ne by congruence. reflexivity.
Qed.

(** X17. What [writeNode] writes loads back. On a bin in which an image
    written is there and is read as written, and in which a write under one
    key changes neither the status nor the reading of another, and with a
    key for the graph that does not start with the prefix: after a call on
    a well-formed graph, take an image that the call has renamed and whose
    cache key was not STATUS_OK before. Then the bin refused a write under
    that key, or the pseudoloader, given the image's new name and the bin
    as the call leaves it, answers FILE_LOADED with an image that bears
    that name, is marked as an external file, and has the pixel data of an
    image of the graph whose path has the same cache key. *)
Theorem written_images_load_back {B : Type} `{CacheBin B}
    (hashString : string -> N) (key : string) (node : Node)
    (metadata : Config) (writeOptions : option (Options B)) (w : World B) :
  (forall b key obj meta dbo,
     fst (write b key obj meta dbo) = true ->
     getRecordStatus (snd (write b key obj meta dbo)) key = STATUS_OK) ->
  (forall b key img meta dbo opts,
     fst (write b key (ObjImage img) meta dbo) = true ->
     readImage (snd (write b key (ObjImage img) meta dbo)) key opts
     = mkReadResult RESULT_OK (Some (ObjImage img))) ->
  (forall b key obj meta dbo k,
     k <> key ->
     getRecordStatus (snd (write b key obj meta dbo)) k
     = getRecordStatus b k) ->
  (forall b key obj meta dbo k opts,
     k <> key ->
     readImage (snd (write b key obj meta dbo)) k opts = readImage b k opts) ->
  wf_heap (w_heap w) ->
  node_ok (w_heap w) node = true ->
  startsWith key IMAGE_PREFIX = false ->
  exists w',
    writeNode hashString key node metadata writeOptions w
    = Some ((true, strip_node node), w')
    /\ forall ip img img' readOptions,
         h_images (w_heap w) !! ip = Some img ->
         h_images (w_heap w') !! ip = Some img' ->
         img_fileName img' <> img_fileName img ->
         getRecordStatus (w_bin w)
           (WR.cacheKeyOf hashString (img_fileName img)) <> STATUS_OK ->
         CacheBin_get readOptions = Some (w_bin w') ->
         In (WR.cacheKeyOf hashString (img_fileName img))
            (refused_keys (events_since w w'))
         \/ exists x q imgq,
              fst (PL.readImage (img_fileName img') readOptions)
              = PL.mkResult PL.FILE_LOADED (Some (ObjImage x))
              /\ img_fileName x = img_fileName img'
              /\ img_writeHint x = EXTERNAL_FILE
              /\ h_images (w_heap w) !! q = Some imgq
              /\ WR.cacheKeyOf hashString (img_fileName imgq)
                 = WR.cacheKeyOf hashString (img_fileName img)
              /\ img_data x = img_data imgq.
Proof.
  intros L1 L2 L3 L4 Hwf Hok Hkey. unfold writeNode.
  destruct (accept_run node (PC.mkState PC.new w) Hwf Hok)
    as (s' & E & W' & G').
  rewrite E.
  assert (Hok' : node_ok (hp s') (strip_node node) = true).
  { rewrite node_ok_strip. apply (node_ok_grows (w_heap w));
      [now apply sanitized_from_grows | exact Hok]. }
  destruct (accept_settles hashString writeOptions (PC.world s')
              (strip_node node) W' Hok' (PC.world s')
              (externalized_from_refl hashString _))
    as (w1 & E1 & _ & _).
  rewrite (bind_run _ _ _ _ _ E1).
  unfold WR.heap, WR.bin_write, bind, ret.
  destruct (write (w_bin w1) key (ObjNode (strip_node node) (w_heap w1))
              metadata writeOptions) as [ok b] eqn:Ew.
  eexists. split; [reflexivity|].
  intros ip img img' readOptions Hi Hi' Hname Hst Hget.
  cbn [emit w_heap w_bin] in Hi', Hget.
  destruct (steps_accept node _ _ _ E)
    as ((_ & _ & HIp) & HBp & (evs0 & T0 & F0) & _).
  unfold hp in HIp. cbn [PC.world] in HIp, HBp, T0.
  destruct (traversal_accept hashString writeOptions
              (visited_frame hashString writeOptions)
              (visited_frame_refl hashString writeOptions)
              (visited_frame_trans hashString writeOptions)
              (visited_frame_apply_Image hashString writeOptions)
              (strip_node node) _ _ _ E1) as (imgs & Hb & T & HI & HV).
  pose proof (HIp ip) as Hip. rewrite Hi in Hip.
  inversion Hip as [i0 img0 (Hn0 & _ & _ & _) Ei0 Eimg0 |]. subst i0.
  symmetry in Eimg0.
  pose proof (HI ip) as Hip1. rewrite Eimg0, Hi' in Hip1.
  inversion Hip1 as [i1 i2 C Ei1 Ei2 |]. subst i1 i2.
  destruct C as [-> | (-> & Hin & _)]; [contradiction|].
  rewrite <- Hn0 in Hst |- *. rewrite <- HBp in Hst.
  destruct (visits_load hashString writeOptions L1 L2 L3 L4 imgs
              (w_bin (PC.world s')) img0 Hin Hst)
    as [Href | (x & Hx & Hkx & Hread)].
  - left.
    rewrite (events_since_trace w _
               (evs0 ++ fst (visits hashString writeOptions imgs
                               (w_bin (PC.world s')))
                ++ [EvWrite key (ObjNode (strip_node node) (w_heap w1))
                      metadata writeOptions ok])).
    + rewrite !refused_keys_app. apply in_or_app. right.
      apply in_or_app. now left.
    + unfold emit. cbn [w_trace]. rewrite T, T0.
      now rewrite <- !app_assoc.
  - right. destruct (HV x Hx) as (_ & q & Hq).
    pose proof (HIp q) as Hq0. rewrite Hq in Hq0.
    inversion Hq0 as [imgq x' (Hnq & _ & Hdq & _) Eq0 Ex' |]. subst x'.
    exists (renamed hashString x), q, imgq.
    split; [|split; [|split; [|split; [|split]]]].
    + rewrite (readImage_of_renamed hashString img0 readOptions b Hget).
      assert (Eb : b = snd (write (w_bin w1) key
                              (ObjNode (strip_node node) (w_heap w1))
                              metadata writeOptions)) by now rewrite Ew.
      rewrite Eb, L4, Hb, Hread; [reflexivity|].
      intros Hc. rewrite <- Hc in Hkey. unfold WR.cacheKeyOf in Hkey.
      rewrite startsWith_app in Hkey. discriminate.
    + unfold renamed. cbn [img_fileName]. now rewrite Hkx.
    + reflexivity.
    + now symmetry.
    + now rewrite <- Hnq.
    + exact Hdq.
Qed.

Lemma written_images_load_back_witness :
  wf_heap (w_heap sample_world_tagged)
  /\ node_ok (w_heap sample_world_tagged) sample_root_with_user_data = true
  /\ startsWith "tile" IMAGE_PREFIX = false
  /\ exists w',
       writeNode scenario_hash "tile" sample_root_with_user_data [] None
                 sample_world_tagged
       = Some ((true, strip_node sample_root_with_user_data), w')
       /\ forall img',
            h_images (w_heap w') !! 3%positive = Some img' ->
            img_fileName img' <> "/data/tex.png"%string ->
            In "i_a1b2c3"%string
               (refused_keys (events_since sample_world_tagged w'))
            \/ exists x,
                 fst (PL.readImage (img_fileName img')
                        (Some (mkOptions ∅ (Some (w_bin w')))))
                 = PL.mkResult PL.FILE_LOADED (Some (ObjImage x))
                 /\ img_fileName x = img_fileName img'.
Proof.
  split; [exact sample_heap_tagged_wf|]. split; [reflexivity|].
  split; [reflexivity|].
  destruct (written_images_load_back scenario_hash "tile"
              sample_root_with_user_data [] None sample_world_tagged
              MemBin_write_then_ok
              (fun b key img meta dbo opts _ =>
                 MemBin_read_after_write b key img meta dbo opts)
              MemBin_write_keeps_status MemBin_write_keeps_read
              sample_heap_tagged_wf eq_refl eq_refl) as (w' & E & Hl).
  exists w'. split; [exact E|]. intros img' Hi' Hn.
  destruct (Hl 3%positive tagged_image img'
              (Some (mkOptions ∅ (Some (w_bin w')))) eq_refl Hi' Hn)
    as [Href | (x & q & imgq & Hr & Hx & _)].
  - discriminate.
  - reflexivity.
  - now left.
  - right. exists x. now split.
Defined.

(** ** Paths whose hashes collide *)

(** X18. The cache key is made of the hash of the path alone, so two
    images whose paths hash alike share one record: when the first is
    visited with its key not STATUS_OK and the bin accepts it, on a bin in
    which an image written is there and is read as written, the visit of
    the second writes nothing, and the pseudoloader, given the new name of
    the second image, answers with the first image, whatever the second
    one holds. *)
Theorem colliding_paths_load_first_image {B : Type} `{CacheBin B}
    (hashString : string -> N) (opts1 opts2 : option (Options B))
    (w : World B) (ip1 ip2 : ptr) (img1 img2 : Image) :
  (forall b key obj meta dbo,
     fst (write b key obj meta dbo) = true ->
     getRecordStatus (snd (write b key obj meta dbo)) key = STATUS_OK) ->
  (forall b key img meta dbo opts,
     fst (write b key (ObjImage img) meta dbo) = true ->
     readImage (snd (write b key (ObjImage img) meta dbo)) key opts
     = mkReadResult RESULT_OK (Some (ObjImage img))) ->
  ip1 <> ip2 ->
  h_images (w_heap w) !! ip1 = Some img1 ->
  h_images (w_heap w) !! ip2 = Some img2 ->
  startsWith (img_fileName img1) IMAGE_PREFIX = false ->
  startsWith (img_fileName img2) IMAGE_PREFIX = false ->
  hashString (img_fileName img1) = hashString (img_fileName img2) ->
  let key := WR.cacheKeyOf hashString (img_fileName img1) in
  getRecordStatus (w_bin w) key <> STATUS_OK ->
  fst (write (w_bin w) key (ObjImage (renamed hashString img1)) []
             (Some (image_dbo opts1))) = true ->
  exists w1 w2 img2',
    WR.apply_Image hashString opts1 ip1 w = Some (tt, w1)
    /\ WR.apply_Image hashString opts2 ip2 w1 = Some (tt, w2)
    /\ writes_since w1 w2 = []
    /\ h_images (w_heap w2) !! ip2 = Some img2'
    /\ img_data img2' = img_data img2
    /\ forall readOptions,
         CacheBin_get readOptions = Some (w_bin w2) ->
         fst (PL.readImage (img_fileName img2') readOptions)
         = PL.mkResult PL.FILE_LOADED
             (Some (ObjImage (renamed hashString img1))).
Proof.
  intros L1 L2 Hne Hi1 Hi2 Hp1 Hp2 Hh key Hst Hacc.
  set (w1 := externalized hashString opts1 ip1 img1 w).
  assert (Hk : WR.cacheKeyOf hashString (img_fileName img2) = key).
  { unfold key, WR.cacheKeyOf. now rewrite Hh. }
  assert (Hi2' : h_images (w_heap w1) !! ip2 = Some img2).
  { unfold w1, externalized, set_image. simpl.
    now rewrite lookup_insert_ne. }
  assert (Hb1 : w_bin w1
                = snd (write (w_bin w) key (ObjImage (renamed hashString img1))
                             [] (Some (image_dbo opts1)))).
  { unfold w1, externalized, locked_region. cbn [w_bin snd]. fold key.
    destruct (getRecordStatus (w_bin w) key);
      [reflexivity | contradiction | reflexivity]. }
  assert (Hok : getRecordStatus (w_bin w1) key = STATUS_OK).
  { rewrite Hb1. now apply L1. }
  assert (Hb2 : w_bin (externalized hashString opts2 ip2 img2 w1) = w_bin w1).
  { unfold externalized at 1. cbn [w_bin]. unfold locked_region.
    cbv zeta. rewrite Hk, Hok. reflexivity. }
  exists w1, (externalized hashString opts2 ip2 img2 w1),
         (renamed hashString img2).
  split; [now apply apply_Image_unprefixed|].
  split; [now apply apply_Image_unprefixed|].
  split; [rewrite writes_since_externalized, Hk, Hok; reflexivity|].
  split; [apply lookup_externalized|]. split; [reflexivity|].
  intros readOptions Hget.
  rewrite (readImage_of_renamed hashString img2 readOptions _ Hget).
  rewrite Hk, Hb2, Hb1, (L2 _ _ _ _ _ _ Hacc). reflexivity.
Qed.

Lemma colliding_paths_load_first_image_witness :
  exists w1 w2 img2',
    WR.apply_Image scenario_hash None 3%positive sample_world = Some (tt, w1)
    /\ WR.apply_Image scenario_hash None 1%positive w1 = Some (tt, w2)
    /\ writes_since w1 w2 = []
    /\ h_images (w_heap w2) !! 1%positive = Some img2'
    /\ img_data img2' = [1%N]
    /\ fst (PL.readImage (img_fileName img2')
              (Some (mkOptions ∅ (Some (w_bin w2)))))
       = PL.mkResult PL.FILE_LOADED
           (Some (ObjImage
                    (mkImage None "i_a1b2c3.osgearth_cachebin"%string
                             EXTERNAL_FILE [7%N]))).
Proof.
  destruct (colliding_paths_load_first_image scenario_hash None None
              sample_world 3%positive 1%positive tex_png blank_image_1
              MemBin_write_then_ok
              (fun b key img meta dbo opts _ =>
                 MemBin_read_after_write b key img meta dbo opts))
    as (w1 & w2 & img2' & E1 & E2 & Hw & Hi & Hd & Hl);
    try reflexivity; try discriminate.
  exists w1, w2, img2'. repeat (split; [assumption|]).
  exact (Hl (Some (mkOptions ∅ (Some (w_bin w2)))) eq_refl).
Defined.

(** ** PrepareForCaching on stores whose plain attribute lists hold
    textures *)

Lemma texture_flagged_refl (t : Texture) : texture_flagged t t.
Proof. split; [reflexivity|]. split; [reflexivity | now left]. Qed.

Lemma texture_flagged_trans (t1 t2 t3 : Texture) :
  texture_flagged t1 t2 -> texture_flagged t2 t3 -> texture_flagged t1 t3.
Proof.
  intros (I1 & C1 & F1) (I2 & C2 & F2).
  split; [congruence|]. split; [congruence|].
  destruct F2 as [F2 | F2]; [|now right]. rewrite F2. exact F1.
Qed.

Lemma texture_flagged_to_cleared (t : Texture) :
  texture_flagged t (cleared t).
Proof. split; [reflexivity|]. split; [reflexivity | now right]. Qed.

Lemma texture_flagged_of_cleared (t t' : Texture) :
  texture_flagged (cleared t) t' -> t' = cleared t.
Proof.
  intros (HI & HC & HF). destruct t' as [f i c]. unfold cleared in *.
  unfold PC.setUnRefImageDataAfterApply in *. simpl in *. subst.
  now destruct HF as [-> | ->].
Qed.

Lemma cleared_of_flagged (t t' : Texture) :
  texture_flagged t t' -> cleared t' = cleared t.
Proof.
  intros (HI & HC & _). unfold cleared, PC.setUnRefImageDataAfterApply.
  now rewrite HI, HC.
Qed.

Section KeptOutside.
Variable X : ptr -> Prop.

Lemma attr_kept_outside_refl (p : ptr) (a : StateAttribute) :
  attr_kept_outside X p a a.
Proof.
  split; [now left|]. split; [|reflexivity].
  apply option_Forall2_refl'. apply texture_flagged_refl.
Qed.

Lemma attr_kept_outside_trans (p : ptr) (a1 a2 a3 : StateAttribute) :
  attr_kept_outside X p a1 a2 -> attr_kept_outside X p a2 a3 ->
  attr_kept_outside X p a1 a3.
Proof.
  intros (U1 & T1 & K1) (U2 & T2 & K2). split; [|split].
  - destruct U2 as [-> | ->]; [exact U1 | now right].
  - eapply option_Forall2_trans'; [|exact T1|exact T2].
    apply texture_flagged_trans.
  - intros Ht Hx. rewrite K2, K1; try assumption; [reflexivity|].
    destruct T1 as [t1 t2 _|]; [eauto | destruct Ht as [? [=]]].
Qed.

Lemma kept_outside_refl (h : Heap) : kept_outside X h h.
Proof.
  intros p a Ha. exists a. split; [exact Ha | apply attr_kept_outside_refl].
Qed.

Lemma kept_outside_trans (h1 h2 h3 : Heap) :
  kept_outside X h1 h2 -> kept_outside X h2 h3 -> kept_outside X h1 h3.
Proof.
  intros H12 H23 p a Ha. destruct (H12 p a Ha) as (a2 & Ha2 & K2).
  destruct (H23 p a2 Ha2) as (a3 & Ha3 & K3). exists a3.
  split; [exact Ha3 | now apply (attr_kept_outside_trans p a a2)].
Qed.

Lemma kept_outside_attrs_eq (h h' : Heap) :
  h_attrs h' = h_attrs h -> kept_outside X h h'.
Proof.
  intros E p a Ha. exists a. rewrite E.
  split; [exact Ha | apply attr_kept_outside_refl].
Qed.

Lemma kept_outside_insert (h h' : Heap) (p : ptr) (a' : StateAttribute) :
  h_attrs h' = <[p := a']> (h_attrs h) ->
  (forall a, h_attrs h !! p = Some a -> attr_kept_outside X p a a') ->
  kept_outside X h h'.
Proof.
  intros E Hp r b Hb. rewrite E. destruct (decide (r = p)) as [-> | Hne].
  - rewrite lookup_insert_eq. eauto.
  - rewrite lookup_insert_ne by congruence. exists b.
    split; [exact Hb | apply attr_kept_outside_refl].
Qed.

Lemma kept_outside_insert_clone (h h' : Heap) (p q : ptr)
    (a1 c : StateAttribute) :
  h_attrs h' = <[q := c]> (<[p := a1]> (h_attrs h)) ->
  h_attrs h !! q = None ->
  (forall a, h_attrs h !! p = Some a -> attr_kept_outside X p a a1) ->
  kept_outside X h h'.
Proof.
  intros E Hq Hp r b Hb. rewrite E.
  assert (r <> q) by congruence.
  rewrite lookup_insert_ne by congruence.
  destruct (decide (r = p)) as [-> | Hne].
  - rewrite lookup_insert_eq. eauto.
  - rewrite lookup_insert_ne by congruence. exists b.
    split; [exact Hb | apply attr_kept_outside_refl].
Qed.

Lemma attr_kept_outside_flag (p : ptr) (a : StateAttribute) (tex : Texture) :
  sa_texture a = Some tex ->
  attr_kept_outside X p a (mkSA (sa_udc a) (Some (cleared tex))).
Proof.
  intros Et. split; [now left|]. split; [|reflexivity].
  rewrite Et. constructor. apply texture_flagged_to_cleared.
Qed.

Lemma attr_kept_outside_plain (p : ptr) (a : StateAttribute) :
  sa_texture a = None -> attr_kept_outside X p a (mkSA None None).
Proof.
  intros Et. split; [now right|]. rewrite Et. split; [constructor|].
  intros [? [=]].
Qed.

Lemma attr_kept_outside_listed (p : ptr) (a : StateAttribute) :
  X p -> attr_kept_outside X p a (mkSA None (sa_texture a)).
Proof.
  intros Hx. split; [now right|]. split; [|easy].
  apply option_Forall2_refl'. apply texture_flagged_refl.
Qed.

End KeptOutside.

Section LoopsFrom.
Context {S : Type}.
Variable R : S -> S -> Prop.
Hypothesis R_refl : forall s, R s s.
Hypothesis R_trans : forall s1 s2 s3, R s1 s2 -> R s2 s3 -> R s1 s3.

(** What a round of a loop establishes of its element and of what it
    returns for it, in a state that the loop has reached from [s0], and the
    later rounds keep, holds of every element when the loop is done. *)
Lemma mapM_posts_from {A C : Type} (s0 : S) (P : A -> C -> S -> Prop)
    (f : A -> M S C) (l : list A) :
  (forall x y s s', R s s' -> P x y s -> P x y s') ->
  (forall x, steps R (f x)) ->
  (forall x s y s', R s0 s -> f x s = Some (y, s') -> P x y s') ->
  forall s ys s', R s0 s -> mapM f l s = Some (ys, s') ->
    Forall2 (fun x y => P x y s') l ys.
Proof.
  intros Hst Hf Hp. induction l as [|x l IH]; intros s ys s' H0 E.
  - injection E as <- _. constructor.
  - cbn [mapM] in E. destruct (bind_inv _ _ _ _ _ E) as (y & s1 & E1 & E2).
    destruct (bind_inv _ _ _ _ _ E2) as (ys' & s2 & E3 & E4).
    injection E4 as <- <-. constructor.
    + apply (Hst x y s1); [|exact (Hp _ _ _ _ H0 E1)].
      exact (steps_mapM R R_refl R_trans f l Hf _ _ _ E3).
    + apply (IH s1); [|exact E3].
      apply (R_trans _ s); [exact H0 | exact (Hf x _ _ _ E1)].
Qed.

(** A loop runs to its end when each round runs wherever what it needs
    holds, and the rounds keep what the later rounds need. *)
Lemma forM__runs {A : Type} (Q : A -> S -> Prop) (f : A -> M S unit)
    (l : list A) :
  (forall x s s', R s s' -> Q x s -> Q x s') ->
  (forall x, steps R (f x)) ->
  (forall x s, Q x s -> exists s', f x s = Some (tt, s')) ->
  forall s, Forall (fun x => Q x s) l -> exists s', forM_ l f s = Some (tt, s').
Proof.
  intros Hst Hf Hq. induction l as [|x l IH]; intros s Hl.
  - now exists s.
  - apply Forall_cons in Hl as [Hx Hl].
    destruct (Hq x s Hx) as (s1 & E1).
    destruct (IH s1) as (s2 & E2).
    { eapply Forall_impl; [exact Hl|]. intros y. apply Hst.
      exact (Hf x _ _ _ E1). }
    exists s2. cbn [forM_]. now rewrite (bind_run _ _ _ _ _ E1).
Qed.

Lemma mapM_runs {A C : Type} (Q : A -> S -> Prop) (f : A -> M S C)
    (l : list A) :
  (forall x s s', R s s' -> Q x s -> Q x s') ->
  (forall x, steps R (f x)) ->
  (forall x s, Q x s -> exists y s', f x s = Some (y, s')) ->
  forall s, Forall (fun x => Q x s) l ->
    exists ys s', mapM f l s = Some (ys, s').
Proof.
  intros Hst Hf Hq. induction l as [|x l IH]; intros s Hl.
  - now exists [], s.
  - apply Forall_cons in Hl as [Hx Hl].
    destruct (Hq x s Hx) as (y & s1 & E1).
    destruct (IH s1) as (ys & s2 & E2).
    { eapply Forall_impl; [exact Hl|]. intros z. apply Hst.
      exact (Hf x _ _ _ E1). }
    exists (y :: ys), s2. cbn [mapM].
    rewrite (bind_run _ _ _ _ _ E1), (bind_run _ _ _ _ _ E2). reflexivity.
Qed.

End LoopsFrom.

Section PrepareForCachingAnyStore.
Context {B : Type}.

Local Abbreviation strip_image := (fun image : option ptr =>
  match image with
  | Some ip => PC.applyUserData_image (B := B) ip
  | None => ret tt
  end).

Local Abbreviation strip_plain := (fun i : TypeMemberPair * RefAttributePair =>
  match fst (snd i) with
  | Some sa => PC.applyUserData_attr (B := B) sa
  | None => fail
  end).

Lemma attrs_kept_refl (s : PC.State B) : attrs_kept s s.
Proof. reflexivity. Qed.

Lemma attrs_kept_trans (s1 s2 s3 : PC.State B) :
  attrs_kept s1 s2 -> attrs_kept s2 s3 -> attrs_kept s1 s3.
Proof. unfold attrs_kept. congruence. Qed.

Lemma attrs_kept_strip_images (imgs : list (option ptr)) :
  steps (attrs_kept (B := B)) (forM_ imgs strip_image).
Proof.
  apply steps_forM_; [exact attrs_kept_refl | exact attrs_kept_trans|].
  intros [ip|]; [|apply steps_ret; exact attrs_kept_refl].
  intros s u s' E. destruct (h_images (hp s) !! ip) as [i|] eqn:Hi.
  - destruct (applyUserData_image_run ip i s Hi) as (s1 & E1 & Hw).
    rewrite E1 in E. injection E as _ <-.
    unfold attrs_kept, hp. now rewrite Hw.
  - unfold PC.applyUserData_image, PC.heap, bind, lift_option in E.
    unfold hp in Hi. rewrite Hi in E. discriminate.
Qed.

(** The attributes of the store after the visit of one entry of a texture
    unit, case by case. *)
Lemma apply_textureSlot_cases (e e' : TypeMemberPair * RefAttributePair)
    (s s' : PC.State B) :
  PC.apply_textureSlot e s = Some (e', s') ->
  match fst (snd e) with
  | None => e' = e /\ h_attrs (hp s') = h_attrs (hp s)
  | Some p =>
      exists a,
        h_attrs (hp s) !! p = Some a
        /\ match sa_texture a with
           | None =>
               e' = e
               /\ h_attrs (hp s') = <[p := mkSA None None]> (h_attrs (hp s))
           | Some tex =>
               if tex_clonable tex
               then exists q,
                      e' = (fst e, (Some q, snd (snd e)))
                      /\ q <> p
                      /\ h_attrs (hp s) !! q = None
                      /\ h_attrs (hp s')
                         = <[q := mkSA None (Some (cleared tex))]>
                             (<[p := mkSA (sa_udc a) (Some (cleared tex))]>
                                (h_attrs (hp s)))
               else e' = e
                    /\ h_attrs (hp s')
                       = <[p := mkSA (sa_udc a) (Some (cleared tex))]>
                           (h_attrs (hp s))
           end
  end.
Proof.
  intros E. unfold PC.apply_textureSlot in E.
  destruct (fst (snd e)) as [p|] eqn:Ep.
  2:{ injection E as <- <-. now split. }
  unfold PC.heap in E. unfold bind at 1 in E. unfold bind at 1 in E.
  destruct (h_attrs (w_heap (PC.world s)) !! p) as [a|] eqn:Ea;
    [|discriminate].
  unfold lift_option, ret at 1 in E. exists a. split; [exact Ea|].
  destruct (sa_texture a) as [tex|] eqn:Et.
  - destruct (bind_inv _ _ _ _ _ E) as (x & s1 & E1 & E2). clear E.
    assert (H1 : h_attrs (hp s1)
                 = <[p := mkSA (sa_udc a) (Some (cleared tex))]>
                     (h_attrs (hp s))).
    { injection E1 as _ <-. reflexivity. }
    clear E1.
    assert (Ha1 : h_attrs (hp s1) !! p
                  = Some (mkSA (sa_udc a) (Some (cleared tex))))
      by (rewrite H1; apply lookup_insert_eq).
    destruct (bind_inv _ _ _ _ _ E2) as (texClone & s2 & E3 & E4). clear E2.
    rewrite (clone_run p _ (cleared tex) s1 Ha1 eq_refl) in E3.
    change (tex_clonable (cleared tex)) with (tex_clonable tex) in E3.
    destruct (tex_clonable tex) eqn:Ecl.
    + injection E3 as <- Es2.
      set (q := fresh (dom (h_attrs (hp s1)))) in *.
      assert (Hq1 : h_attrs (hp s1) !! q = None)
        by (apply not_elem_of_dom, is_fresh).
      assert (H2 : h_attrs (hp s2)
                   = <[q := mkSA (sa_udc a) (Some (cleared tex))]>
                       (h_attrs (hp s1)))
        by (rewrite <- Es2; reflexivity).
      clear Es2.
      assert (Ha2 : h_attrs (hp s2) !! q
                    = Some (mkSA (sa_udc a) (Some (cleared tex))))
        by (rewrite H2; apply lookup_insert_eq).
      destruct (bind_inv _ _ _ _ _ E4) as (imgs & s3 & E5 & E6). clear E4.
      rewrite (getImages_run q _ s2 Ha2) in E5. injection E5 as <- <-.
      destruct (bind_inv _ _ _ _ _ E6) as (y & s4 & E7 & E8). clear E6.
      destruct (bind_inv _ _ _ _ _ E8) as (z & s5 & E9 & E10). clear E8.
      injection E10 as <- <-.
      pose proof (attrs_kept_strip_images _ _ _ _ E7) as H3.
      unfold attrs_kept in H3.
      assert (Ha4 : h_attrs (hp s4) !! q
                    = Some (mkSA (sa_udc a) (Some (cleared tex))))
        by (rewrite H3; exact Ha2).
      destruct (applyUserData_attr_run q _ s4 Ha4) as (s6 & E11 & Hw).
      rewrite E11 in E9. injection E9 as _ <-.
      assert (Hqp : q <> p) by (intros ->; congruence).
      exists q. split; [reflexivity|]. split; [exact Hqp|]. split.
      * rewrite H1, lookup_insert_ne in Hq1 by congruence. exact Hq1.
      * unfold hp at 1. rewrite Hw. cbn [set_heap w_heap set_attr h_attrs].
        fold (hp s4). rewrite H3, H2, insert_insert_eq, H1. reflexivity.
    + injection E3 as <- <-.
      destruct (bind_inv _ _ _ _ _ E4) as (y & s3 & E5 & E6). clear E4.
      injection E6 as <- <-. injection E5 as _ <-.
      split; [reflexivity | exact H1].
  - destruct (bind_inv _ _ _ _ _ E) as (x & s1 & E1 & E2). clear E.
    injection E2 as <- <-.
    destruct (applyUserData_attr_run p a s Ea) as (s2 & E3 & Hw).
    rewrite E3 in E1. injection E1 as _ <-.
    split; [reflexivity|]. unfold hp at 1. rewrite Hw.
    cbn [set_heap w_heap set_attr h_attrs]. now rewrite Et.
Qed.

Variable X : ptr -> Prop.

Local Abbreviation kept := (fun s s' : PC.State B =>
  kept_outside X (hp s) (hp s')).

Lemma kept_refl (s : PC.State B) : kept s s.
Proof. apply kept_outside_refl. Qed.

Lemma kept_trans (s1 s2 s3 : PC.State B) : kept s1 s2 -> kept s2 s3 -> kept s1 s3.
Proof. apply kept_outside_trans. Qed.

(** The visit of one entry of a texture unit keeps the user data of every
    texture that was in the store. *)
Lemma kept_outside_apply_textureSlot (e : TypeMemberPair * RefAttributePair) :
  steps kept (PC.apply_textureSlot e).
Proof.
  intros s e' s' E. pose proof (apply_textureSlot_cases _ _ _ _ E) as C.
  destruct (fst (snd e)) as [p|].
  2:{ apply kept_outside_attrs_eq, C. }
  destruct C as (a & Ha & C). destruct (sa_texture a) as [tex|] eqn:Et.
  - destruct (tex_clonable tex).
    + destruct C as (q & _ & _ & Hq & HA).
      apply (kept_outside_insert_clone X _ _ p q _ _ HA Hq).
      intros a0 Ha0. rewrite Ha in Ha0. injection Ha0 as <-.
      now apply attr_kept_outside_flag.
    + destruct C as (_ & HA). apply (kept_outside_insert X _ _ p _ HA).
      intros a0 Ha0. rewrite Ha in Ha0. injection Ha0 as <-.
      now apply attr_kept_outside_flag.
  - destruct C as (_ & HA). apply (kept_outside_insert X _ _ p _ HA).
    intros a0 Ha0. rewrite Ha in Ha0. injection Ha0 as <-.
    now apply attr_kept_outside_plain.
Qed.

(** The first loop strips what it is given. *)
Lemma kept_outside_applyUserData_attr (q : ptr) :
  X q -> steps kept (PC.applyUserData_attr q).
Proof.
  intros Hx s u s' E. destruct (h_attrs (hp s) !! q) as [a|] eqn:Ha.
  - destruct (applyUserData_attr_run q a s Ha) as (s1 & E1 & Hw).
    rewrite E1 in E. injection E as _ <-.
    apply (kept_outside_insert X _ _ q (mkSA None (sa_texture a))).
    + unfold hp at 1. now rewrite Hw.
    + intros a0 Ha0. rewrite Ha in Ha0. injection Ha0 as <-.
      now apply attr_kept_outside_listed.
  - unfold PC.applyUserData_attr, PC.heap, bind, lift_option in E.
    unfold hp in Ha. rewrite Ha in E. discriminate.
Qed.

Lemma slot_post_any_stable (h0 : Heap)
    (e e' : TypeMemberPair * RefAttributePair) (h' h'' : Heap) :
  kept_outside X h' h'' -> slot_post_any h0 e e' h' ->
  slot_post_any h0 e e' h''.
Proof.
  intros HK (Hk & Hov & Hp). split; [exact Hk|]. split; [exact Hov|].
  destruct (fst (snd e)) as [p|]; [|exact Hp].
  intros a Ha. specialize (Hp a Ha).
  destruct (sa_texture a) as [tex|]; [|exact Hp].
  destruct Hp as ((a' & Ha' & Ht') & Hclone). split.
  - destruct (HK p a' Ha') as (a'' & Ha'' & _ & T & _).
    exists a''. split; [exact Ha''|]. rewrite Ht' in T.
    inversion T as [t1 t2 F E1 E2|]. subst.
    now rewrite (texture_flagged_of_cleared _ _ F).
  - destruct (tex_clonable tex); [|exact Hclone].
    destruct Hclone as (q & Hq & Hq0 & Hq').
    exists q. split; [exact Hq|]. split; [exact Hq0|].
    destruct (HK q _ Hq') as (c & Hc & U & T & _).
    rewrite Hc. cbn [sa_udc sa_texture] in U, T.
    inversion T as [t1 t2 F E1 E2|]. subst.
    rewrite (texture_flagged_of_cleared _ _ F) in E2.
    destruct c as [cu ct]. cbn [sa_udc sa_texture] in *. subst ct.
    now destruct U as [-> | ->].
Qed.

Lemma apply_textureSlot_post_any (h0 : Heap)
    (e e' : TypeMemberPair * RefAttributePair) (s s' : PC.State B) :
  kept_outside X h0 (hp s) ->
  PC.apply_textureSlot e s = Some (e', s') ->
  slot_post_any h0 e e' (hp s').
Proof.
  intros HK E. pose proof (apply_textureSlot_cases _ _ _ _ E) as C.
  unfold slot_post_any.
  destruct (fst (snd e)) as [p|] eqn:Ep.
  2:{ destruct C as [-> _]. repeat split. }
  destruct C as (a & Ha & C).
  assert (Hsame : e' = e -> fst e' = fst e /\ snd (snd e') = snd (snd e))
    by now intros ->.
  assert (Hcases : forall a0, h_attrs h0 !! p = Some a0 ->
            option_Forall2 texture_flagged (sa_texture a0) (sa_texture a)).
  { intros a0 Ha0. destruct (HK p a0 Ha0) as (a1 & Ha1 & _ & T & _).
    rewrite Ha in Ha1. now injection Ha1 as <-. }
  destruct (sa_texture a) as [tex|] eqn:Et.
  - destruct (tex_clonable tex) eqn:Ecl.
    + destruct C as (q & -> & Hqp & Hq & HA).
      split; [reflexivity|]. split; [reflexivity|].
      intros a0 Ha0. specialize (Hcases a0 Ha0).
      inversion Hcases as [tex0 t F E0 E1|]. subst t.
      pose proof (cleared_of_flagged _ _ F) as Hc.
      destruct F as (_ & Hcl & _). rewrite <- Hc, <- Hcl, Ecl. split.
      * exists (mkSA (sa_udc a) (Some (cleared tex))).
        split; [|reflexivity].
        rewrite HA, lookup_insert_ne, lookup_insert_eq by congruence.
        reflexivity.
      * exists q. split; [reflexivity|]. split.
        -- destruct (h_attrs h0 !! q) as [b|] eqn:Eb; [|reflexivity].
           destruct (HK q b Eb) as (b' & Hb' & _). congruence.
        -- rewrite HA. apply lookup_insert_eq.
    + destruct C as (-> & HA). split; [reflexivity|]. split; [reflexivity|].
      intros a0 Ha0. specialize (Hcases a0 Ha0).
      inversion Hcases as [tex0 t F E0 E1|]. subst t.
      pose proof (cleared_of_flagged _ _ F) as Hc.
      destruct F as (_ & Hcl & _). rewrite <- Hc, <- Hcl, Ecl.
      split; [|reflexivity].
      exists (mkSA (sa_udc a) (Some (cleared tex))).
      split; [|reflexivity]. rewrite HA. apply lookup_insert_eq.
  - destruct C as (-> & HA). split; [reflexivity|]. split; [reflexivity|].
    intros a0 Ha0. specialize (Hcases a0 Ha0).
    inversion Hcases as [|E0 E1]. reflexivity.
Qed.

End PrepareForCachingAnyStore.

Section PrepareForCachingAnyStateSet.
Context {B : Type}.

Local Abbreviation strip_plain := (fun i : TypeMemberPair * RefAttributePair =>
  match fst (snd i) with
  | Some sa => PC.applyUserData_attr (B := B) sa
  | None => fail
  end).

(** The visit of a state set, taken apart. *)
Lemma apply_StateSet_inv (p : ptr) (s s' : PC.State B) (u : unit) :
  PC.apply_StateSet (Some p) s = Some (u, s') ->
  exists ss s1 a s2,
    h_stateSets (hp s) !! p = Some ss
    /\ forM_ (ss_attributeList ss) strip_plain s = Some (tt, s1)
    /\ mapM (mapM PC.apply_textureSlot) (ss_textureAttributeList ss) s1
       = Some (a, s2)
    /\ h_attrs (hp s') = h_attrs (hp s2)
    /\ h_stateSets (hp s') !! p
       = Some (mkStateSet None (ss_attributeList ss) a).
Proof.
  intros E. cbn [PC.apply_StateSet] in E.
  unfold PC.heap in E. unfold bind at 1 in E. unfold bind at 1 in E.
  destruct (h_stateSets (w_heap (PC.world s)) !! p) as [ss|] eqn:Ess;
    [|discriminate].
  unfold lift_option, ret at 1 in E.
  destruct (bind_inv _ _ _ _ _ E) as ([] & s1 & E1 & E1'). clear E.
  destruct (bind_inv _ _ _ _ _ E1') as (a & s2 & E2 & E2'). clear E1'.
  destruct (bind_inv _ _ _ _ _ E2') as (z & s3 & E3 & E4). clear E2'.
  exists ss, s1, a, s2. split; [exact Ess|]. split; [exact E1|].
  split; [exact E2|].
  assert (H3 : h_stateSets (hp s3) !! p
               = Some (mkStateSet (ss_udc ss) (ss_attributeList ss) a)
               /\ h_attrs (hp s3) = h_attrs (hp s2)).
  { injection E3 as _ <-. unfold hp. simpl.
    split; [apply lookup_insert_eq | reflexivity]. }
  destruct H3 as (H3 & A3).
  destruct (applyUserData_stateSet_run p _ s3 H3) as (s4 & E5 & Hw).
  rewrite E5 in E4. injection E4 as _ <-.
  split; unfold hp at 1; rewrite Hw; simpl;
    [exact A3 | apply lookup_insert_eq].
Qed.

(** What the visit of a state set leaves of the attributes of the store
    and of the entries of its texture units. *)
Lemma apply_StateSet_posts_any (p : ptr) (ss : StateSet) (s s' : PC.State B)
    (u : unit) :
  h_stateSets (hp s) !! p = Some ss ->
  PC.apply_StateSet (Some p) s = Some (u, s') ->
  kept_outside (in_plain_list ss) (hp s) (hp s')
  /\ exists units',
       h_stateSets (hp s') !! p
       = Some (mkStateSet None (ss_attributeList ss) units')
       /\ Forall2 (Forall2 (fun e e' => slot_post_any (hp s) e e' (hp s')))
                  (ss_textureAttributeList ss) units'.
Proof.
  intros Hss E.
  destruct (apply_StateSet_inv _ _ _ _ E)
    as (ss0 & s1 & units' & s2 & Hss0 & E1 & E2 & HA & HS).
  rewrite Hss in Hss0. injection Hss0 as <-.
  set (X := in_plain_list ss).
  set (R := fun t t' : PC.State B => kept_outside X (hp t) (hp t')).
  assert (R_refl : forall t, R t t) by (intros t; apply kept_outside_refl).
  assert (R_trans : forall t1 t2 t3, R t1 t2 -> R t2 t3 -> R t1 t3)
    by (intros t1 t2 t3; apply kept_outside_trans).
  assert (Hslot : forall e, steps R (PC.apply_textureSlot e))
    by (intros e; apply kept_outside_apply_textureSlot).
  assert (K1 : R s s1).
  { revert E1. apply (steps_forM__Forall R R_refl R_trans).
    apply Forall_forall. intros e He. cbv beta.
    destruct (fst (snd e)) as [sa|] eqn:Esa; [|apply steps_fail].
    apply kept_outside_applyUserData_attr. exists e.
    split; [now apply list_elem_of_In | exact Esa]. }
  assert (K2 : R s1 s2).
  { revert E2. apply (steps_mapM R R_refl R_trans). intros b.
    now apply (steps_mapM R R_refl R_trans). }
  assert (K3 : R s2 s') by now apply kept_outside_attrs_eq.
  split; [exact (R_trans _ _ _ K1 (R_trans _ _ _ K2 K3))|].
  exists units'. split; [exact HS|].
  assert (P2 : Forall2 (Forall2 (fun e e' => slot_post_any (hp s) e e' (hp s2)))
                       (ss_textureAttributeList ss) units').
  { revert E2.
    apply (mapM_posts_from R R_refl R_trans s
             (fun unit unit' t =>
                Forall2 (fun e e' => slot_post_any (hp s) e e' (hp t))
                        unit unit')); [| | |exact K1].
    - intros unit unit' t t' Ht Hu. eapply Forall2_impl; [exact Hu|].
      intros e e'. now apply (slot_post_any_stable X).
    - intros b. now apply (steps_mapM R R_refl R_trans).
    - intros unit t unit' t' H0.
      apply (mapM_posts_from R R_refl R_trans s
               (fun e e' t => slot_post_any (hp s) e e' (hp t)));
        [| |  |exact H0].
      + intros e e' r r' Hr. now apply (slot_post_any_stable X).
      + exact Hslot.
      + intros e r e' r' Hr. now apply (apply_textureSlot_post_any X). }
  eapply Forall2_impl; [exact P2|]. intros unit unit' Hu.
  eapply Forall2_impl; [exact Hu|]. intros e e'.
  now apply (slot_post_any_stable X).
Qed.

Lemma image_ok_stripped (h h' : Heap) (image : option ptr) :
  only_stripped h h' -> image_ok h image = true -> image_ok h' image = true.
Proof.
  intros (_ & _ & HI). unfold image_ok. destruct image as [ip|]; [|easy].
  specialize (HI ip). destruct HI; easy.
Qed.

Lemma plain_slot_ok_stripped (h h' : Heap)
    (e : TypeMemberPair * RefAttributePair) :
  only_stripped h h' -> plain_slot_ok h e = true -> plain_slot_ok h' e = true.
Proof.
  intros (_ & HA & _). unfold plain_slot_ok.
  destruct (fst (snd e)) as [q|]; [|easy].
  destruct (h_attrs h !! q) as [a|] eqn:Ea; [|easy].
  destruct (HA q a Ea) as (a' & -> & _). easy.
Qed.

Lemma slot_runs_ok_stable (e : TypeMemberPair * RefAttributePair)
    (s s' : PC.State B) :
  prep_frame s s' -> slot_runs_ok e s -> slot_runs_ok e s'.
Proof.
  intros (Hs & _) (Hok & Himgs). unfold slot_runs_ok, slot_ok in *.
  destruct (fst (snd e)) as [p|]; [|split; [reflexivity | intros ? ? [=]]].
  destruct (h_attrs (hp s) !! p) as [a|] eqn:Ea; [|discriminate].
  destruct (proj1 (proj2 Hs) p a Ea) as (a' & Ha' & _ & T).
  rewrite Ha'. split; [reflexivity|].
  intros p0 a0 [= <-] Ha0. rewrite Ha' in Ha0. injection Ha0 as <-.
  pose proof (Himgs p a eq_refl Ea) as Hao. unfold attr_ok in *.
  destruct T as [t t' (Hi & _)|]; [|reflexivity].
  rewrite Hi. revert Hao. apply forallb_impl. intros image.
  now apply image_ok_stripped.
Qed.

(** The visit of one entry of a texture unit runs to its end. *)
Lemma apply_textureSlot_runs (e : TypeMemberPair * RefAttributePair)
    (s : PC.State B) :
  slot_runs_ok e s ->
  exists e' s', PC.apply_textureSlot e s = Some (e', s').
Proof.
  intros [Hok Himgs]. unfold slot_ok in Hok. unfold PC.apply_textureSlot.
  destruct (fst (snd e)) as [p|]; [|now eexists _, _].
  destruct (h_attrs (hp s) !! p) as [a|] eqn:Ea; [|discriminate].
  pose proof (Himgs p a eq_refl Ea) as Hao. unfold attr_ok in Hao.
  unfold PC.heap. unfold bind at 1. unfold bind at 1. fold (hp s).
  rewrite Ea. unfold lift_option, ret at 1.
  destruct (sa_texture a) as [tex|] eqn:Et.
  - set (a1 := mkSA (sa_udc a) (Some (cleared tex))).
    rewrite (bind_run _ _ _ _ _ (update_heap_run _ s)).
    set (s1 := PC.mkState (PC.this s)
                 (set_heap (set_attr p a1 (hp s)) (PC.world s))).
    assert (E1 : h_attrs (hp s1) !! p = Some a1) by apply lookup_insert_eq.
    pose proof (clone_run p a1 (cleared tex) s1 E1 eq_refl) as Hclone.
    change (tex_clonable (cleared tex)) with (tex_clonable tex) in Hclone.
    change (PC.mkState (PC.this s) (set_heap (set_attr p
              (mkSA (sa_udc a) (Some (PC.setUnRefImageDataAfterApply false tex)))
              (hp s)) (PC.world s))) with s1.
    destruct (tex_clonable tex) eqn:Ec; rewrite (bind_run _ _ _ _ _ Hclone);
      [|now eexists _, _].
    set (q := fresh (dom (h_attrs (hp s1)))) in *.
    set (s2 := PC.mkState (PC.this s1)
                 (set_heap (set_attr q a1 (hp s1)) (PC.world s1))).
    assert (E2 : h_attrs (hp s2) !! q = Some a1) by apply lookup_insert_eq.
    rewrite (bind_run _ _ _ _ _ (getImages_run q a1 s2 E2)).
    cbn [sa_texture a1 cleared PC.setUnRefImageDataAfterApply tex_images].
    destruct (strip_images_run (tex_images tex) s2 Hao)
      as (s3 & E3 & A3 & _).
    rewrite (bind_run _ _ _ _ _ E3).
    assert (E3q : h_attrs (hp s3) !! q = Some a1) by now rewrite A3.
    destruct (applyUserData_attr_run q a1 s3 E3q) as (s4 & E4 & _).
    rewrite (bind_run _ _ _ _ _ E4). now eexists _, _.
  - destruct (applyUserData_attr_run p a s Ea) as (s1 & E1 & _).
    rewrite (bind_run _ _ _ _ _ E1). now eexists _, _.
Qed.

(** The visit of a state set runs to its end when the pointers it follows
    lead somewhere, whatever the kind of the attributes in its plain
    attribute list. *)
Lemma apply_StateSet_runs (p : ptr) (ss : StateSet) (s : PC.State B) :
  h_stateSets (hp s) !! p = Some ss ->
  stateSet_reads_ok (hp s) ss = true ->
  attrs_ok (hp s) ->
  exists s', PC.apply_StateSet (Some p) s = Some (tt, s').
Proof.
  intros Hss Hok Hattrs. apply andb_true_iff in Hok as [Hplain Hunits].
  cbn [PC.apply_StateSet]. unfold PC.heap.
  unfold bind at 1. unfold bind at 1. fold (hp s). rewrite Hss.
  unfold lift_option, ret at 1.
  assert (Hsteps_plain : forall i, steps (prep_frame (B := B)) (strip_plain i)).
  { intros i. cbv beta.
    destruct (fst (snd i)); [apply steps_applyUserData_attr | apply steps_fail]. }
  destruct (forM__runs prep_frame
              (fun e (t : PC.State B) => plain_slot_ok (hp t) e = true)
              strip_plain (ss_attributeList ss)) with (s := s) as (s1 & E1).
  { intros e t t' (Ht & _). now apply plain_slot_ok_stripped. }
  { exact Hsteps_plain. }
  { intros e t Hq. unfold plain_slot_ok in Hq. cbv beta.
    destruct (fst (snd e)) as [q|]; [|discriminate].
    destruct (h_attrs (hp t) !! q) as [a|] eqn:Ea; [|discriminate].
    destruct (applyUserData_attr_run q a t Ea) as (t' & Et' & _). eauto. }
  { apply Forall_forall. intros e He. rewrite forallb_forall in Hplain.
    apply Hplain. now apply list_elem_of_In. }
  rewrite (bind_run _ _ _ _ _ E1).
  assert (R01 : prep_frame s s1).
  { revert E1. apply steps_forM_;
      [apply prep_frame_refl | apply prep_frame_trans | exact Hsteps_plain]. }
  destruct (mapM_runs prep_frame
              (fun (unit : AttributeList) (t : PC.State B) =>
                 Forall (fun e => slot_runs_ok e t) unit)
              (mapM PC.apply_textureSlot) (ss_textureAttributeList ss))
    with (s := s1) as (a & s2 & E2).
  { intros unit t t' Ht Hu. eapply Forall_impl; [exact Hu|].
    intros e. now apply slot_runs_ok_stable. }
  { intros b. apply steps_mapM;
      [apply prep_frame_refl | apply prep_frame_trans|].
    apply steps_apply_textureSlot. }
  { intros unit t Hu.
    apply (mapM_runs prep_frame
             (fun e (r : PC.State B) => slot_runs_ok e r)).
    - intros e r r'. apply slot_runs_ok_stable.
    - apply steps_apply_textureSlot.
    - intros e r. apply apply_textureSlot_runs.
    - exact Hu. }
  { apply Forall_forall. intros unit Hunit. apply Forall_forall. intros e He.
    apply (slot_runs_ok_stable e s s1 R01).
    rewrite forallb_forall in Hunits.
    pose proof (Hunits unit (proj1 (list_elem_of_In _ _) Hunit)) as Hu.
    rewrite forallb_forall in Hu. split.
    - apply Hu. now apply list_elem_of_In.
    - intros q b _ Hb. exact (Hattrs q b Hb). }
  rewrite (bind_run _ _ _ _ _ E2).
  rewrite (bind_run _ _ _ _ _ (update_heap_run _ s2)).
  match goal with |- context [PC.applyUserData_stateSet p ?st] =>
    set (s3 := st) end.
  destruct (applyUserData_stateSet_run p
              (mkStateSet (ss_udc ss) (ss_attributeList ss) a) s3)
    as (s4 & E4 & _); [apply lookup_insert_eq|].
  exists s4. exact E4.
Qed.

End PrepareForCachingAnyStateSet.

(** The visit of a state set, seen from one entry of a texture unit that
    points to a texture, whatever the plain attribute list holds. *)
Lemma apply_StateSet_slot_any {B : Type} (s : PC.State B) (p : ptr)
    (ss : StateSet) (i j : nat) (unit : AttributeList)
    (e : TypeMemberPair * RefAttributePair) (t : ptr) (a : StateAttribute)
    (tex : Texture) :
  h_stateSets (hp s) !! p = Some ss ->
  stateSet_reads_ok (hp s) ss = true ->
  attrs_ok (hp s) ->
  ss_textureAttributeList ss !! i = Some unit ->
  unit !! j = Some e ->
  fst (snd e) = Some t ->
  h_attrs (hp s) !! t = Some a ->
  sa_texture a = Some tex ->
  exists s' units' unit' e' a',
    PC.apply_StateSet (Some p) s = Some (tt, s')
    /\ h_attrs (hp s') !! t = Some a'
    /\ sa_texture a' = Some (cleared tex)
    /\ (~ in_plain_list ss t -> sa_udc a' = sa_udc a)
    /\ (in_plain_list ss t -> sa_udc a' = None)
    /\ h_stateSets (hp s') !! p
       = Some (mkStateSet None (ss_attributeList ss) units')
    /\ units' !! i = Some unit' /\ unit' !! j = Some e'
    /\ fst e' = fst e /\ snd (snd e') = snd (snd e)
    /\ if tex_clonable tex
       then exists q, fst (snd e') = Some q
                      /\ h_attrs (hp s) !! q = None
                      /\ h_attrs (hp s') !! q
                         = Some (mkSA None (Some (cleared tex)))
       else e' = e.
Proof.
  intros Hss Hok Hattrs Hi Hj He Ha Ht.
  destruct (apply_StateSet_runs p ss s Hss Hok Hattrs) as (s' & E).
  destruct (apply_StateSet_posts_any p ss s s' tt Hss E)
    as (HK & units' & Hss' & Hposts).
  destruct (Forall2_lookup_l _ _ _ _ _ Hposts Hi) as (unit' & Hi' & Hunit).
  destruct (Forall2_lookup_l _ _ _ _ _ Hunit Hj) as (e' & Hj' & Hk & Hov & Hp).
  rewrite He in Hp. specialize (Hp a Ha). rewrite Ht in Hp.
  destruct Hp as ((a' & Ha' & Ht') & Hslot).
  exists s', units', unit', e', a'.
  split; [exact E|]. split; [exact Ha'|]. split; [exact Ht'|]. split.
  { intros Hn. destruct (HK t a Ha) as (a2 & Ha2 & _ & _ & Hu).
    rewrite Ha' in Ha2. injection Ha2 as <-. apply Hu; [|exact Hn].
    rewrite Ht. eauto. }
  split.
  { intros (e0 & Hin & He0).
    destruct (apply_StateSet_clean _ _ _ _ E) as (ss2 & Hss2 & _ & Hpl & _).
    rewrite Hss' in Hss2. injection Hss2 as <-.
    cbn [ss_attributeList] in Hpl. rewrite Forall_forall in Hpl.
    destruct (Hpl e0 (proj2 (list_elem_of_In _ _) Hin))
      as (q & Hq & a2 & Ha2 & Hu).
    pose proof (eq_trans (eq_sym Hq) He0) as Hqt. injection Hqt as ->.
    rewrite Ha' in Ha2. now injection Ha2 as <-. }
  repeat (split; [assumption|]). exact Hslot.
Qed.

(** C1, as the code has it. For an entry [e] of a texture unit of a state
    set that points to a texture [t], in a store where the pointers that the
    visit follows lead to objects, and whatever the plain attribute list of
    the state set holds: the visit of the state set runs to its end; it
    clears the "unref after apply" flag of [t] itself, in place, and leaves
    the images of [t] as they were; the user data of [t] is as it was,
    unless the plain attribute list of the same state set holds [t] too, and
    then the first loop has detached it from [t] itself; when [t] can be
    cloned the entry then holds a new object, equal to [t] with the flag
    cleared and without user data, and when the clone fails the entry stays
    as it was. Over a whole graph in a store where no plain attribute list
    holds a texture, every texture of the store keeps its user data and its
    images, and its flag is as before or cleared. *)
Theorem sanitizer_clones_before_stripping {B : Type} (s : PC.State B)
    (root : Node) (p : ptr) (ss : StateSet) (i j : nat)
    (unit : AttributeList) (e : TypeMemberPair * RefAttributePair)
    (t : ptr) (a : StateAttribute) (tex : Texture) :
  h_stateSets (hp s) !! p = Some ss ->
  stateSet_reads_ok (hp s) ss = true ->
  attrs_ok (hp s) ->
  ss_textureAttributeList ss !! i = Some unit ->
  unit !! j = Some e ->
  fst (snd e) = Some t ->
  h_attrs (hp s) !! t = Some a ->
  sa_texture a = Some tex ->
  (exists s' units' unit' e' u',
     PC.apply_StateSet (Some p) s = Some (tt, s')
     /\ h_attrs (hp s') !! t
        = Some (mkSA u' (Some (PC.setUnRefImageDataAfterApply false tex)))
     /\ (~ in_plain_list ss t -> u' = sa_udc a)
     /\ (in_plain_list ss t -> u' = None)
     /\ h_stateSets (hp s') !! p
        = Some (mkStateSet None (ss_attributeList ss) units')
     /\ units' !! i = Some unit' /\ unit' !! j = Some e'
     /\ fst e' = fst e /\ snd (snd e') = snd (snd e)
     /\ (tex_clonable tex = true ->
         exists q, fst (snd e') = Some q
                   /\ q <> t
                   /\ h_attrs (hp s) !! q = None
                   /\ h_attrs (hp s') !! q
                      = Some (mkSA None
                           (Some (PC.setUnRefImageDataAfterApply false tex))))
     /\ (tex_clonable tex = false -> e' = e))
  /\ (wf_heap (hp s) -> node_ok (hp s) root = true ->
      exists s',
        PC.accept root s = Some (strip_node root, s')
        /\ forall r b btex,
             h_attrs (hp s) !! r = Some b -> sa_texture b = Some btex ->
             exists btex',
               h_attrs (hp s') !! r = Some (mkSA (sa_udc b) (Some btex'))
               /\ tex_images btex' = tex_images btex
               /\ (tex_unRefImageDataAfterApply btex'
                   = tex_unRefImageDataAfterApply btex
                   \/ tex_unRefImageDataAfterApply btex' = false)).
Proof.
  intros Hss Hok Hattrs Hi Hj He Ha Ht. split.
  - destruct (apply_StateSet_slot_any s p ss i j unit e t a tex
                Hss Hok Hattrs Hi Hj He Ha Ht)
      as (s' & units' & unit' & e' & a' & Hrun & Ha' & Ht' & Hout & Hin
          & Hss' & Hi' & Hj' & Hk & Hov & Hslot).
    exists s', units', unit', e', (sa_udc a').
    split; [exact Hrun|]. split.
    { rewrite Ha'. destruct a' as [u' t']. simpl in *. now subst. }
    repeat (split; [assumption|]).
    destruct (tex_clonable tex); split; try discriminate; intros _.
    + destruct Hslot as (q & Hq1 & Hq2 & Hq3). exists q.
      repeat split; try assumption. congruence.
    + exact Hslot.
  - intros Hwf Hroot.
    destruct (accept_run root s Hwf Hroot) as (s' & Hrun & _ & Hkept).
    exists s'. split; [exact Hrun|]. intros r b btex Hb Hbt.
    destruct (proj1 (proj2 Hkept) r b Hb) as (b' & Hb' & K).
    unfold texture_kept in K. rewrite Hbt in K.
    destruct K as (U & btex' & Et' & HI & _ & HF).
    exists btex'. split; [|split; assumption].
    rewrite Hb'. destruct b' as [u' t']. simpl in *. now subst.
Qed.

Lemma sanitizer_clones_before_stripping_witness :
  stateSet_reads_ok (hp sample_state) sample_stateSet = true
  /\ attrs_ok (hp sample_state)
  /\ exists s' units' unit' e',
       PC.apply_StateSet (Some 5%positive) sample_state = Some (tt, s')
       /\ h_attrs (hp s') !! 10%positive
          = Some (mkSA (Some sample_udc)
                       (Some (mkTexture false [Some 3%positive] true)))
       /\ h_stateSets (hp s') !! 5%positive
          = Some (mkStateSet None [] units')
       /\ units' !! 0 = Some unit' /\ unit' !! 0 = Some e'
       /\ exists q, fst (snd e') = Some q
                    /\ q <> 10%positive
                    /\ h_attrs (hp s') !! q
                       = Some (mkSA None
                            (Some (mkTexture false [Some 3%positive] true))).
Proof.
  split; [reflexivity|]. split; [exact (proj2 sample_heap_wf)|].
  destruct (sanitizer_clones_before_stripping sample_state sample_root
              5%positive sample_stateSet 0 0 _ _ 10%positive shared_texture _
              eq_refl eq_refl (proj2 sample_heap_wf) eq_refl eq_refl eq_refl
              eq_refl eq_refl)
    as [(s' & units' & unit' & e' & u' & Hrun & Horig & Hout & _ & Hss' & Hi'
         & Hj' & _ & _ & Hclone & _) _].
  exists s', units', unit', e'. split; [exact Hrun|]. split.
  { rewrite Horig. f_equal. f_equal. apply Hout.
    intros (e0 & [] & _). }
  repeat (split; [assumption|]).
  destruct (Hclone eq_refl) as (q & Hq1 & Hq2 & _ & Hq3).
  exists q. repeat split; assumption.
Defined.

(** X8. The clone of a texture is shallow, so the images whose user data
    PrepareForCaching detaches are the images of the texture it was given.
    In a store where the pointers that the visit follows lead to objects,
    and whatever the plain attribute list of the state set holds: after the
    visit of a state set, for a texture [t] in one of its texture units that
    can be cloned, [t] itself still has its images; it still has its user
    data too, unless the plain attribute list of the same state set holds
    [t] as well, and then [t] itself is left without user data; and each of
    the images of [t] is in the store without user data, with the file name,
    write hint and pixel data it had. *)
Theorem sanitizer_strips_images_of_original {B : Type} (s : PC.State B)
    (p : ptr) (ss : StateSet) (i j : nat) (unit : AttributeList)
    (e : TypeMemberPair * RefAttributePair) (t : ptr) (a : StateAttribute)
    (tex : Texture) (ip : ptr) (img : Image) :
  h_stateSets (hp s) !! p = Some ss ->
  stateSet_reads_ok (hp s) ss = true ->
  attrs_ok (hp s) ->
  ss_textureAttributeList ss !! i = Some unit ->
  unit !! j = Some e ->
  fst (snd e) = Some t ->
  h_attrs (hp s) !! t = Some a ->
  sa_texture a = Some tex ->
  tex_clonable tex = true ->
  In (Some ip) (tex_images tex) ->
  h_images (hp s) !! ip = Some img ->
  exists s' u' tex',
    PC.apply_StateSet (Some p) s = Some (tt, s')
    /\ h_attrs (hp s') !! t = Some (mkSA u' (Some tex'))
    /\ (~ in_plain_list ss t -> u' = sa_udc a)
    /\ (in_plain_list ss t -> u' = None)
    /\ tex_images tex' = tex_images tex
    /\ h_images (hp s') !! ip
       = Some (mkImage None (img_fileName img) (img_writeHint img)
                       (img_data img)).
Proof.
  intros Hss Hok Hattrs Hi Hj He Ha Ht Hcl Hin Himg.
  destruct (apply_StateSet_slot_any s p ss i j unit e t a tex
              Hss Hok Hattrs Hi Hj He Ha Ht)
    as (s' & units' & unit' & e' & a' & E & Ha' & Ht' & Hout & Hpl & Hss'
        & Hi' & Hj' & _ & _ & Hq).
  rewrite Hcl in Hq. destruct Hq as (q & Hq & _ & Hqa).
  exists s', (sa_udc a'), (cleared tex). split; [exact E|]. split.
  { rewrite Ha'. destruct a' as [u' t']. simpl in *. now subst. }
  split; [exact Hout|]. split; [exact Hpl|]. split; [reflexivity|].
  destruct (apply_StateSet_clean _ _ _ _ E) as (ss' & Hss'' & _ & _ & Hun).
  rewrite Hss' in Hss''. injection Hss'' as <-.
  cbn [ss_textureAttributeList] in Hun.
  pose proof (Forall_lookup_1 _ _ _ _ (Forall_lookup_1 _ _ _ _ Hun Hi') Hj')
    as Hslot.
  destruct (Hslot q Hq) as (c & Hc & Hk).
  rewrite Hqa in Hc. injection Hc as <-. cbn [sa_texture] in Hk.
  destruct Hk as [Hk | [_ Hk]].
  { change (tex_clonable tex = false) in Hk. congruence. }
  change (tex_images (cleared tex)) with (tex_images tex) in Hk.
  rewrite Forall_forall in Hk.
  destruct (Hk (Some ip) (proj2 (list_elem_of_In _ _) Hin) ip eq_refl)
    as (img' & Himg' & Hu).
  destruct (steps_apply_StateSet _ _ _ _ E) as ((_ & _ & HI) & _).
  specialize (HI ip). rewrite Himg, Himg' in HI.
  inversion HI as [i0 i1 (Hn & Hh & Hd & _) |]. subst i0 i1.
  rewrite Himg'. destruct img' as [u' n' h' d']. simpl in *. now subst.
Qed.

Lemma sanitizer_strips_images_of_original_witness :
  stateSet_reads_ok (hp sample_state_both) sample_stateSet_both = true
  /\ attrs_ok (hp sample_state_both)
  /\ in_plain_list sample_stateSet_both 10%positive
  /\ exists s' tex',
       PC.apply_StateSet (Some 5%positive) sample_state_both = Some (tt, s')
       /\ h_attrs (hp s') !! 10%positive = Some (mkSA None (Some tex'))
       /\ tex_images tex' = [Some 3%positive]
       /\ h_images (hp s') !! 3%positive = Some tex_png.
Proof.
  assert (Hattrs : attrs_ok (hp sample_state_both)).
  { apply map_Forall_insert_2; [reflexivity | apply map_Forall_empty]. }
  assert (Hin : in_plain_list sample_stateSet_both 10%positive).
  { exists ((7%N, 0%N), (Some 10%positive, 0%N)).
    split; [now left | reflexivity]. }
  split; [reflexivity|]. split; [exact Hattrs|]. split; [exact Hin|].
  destruct (sanitizer_strips_images_of_original sample_state_both 5%positive
              sample_stateSet_both 0 0
              [((0%N, 0%N), (Some 10%positive, 0%N))]
              ((0%N, 0%N), (Some 10%positive, 0%N)) 10%positive shared_texture
              (mkTexture true [Some 3%positive] true) 3%positive tagged_image
              eq_refl eq_refl Hattrs eq_refl eq_refl eq_refl eq_refl eq_refl
              eq_refl (or_introl eq_refl) eq_refl)
    as (s' & u' & tex' & E & Ha' & _ & Hpl & Hi & Himg).
  exists s', tex'. split; [exact E|]. split.
  { rewrite Ha'. now rewrite (Hpl Hin). }
  split; [exact Hi | exact Himg].
Defined.
